(** * pockethero: event bus, state store, spatial grid, entity registry and
      interaction resolution, embedded from the JavaScript sources.

    Conventions of the embedding.
    - A JavaScript function object or entity object is represented by its
      identity (a [nat]); [===] on objects is equality of identities.
    - JavaScript numbers that hold grid coordinates, sizes and counters are
      integers ([Z], [N]): a double holds every integer below 2^53 exactly.
      World coordinates and the cell size are the rationals that finite
      doubles denote ([Q]), and arithmetic on them rounds as binary64 does
      ([Double]).
    - A JavaScript object used as a dictionary is a [gmap]; a missing key
      is [undefined].  This is what the code sees for every key that is
      not the name of a member of [Object.prototype] ([Js.own_key]). *)

From Stdlib Require Import Ascii QArith Qround Qminmax Qabs Qpower Lqa.
From stdpp Require Import gmap strings list fin_maps pretty.

Open Scope string_scope.
Open Scope list_scope.
Open Scope Z_scope.

(* stdpp's solvers clear hypotheses they may already have consumed. *)
#[local] Set Warnings "-clear-no-such-hyp".

(* ===================================================================== *)
(** * The JavaScript the sources run on *)
(* ===================================================================== *)

Module Js.

(** The property names that an object literal inherits from
    [Object.prototype].  Read at one of them, a dictionary [{}] yields the
    inherited member rather than [undefined]. *)
Definition prototype_names : list string :=
  ["constructor"; "__proto__"; "hasOwnProperty"; "isPrototypeOf";
   "propertyIsEnumerable"; "toLocaleString"; "toString"; "valueOf";
   "__defineGetter__"; "__defineSetter__"; "__lookupGetter__"; "__lookupSetter__"].

(** A key at which a dictionary holds what was stored in it and nothing
    else. *)
Definition own_key (name : string) : Prop := name ∉ prototype_names.

End Js.

Module Double.

(** A finite double is the rational it denotes.  An arithmetic operation
    is the exact operation followed by rounding to the nearest double,
    ties to the even significand.  Infinities, NaN and the sign of zero
    are not represented: [round] is defined on every rational and is what
    binary64 does for results below 2^1024 in magnitude. *)

(** [2^e], for any integer [e]. *)
Definition pow2 (e : Z) : Q := (2 ^ e)%Q.

(** [floor (log2 |q|)] for a rational other than zero. *)
Definition ilog2 (q : Q) : Z :=
  let l := Z.log2 (Z.abs (Qnum q)) - Z.log2 (Zpos (Qden q)) in
  if Qle_bool (pow2 l) (Qabs q) then l else l - 1.

(** The exponent of the last place of the doubles around [q]: 53
    significant bits, and the subnormal spacing [2^-1074] at the bottom. *)
Definition ulp_exponent (q : Q) : Z := Z.max (ilog2 q - 52) (-1074).

(** The nearest integer, the even one of two that are equally near. *)
Definition nearest_even (q : Q) : Z :=
  let f := Qfloor q in
  match (q - inject_Z f ?= 1 # 2)%Q with
  | Lt => f
  | Gt => f + 1
  | Eq => if Z.even f then f else f + 1
  end.

Definition round (q : Q) : Q :=
  if Qeq_bool q 0 then 0%Q
  else let e := ulp_exponent q in
       Qred (inject_Z (nearest_even (q / pow2 e)) * pow2 e).

(** [a * b], [a + b] and [a / b] on doubles. *)
Definition mul (a b : Q) : Q := round (a * b).
Definition add (a b : Q) : Q := round (a + b).
Definition div (a b : Q) : Q := round (a / b).

(** [Math.floor] *)
Definition floor (a : Q) : Z := Qfloor a.

(** The rationals that are doubles: an integer significand below 2^53
    times a power of two within the exponent range. *)
Definition representable (q : Q) : Prop :=
  ∃ m e : Z, Z.abs m < 2 ^ 53 ∧ -1074 ≤ e ≤ 971 ∧ (q == inject_Z m * pow2 e)%Q.

End Double.

(* ===================================================================== *)
(** * js/core/event.js *)
(* ===================================================================== *)

Module Events.

(** Identity of a handler function ([h !== handler] compares these). *)
Definition handler := nat.

(** How a call of a handler ends: it returns, or it throws [err]. *)
Inductive completion :=
| Returned
| Threw (err : string).

Section Bus.

Context {Data World : Type}.

(** [_handlers] together with everything else a handler may touch. *)
Record state := mkState {
  handlers : gmap string (list handler);
  world : World
}.

(** Behaviour of the handler functions.  A handler may do anything to the
    state, the bus included (subscribe, unsubscribe, nested publish). *)
Variable call : handler → Data → state → state * completion.

Definition set_handlers (f : gmap string (list handler) → gmap string (list handler))
  (s : state) : state :=
  {| handlers := f (handlers s); world := world s |}.

(** [subscribe(eventName, handler)]: create the list on first use, push.
    The returned closure is [unsubscribe eventName h]. *)
Definition subscribe (eventName : string) (h : handler) (s : state) : state :=
  let s1 := match handlers s !! eventName with
            | Some _ => s
            | None => set_handlers (insert eventName []) s
            end in
  set_handlers (λ m, match m !! eventName with
                     | Some l => <[eventName := l ++ [h]]> m
                     | None => m
                     end) s1.

(** The closure returned by [subscribe]:
    [_handlers[eventName] = _handlers[eventName].filter(h => h !== handler)].
    [None] is the TypeError raised when the key was deleted by [clear]. *)
Definition unsubscribe (eventName : string) (h : handler) (s : state) : option state :=
  match handlers s !! eventName with
  | None => None
  | Some l => Some (set_handlers (insert eventName (filter (λ h', h' ≠ h) l)) s)
  end.

(** One record per handler call made by [publish], and the arguments of
    each [console.error] it issued. *)
Definition call_log := list (handler * completion).
Definition error_log := list (string * string).

(** [forEach] over the array as it was when [publish] started: the only
    in-place change to it is [push], whose elements [forEach] skips, and
    [unsubscribe] installs a new array.  The body is the [try]/[catch]. *)
Fixpoint forEach (eventName : string) (hs : list handler) (data : Data) (s : state)
  : state * call_log * error_log :=
  match hs with
  | [] => (s, [], [])
  | h :: rest =>
      let '(s1, c) := call h data s in
      let caught := match c with
                    | Returned => []
                    | Threw err => [(eventName, err)]
                    end in
      let '(s2, calls, errs) := forEach eventName rest data s1 in
      (s2, (h, c) :: calls, caught ++ errs)
  end.

Definition publish (eventName : string) (data : Data) (s : state)
  : state * call_log * error_log :=
  match handlers s !! eventName with
  | None => (s, [], [])
  | Some hs => forEach eventName hs data s
  end.

Definition clear (s : state) : state := set_handlers (λ _, ∅) s.

Definition getSubscriberCount (eventName : string) (s : state) : nat :=
  match handlers s !! eventName with
  | Some l => length l
  | None => 0%nat
  end.

(** Handlers invoked by a publish call, in the order of the calls. *)
Definition invoked (r : state * call_log * error_log) : list handler := r.1.2.*1.

(** The errors thrown during the calls, tagged with the event name. *)
Definition thrown (eventName : string) (calls : call_log) : error_log :=
  omap (λ hc, match hc.2 with
              | Returned => None
              | Threw err => Some (eventName, err)
              end) calls.

End Bus.

Arguments state : clear implicits.

End Events.

(* ===================================================================== *)
(** * js/core/state.js *)
(* ===================================================================== *)

Module StateManager.

(** Identity of an object of the state tree, and of a subscriber function. *)
Definition loc := nat.
Definition callback := nat.

(** JavaScript values as the store sees them; [value] equality is [===]. *)
Inductive value :=
| VUndefined
| VNull
| VBool (b : bool)
| VNum (n : Z)
| VStr (s : string)
| VObj (l : loc).

#[export] Instance value_eq_dec : EqDecision value.
Proof. solve_decision. Defined.

(** [_state] is the object at [root]; [heap] holds the own properties of
    every object; [_subscribers] maps a path to its callbacks. *)
Record store := mkStore {
  heap : gmap loc (gmap string value);
  nextLoc : loc;
  root : loc;
  subscribers : gmap string (list callback)
}.

(** One call [callback(newValue, oldValue, path)]. *)
Record notification := mkNote {
  n_callback : callback;
  n_new : value;
  n_old : value;
  n_path : string
}.

(** Result of [set]: it returns after issuing the notifications, or a
    TypeError escapes (property access on [undefined] or [null]). *)
Inductive outcome :=
| Ok (st : store) (notes : list notification)
| TypeError (st : store).

(** [path.split('.')] *)
Fixpoint split_dot (s : string) : list string :=
  match s with
  | EmptyString => [EmptyString]
  | String c rest =>
      if Ascii.eqb c "."%char then EmptyString :: split_dot rest
      else match split_dot rest with
           | seg :: segs => String c seg :: segs
           | [] => [String c EmptyString]
           end
  end.

(** [parts.join('.')] *)
Definition join_dot (parts : list string) : string := String.concat "." parts.

(** [parts.pop()]: the list without its last element, and that element. *)
Definition pop {A} (l : list A) : option (list A * A) :=
  match reverse l with
  | [] => None
  | x :: r => Some (reverse r, x)
  end.

(** [current[part]] as an rvalue.  [None] is the TypeError on [undefined]
    and [null].  The objects of the state tree are plain objects, read at
    keys that are [Js.own_key]s; a primitive has no own property (its
    inherited members, such as [length], are not modelled). *)
Definition getProp (h : gmap loc (gmap string value)) (current : value) (part : string)
  : option value :=
  match current with
  | VUndefined | VNull => None
  | VObj l => Some (default VUndefined (h !! l ≫= λ o, o !! part))
  | _ => Some VUndefined
  end.

(** [current[part] = x].  The scripts are not in strict mode, so an
    assignment to a property of a primitive is silently dropped. *)
Definition setProp (h : gmap loc (gmap string value)) (current : value) (part : string)
  (x : value) : option (gmap loc (gmap string value)) :=
  match current with
  | VUndefined | VNull => None
  | VObj l => Some (<[l := <[part := x]> (default ∅ (h !! l))]> h)
  | _ => Some h
  end.

Definition nullish (v : value) : bool :=
  match v with
  | VUndefined | VNull => true
  | _ => false
  end.

(** The loop of [get]. *)
Fixpoint get_loop (h : gmap loc (gmap string value)) (parts : list string)
  (current defaultValue : value) : value :=
  match parts with
  | [] => if decide (current = VUndefined) then defaultValue else current
  | part :: rest =>
      if nullish current then defaultValue
      else get_loop h rest (default VUndefined (getProp h current part)) defaultValue
  end.

(** [get(path, defaultValue = null)]: a default that is missing or
    [undefined] is replaced by [null]. *)
Definition get (path : string) (defaultValue : value) (st : store) : value :=
  let defaultValue := if decide (defaultValue = VUndefined) then VNull else defaultValue in
  get_loop (heap st) (split_dot path) (VObj (root st)) defaultValue.

(** The navigation loop of [set]: a missing ([undefined] or [null]) child
    is replaced by a fresh [{}], then [current] descends into the child. *)
Fixpoint navigate (parts : list string) (current : value) (st : store)
  : option (value * store) :=
  match parts with
  | [] => Some (current, st)
  | part :: rest =>
      match getProp (heap st) current part with
      | None => None
      | Some child =>
          let st1 :=
            if nullish child then
              let fresh := nextLoc st in
              let h1 := <[fresh := ∅]> (heap st) in
              {| heap := default h1 (setProp h1 current part (VObj fresh));
                 nextLoc := S fresh;
                 root := root st;
                 subscribers := subscribers st |}
            else st in
          match getProp (heap st1) current part with
          | None => None
          | Some next => navigate rest next st1
          end
      end
  end.

Section Subscribers.

(** Behaviour of the subscriber functions.  A callback may do anything to
    the store: call [set], subscribe, unsubscribe, [reset]. *)
Variable call : callback → value → value → string → store → store * Events.completion.

(** [forEach] over the array as it was when the loop started: the only
    in-place change to it is [push], whose elements [forEach] skips, and
    [unsubscribe] installs a new array.  The [try]/[catch] around the call
    hands what a callback throws to [console.error] and goes on. *)
Fixpoint forEach (cbs : list callback) (newValue oldValue : value) (path : string)
  (st : store) : store * list notification :=
  match cbs with
  | [] => (st, [])
  | cb :: rest =>
      let st1 := (call cb newValue oldValue path st).1 in
      let '(st2, notes) := forEach rest newValue oldValue path st1 in
      (st2, mkNote cb newValue oldValue path :: notes)
  end.

(** The callbacks of one path, each called with the same arguments. *)
Definition notifyAt (path : string) (newValue oldValue : value) (st : store)
  : store * list notification :=
  match subscribers st !! path with
  | None => (st, [])
  | Some cbs => forEach cbs newValue oldValue path st
  end.

(** [while (parts.length > 1) { parts.pop(); ... }]; [n] bounds the number
    of iterations by the initial length of [parts].  The subscriber list
    and the value of a parent path are read when its turn comes, after the
    callbacks of the paths below it have run. *)
Fixpoint notifyParents (n : nat) (parts : list string) (st : store)
  : store * list notification :=
  match n with
  | O => (st, [])
  | S n' =>
      if decide (1 < length parts)%nat then
        let parts' := removelast parts in
        let parentPath := join_dot parts' in
        let '(st1, notes1) :=
          match subscribers st !! parentPath with
          | None => (st, [])
          | Some cbs =>
              let parentValue := get parentPath VUndefined st in
              forEach cbs parentValue parentValue parentPath st
          end in
        let '(st2, notes2) := notifyParents n' parts' st1 in
        (st2, notes1 ++ notes2)
      else (st, [])
  end.

Definition notifySubscribers (path : string) (newValue oldValue : value) (st : store)
  : store * list notification :=
  let '(st1, notes1) := notifyAt path newValue oldValue st in
  let '(st2, notes2) := notifyParents (length (split_dot path)) (split_dot path) st1 in
  (st2, notes1 ++ notes2).

Definition set (path : string) (v : value) (st : store) : outcome :=
  match pop (split_dot path) with
  | None => TypeError st
  | Some (parts, lastPart) =>
      match navigate parts (VObj (root st)) st with
      | None => TypeError st
      | Some (current, st1) =>
          match getProp (heap st1) current lastPart with
          | None => TypeError st1
          | Some oldValue =>
              if decide (oldValue = v) then Ok st1 []
              else
                let st2 := {| heap := default (heap st1) (setProp (heap st1) current lastPart v);
                              nextLoc := nextLoc st1;
                              root := root st1;
                              subscribers := subscribers st1 |} in
                let '(st3, notes) := notifySubscribers path v oldValue st2 in
                Ok st3 notes
          end
      end
  end.

End Subscribers.

(** [subscribe(path, callback)] and the closure it returns. *)
Definition subscribe (path : string) (cb : callback) (st : store) : store :=
  {| heap := heap st; nextLoc := nextLoc st; root := root st;
     subscribers := <[path := default [] (subscribers st !! path) ++ [cb]]> (subscribers st) |}.

Definition unsubscribe (path : string) (cb : callback) (st : store) : option store :=
  match subscribers st !! path with
  | None => None
  | Some cbs =>
      Some {| heap := heap st; nextLoc := nextLoc st; root := root st;
              subscribers := <[path := filter (λ c, c ≠ cb) cbs]> (subscribers st) |}
  end.

(** The store of a fresh page: [_state = {}], no subscriber. *)
Definition empty_store : store :=
  {| heap := {[ 0%nat := ∅ ]}; nextLoc := 1%nat; root := 0%nat; subscribers := ∅ |}.



(** [ToBoolean] on the values of the store. *)
Definition to_boolean (v : value) : bool :=
  match v with
  | VUndefined | VNull => false
  | VBool b => b
  | VNum n => negb (n =? 0)
  | VStr s => negb (String.eqb s "")
  | VObj _ => true
  end.

(** [{ ...initialState }]: a fresh object with the own properties of the
    argument object; [None] is the default argument [{}]. *)
Definition spread (initialState : option loc) (st : store) : loc * store :=
  let props := default ∅ (initialState ≫= λ l, heap st !! l) in
  (nextLoc st,
   {| heap := <[nextLoc st := props]> (heap st); nextLoc := S (nextLoc st);
      root := root st; subscribers := subscribers st |}).

(** [reset(initialState)]: [_state] becomes the copy; [_subscribers] is
    not touched. *)
Definition reset (initialState : option loc) (st : store) : store :=
  let '(o, st1) := spread initialState st in
  {| heap := heap st1; nextLoc := nextLoc st1; root := o; subscribers := subscribers st1 |}.

(** [init(initialState)]: as [reset], then ['loading'] is stored under
    [gameState] when the copy holds nothing truthy there. *)
Definition init (initialState : option loc) (st : store) : store :=
  let st1 := reset initialState st in
  let gameState := default VUndefined (getProp (heap st1) (VObj (root st1)) "gameState") in
  if to_boolean gameState then st1
  else {| heap := default (heap st1)
                    (setProp (heap st1) (VObj (root st1)) "gameState" (VStr "loading"));
          nextLoc := nextLoc st1; root := root st1; subscribers := subscribers st1 |}.

End StateManager.

(* ===================================================================== *)
(** * js/core/grid.js, js/core/entity.js, js/utils/helpers.js and the
      components of js/components *)
(* ===================================================================== *)

Module Game.

(** Identity of an entity object: the grid, the registry and the event
    payloads all hold references to the same mutable objects. *)
Definition eref := nat.

(** [Grid.LAYERS]: the four layers whose cell maps [createZone] sets up. *)
Inductive Layer :=
| GROUND
| OBJECT
| ACTOR
| UI.

#[export] Instance Layer_eq_dec : EqDecision Layer.
Proof. solve_decision. Defined.

Definition layer_code (l : Layer) : Z :=
  match l with
  | GROUND => 0
  | OBJECT => 1
  | ACTOR => 2
  | UI => 3
  end.

(** [interactionData] of an interactable component.  [d_state] is
    [interactionData.state], a boolean when it is present ([None] is
    [undefined]); [d_handler] is the identity of the custom handler
    function. *)
Record InteractionData := mkData {
  d_text : option string;
  d_item : option string;
  d_targetZone : option string;
  d_targetX : option Z;
  d_targetY : option Z;
  d_state : option bool;
  d_handler : option nat
}.

Record TileComp := mkTile {
  t_type : string;
  t_walkable : bool;
  t_propertyTags : list string
}.

Record PlayerComp := mkPlayer {
  p_direction : string;
  p_canMove : bool;
  p_interactionRange : Z;
  p_isMoving : bool;
  p_targetX : Z;
  p_targetY : Z
}.

Record InteractableComp := mkInteractable {
  i_interactionType : string;
  i_validDirections : list string;
  i_interactionData : InteractionData;
  i_isHighlighted : bool
}.

(** [entity.components].  The component registry holds the three
    implementations ['tile'], ['player'] and ['interactable'];
    [addComponent] refuses any other name, so the map has these slots. *)
Record Components := mkComponents {
  c_tile : option TileComp;
  c_player : option PlayerComp;
  c_interactable : option InteractableComp
}.

(** The entity object built by [createEntity]. *)
Record Entity := mkEntity {
  e_id : string;
  e_type : string;
  e_tags : list string;
  e_active : bool;
  e_components : Components;
  e_position : Q * Q;
  e_zIndex : Z;
  e_gridX : Z;
  e_gridY : Z;
  e_layer : Layer;
  e_zoneId : option string
}.

(** A zone object of [_zones]. *)
Record Zone := mkZone {
  z_id : string;
  z_width : Z;
  z_height : Z;
  z_tiles : list (list string);
  z_entities : list eref
}.

(** Events handed to [Events.publish] by the grid, the registry and the
    interactable component. *)
Inductive Event :=
| EvZoneChange (zoneId : string)
| EvEntityMove (e : eref) (from to : Z * Z)
| EvEntitySpawn (e : eref)
| EvEntityDestroy (e : eref)
| EvDialogOpen (e actor : eref) (text : string)
| EvPickup (e actor : eref) (item : option string)
| EvToggle (e actor : eref) (state : bool)
| EvBasic (e actor : eref).

(** Pending [setTimeout] callbacks. *)
Inductive Timer :=
| ClearHighlight (e : eref) (ms : Z).

(** The payload of an interaction request. *)
Record Request := mkRequest {
  r_actor : eref;
  r_target : eref;
  r_direction : string
}.

(** Key of an occupancy bucket: [_cells[zoneId][layer][x][y]]. *)
Definition cell_key := (string * Z * Z * Z)%type.

(** The module-level variables of [Grid], [EntityManager] and [Helpers],
    the entity objects, and what went out to the event bus and the timer
    queue.  Events published by this code are recorded in [published];
    their subscribers are collaborators that leave this state alone.
    A reference handed to an operation denotes an object of [heap]; on any
    other reference the operations return [false] and change nothing. *)
Record World := mkWorld {
  cellSize : Q;
  dims : Z * Z;
  zones : gmap string Zone;
  currentZone : option string;
  cells : gmap cell_key (list eref);
  heap : gmap eref Entity;
  nextRef : eref;
  entities : gmap string eref;
  idCounter : N;
  published : list Event;
  subscriptions : list (string * eref);
  timers : list Timer
}.

Definition with_dims (x : Z * Z) (w : World) : World :=
  mkWorld (cellSize w) x (zones w) (currentZone w) (cells w) (heap w) (nextRef w)
    (entities w) (idCounter w) (published w) (subscriptions w) (timers w).
Definition with_zones (x : gmap string Zone) (w : World) : World :=
  mkWorld (cellSize w) (dims w) x (currentZone w) (cells w) (heap w) (nextRef w)
    (entities w) (idCounter w) (published w) (subscriptions w) (timers w).
Definition with_currentZone (x : option string) (w : World) : World :=
  mkWorld (cellSize w) (dims w) (zones w) x (cells w) (heap w) (nextRef w)
    (entities w) (idCounter w) (published w) (subscriptions w) (timers w).
Definition with_cells (x : gmap cell_key (list eref)) (w : World) : World :=
  mkWorld (cellSize w) (dims w) (zones w) (currentZone w) x (heap w) (nextRef w)
    (entities w) (idCounter w) (published w) (subscriptions w) (timers w).
Definition with_heap (x : gmap eref Entity) (w : World) : World :=
  mkWorld (cellSize w) (dims w) (zones w) (currentZone w) (cells w) x (nextRef w)
    (entities w) (idCounter w) (published w) (subscriptions w) (timers w).
Definition with_nextRef (x : eref) (w : World) : World :=
  mkWorld (cellSize w) (dims w) (zones w) (currentZone w) (cells w) (heap w) x
    (entities w) (idCounter w) (published w) (subscriptions w) (timers w).
Definition with_entities (x : gmap string eref) (w : World) : World :=
  mkWorld (cellSize w) (dims w) (zones w) (currentZone w) (cells w) (heap w) (nextRef w)
    x (idCounter w) (published w) (subscriptions w) (timers w).
Definition with_idCounter (x : N) (w : World) : World :=
  mkWorld (cellSize w) (dims w) (zones w) (currentZone w) (cells w) (heap w) (nextRef w)
    (entities w) x (published w) (subscriptions w) (timers w).
Definition with_published (x : list Event) (w : World) : World :=
  mkWorld (cellSize w) (dims w) (zones w) (currentZone w) (cells w) (heap w) (nextRef w)
    (entities w) (idCounter w) x (subscriptions w) (timers w).
Definition with_subscriptions (x : list (string * eref)) (w : World) : World :=
  mkWorld (cellSize w) (dims w) (zones w) (currentZone w) (cells w) (heap w) (nextRef w)
    (entities w) (idCounter w) (published w) x (timers w).
Definition with_timers (x : list Timer) (w : World) : World :=
  mkWorld (cellSize w) (dims w) (zones w) (currentZone w) (cells w) (heap w) (nextRef w)
    (entities w) (idCounter w) (published w) (subscriptions w) x.

(** [Events.publish] as seen from this code. *)
Definition publish (ev : Event) (w : World) : World :=
  with_published (published w ++ [ev]) w.

(** Field updates of an entity object. *)
Definition ent_with_tags (x : list string) (e : Entity) : Entity :=
  mkEntity (e_id e) (e_type e) x (e_active e) (e_components e) (e_position e)
    (e_zIndex e) (e_gridX e) (e_gridY e) (e_layer e) (e_zoneId e).
Definition ent_with_components (x : Components) (e : Entity) : Entity :=
  mkEntity (e_id e) (e_type e) (e_tags e) (e_active e) x (e_position e)
    (e_zIndex e) (e_gridX e) (e_gridY e) (e_layer e) (e_zoneId e).
Definition ent_with_position (x : Q * Q) (e : Entity) : Entity :=
  mkEntity (e_id e) (e_type e) (e_tags e) (e_active e) (e_components e) x
    (e_zIndex e) (e_gridX e) (e_gridY e) (e_layer e) (e_zoneId e).
Definition ent_with_grid (x y : Z) (e : Entity) : Entity :=
  mkEntity (e_id e) (e_type e) (e_tags e) (e_active e) (e_components e) (e_position e)
    (e_zIndex e) x y (e_layer e) (e_zoneId e).
Definition ent_with_layer (x : Layer) (e : Entity) : Entity :=
  mkEntity (e_id e) (e_type e) (e_tags e) (e_active e) (e_components e) (e_position e)
    (e_zIndex e) (e_gridX e) (e_gridY e) x (e_zoneId e).
Definition ent_with_zoneId (x : option string) (e : Entity) : Entity :=
  mkEntity (e_id e) (e_type e) (e_tags e) (e_active e) (e_components e) (e_position e)
    (e_zIndex e) (e_gridX e) (e_gridY e) (e_layer e) x.

(** Truthiness of a string-or-null value: [null] and [''] are falsy. *)
Definition truthy (s : option string) : bool :=
  match s with
  | Some s => negb (String.eqb s "")
  | None => false
  end.

(** A zone id used as a property key: [null] becomes the key ["null"]. *)
Definition zone_key (zoneId : option string) : string :=
  match zoneId with
  | Some s => s
  | None => "null"
  end.

(** [indexOf] followed by [splice(index, 1)]: drop the first occurrence. *)
Fixpoint remove_first `{EqDecision A} (e : A) (l : list A) : list A :=
  match l with
  | [] => []
  | x :: rest => if decide (x = e) then rest else x :: remove_first e rest
  end.

(** [array.includes(x)] *)
Definition includes `{EqDecision A} (x : A) (l : list A) : bool := bool_decide (x ∈ l).

(* --------------------------------------------------------------------- *)
(** ** Grid *)
(* --------------------------------------------------------------------- *)

(** [gridToWorld]: the centre of the cell,
    [gridX * _cellSize + _cellSize / 2] in double arithmetic. *)
Definition gridToWorld (gridX gridY : Z) (w : World) : Q * Q :=
  (Double.add (Double.mul (inject_Z gridX) (cellSize w)) (Double.div (cellSize w) 2),
   Double.add (Double.mul (inject_Z gridY) (cellSize w)) (Double.div (cellSize w) 2)).

(** [worldToGrid]: [Math.floor] of the rounded quotient. *)
Definition worldToGrid (worldX worldY : Q) (w : World) : Z * Z :=
  (Double.floor (Double.div worldX (cellSize w)),
   Double.floor (Double.div worldY (cellSize w))).

Definition isValidPosition (x y : Z) (zoneId : option string) (w : World) : bool :=
  match zones w !! zone_key zoneId with
  | None => false
  | Some z => (0 <=? x) && (0 <=? y) && (x <? z_width z) && (y <? z_height z)
  end.

(** The bucket of a cell; a bucket that was never created reads as empty. *)
Definition bucket (k : cell_key) (w : World) : list eref := default [] (cells w !! k).

Definition key_of (zoneId : option string) (layer : Layer) (x y : Z) : cell_key :=
  (zone_key zoneId, layer_code layer, x, y).

(** The bucket an entity's own fields point at. *)
Definition entity_key (ent : Entity) : cell_key :=
  key_of (e_zoneId ent) (e_layer ent) (e_gridX ent) (e_gridY ent).

(** Remove [e] from a bucket, when the bucket exists. *)
Definition remove_from_cell (k : cell_key) (e : eref) (w : World) : World :=
  match cells w !! k with
  | None => w
  | Some l => with_cells (<[k := remove_first e l]> (cells w)) w
  end.

(** Create the bucket when missing, then [push]. *)
Definition push_to_cell (k : cell_key) (e : eref) (w : World) : World :=
  with_cells (<[k := bucket k w ++ [e]]> (cells w)) w.

(** The tile matrix after [registerEntity] mirrored the tile type [t] at
    [(x, y)]: rows are appended up to [y], the row is padded with
    ['empty'] up to [x]. *)
Definition mirrorTile (x y : Z) (t : string) (tiles : list (list string))
  : list (list string) :=
  let yi := Z.to_nat y in
  let xi := Z.to_nat x in
  let rows := tiles ++ replicate (S yi - length tiles) [] in
  let row := default [] (rows !! yi) in
  <[yi := <[xi := t]> (row ++ replicate (S xi - length row) "empty")]> rows.

Definition zone_with_tiles (x : list (list string)) (z : Zone) : Zone :=
  mkZone (z_id z) (z_width z) (z_height z) x (z_entities z).
Definition zone_with_entities (x : list eref) (z : Zone) : Zone :=
  mkZone (z_id z) (z_width z) (z_height z) (z_tiles z) x.

(** The truthy [type] of the component stored under ['tile'], if any. *)
Definition tileTypeOf (ent : Entity) : option string :=
  match c_tile (e_components ent) with
  | Some c => if String.eqb (t_type c) "" then None else Some (t_type c)
  | None => None
  end.

Definition createZone (zoneId : string) (width height : Z)
  (tiles : option (list (list string))) (w : World) : World :=
  let given := default [] tiles in
  let tiles1 := if decide (length given = 0%nat)
                then replicate (Z.to_nat height) (replicate (Z.to_nat width) "empty")
                else given in
  let w1 := with_zones (<[zoneId := mkZone zoneId width height tiles1 []]> (zones w)) w in
  let w2 := with_cells (filter (λ kv, kv.1.1.1.1 ≠ zoneId) (cells w1)) w1 in
  if truthy (currentZone w2) then w2
  else with_dims (width, height) (with_currentZone (Some zoneId) w2).

Definition setCurrentZone (zoneId : string) (w : World) : World * bool :=
  match zones w !! zoneId with
  | None => (w, false)
  | Some z =>
      let w1 := with_dims (z_width z, z_height z) (with_currentZone (Some zoneId) w) in
      (publish (EvZoneChange zoneId) w1, true)
  end.

Definition registerEntity (e : eref) (x y : Z) (layer : Layer) (zoneId : option string)
  (w : World) : World * bool :=
  match zones w !! zone_key zoneId, heap w !! e with
  | Some _, Some ent =>
      if negb (isValidPosition x y zoneId w) then (w, false)
      else
        let w1 := push_to_cell (key_of zoneId layer x y) e w in
        let ent1 := ent_with_position (gridToWorld x y w1)
                      (ent_with_zoneId zoneId (ent_with_layer layer (ent_with_grid x y ent))) in
        let w2 := with_heap (<[e := ent1]> (heap w1)) w1 in
        let w3 := match zones w2 !! zone_key zoneId with
                  | Some z =>
                      if includes e (z_entities z) then w2
                      else with_zones (<[zone_key zoneId :=
                                           zone_with_entities (z_entities z ++ [e]) z]> (zones w2)) w2
                  | None => w2
                  end in
        let w4 := match layer, tileTypeOf ent1, zones w3 !! zone_key zoneId with
                  | GROUND, Some t, Some z =>
                      with_zones (<[zone_key zoneId :=
                                     zone_with_tiles (mirrorTile x y t (z_tiles z)) z]> (zones w3)) w3
                  | _, _, _ => w3
                  end in
        (w4, true)
  | _, _ => (w, false)
  end.

Definition unregisterEntity (e : eref) (w : World) : World * bool :=
  match heap w !! e with
  | None => (w, false)
  | Some ent =>
      match zones w !! zone_key (e_zoneId ent) with
      | Some _ =>
          if negb (truthy (e_zoneId ent)) then (w, false)
          else
            let w1 := remove_from_cell (entity_key ent) e w in
            let w2 := match zones w1 !! zone_key (e_zoneId ent) with
                      | Some z =>
                          with_zones (<[zone_key (e_zoneId ent) :=
                                         zone_with_entities (remove_first e (z_entities z)) z]>
                                        (zones w1)) w1
                      | None => w1
                      end in
            (w2, true)
      | None => (w, false)
      end
  end.

Definition moveEntity (e : eref) (newX newY : Z) (w : World) : World * bool :=
  match heap w !! e with
  | None => (w, false)
  | Some ent =>
      if negb (isValidPosition newX newY (e_zoneId ent) w) then (w, false)
      else
        let w1 := remove_from_cell (entity_key ent) e w in
        let w2 := push_to_cell (key_of (e_zoneId ent) (e_layer ent) newX newY) e w1 in
        let ent1 := ent_with_position (gridToWorld newX newY w2) (ent_with_grid newX newY ent) in
        let w3 := with_heap (<[e := ent1]> (heap w2)) w2 in
        (publish (EvEntityMove e (e_gridX ent, e_gridY ent) (newX, newY)) w3, true)
  end.

(** [getEntitiesAt] with a layer, and over all layers in the order of
    [LAYERS]. *)
Definition getEntitiesAt (x y : Z) (layer : option Layer) (zoneId : option string)
  (w : World) : list eref :=
  match zones w !! zone_key zoneId with
  | None => []
  | Some _ =>
      match layer with
      | Some l => bucket (key_of zoneId l x y) w
      | None =>
          bucket (key_of zoneId GROUND x y) w ++ bucket (key_of zoneId OBJECT x y) w
          ++ bucket (key_of zoneId ACTOR x y) w ++ bucket (key_of zoneId UI x y) w
      end
  end.

(** [getTileAt]; [None] is [null]. *)
Definition getTileAt (x y : Z) (zoneId : option string) (w : World) : option string :=
  match zones w !! zone_key zoneId with
  | None => None
  | Some z =>
      if (x <? 0) || (y <? 0) || (z_width z <=? x) || (z_height z <=? y) then None
      else
        match z_tiles z !! Z.to_nat y with
        | None => None
        | Some row =>
            match row !! Z.to_nat x with
            | Some t => if String.eqb t "" then None else Some t
            | None => None
            end
        end
  end.

(** [entity.tags.includes(tag)] through a reference. *)
Definition hasTagRef (tag : string) (w : World) (e : eref) : bool :=
  match heap w !! e with
  | Some ent => includes tag (e_tags ent)
  | None => false
  end.

(** [isWalkable]; [requiredTags] is accepted and never read.  An entity
    object always carries a [tags] array, so [tileEntity && tileEntity.tags]
    is the test that a ground entity exists. *)
Definition isWalkable (x y : Z) (requiredTags excludedTags : list string)
  (zoneId : option string) (w : World) : bool :=
  if negb (isValidPosition x y zoneId w) then false
  else
    match getTileAt x y zoneId w with
    | None => false
    | Some tileId =>
        let tileEntity := head (getEntitiesAt x y (Some GROUND) zoneId w) ≫= λ r, heap w !! r in
        let walkable := true in
        let walkable :=
          match tileEntity with
          | Some te =>
              let walkable :=
                if includes "water" (e_tags te) || String.eqb tileId "water"
                   || String.eqb tileId "teleporter"
                then false else walkable in
              if includes "walkable" (e_tags te) then true else walkable
          | None => walkable
          end in
        let walkable :=
          match tileEntity with
          | Some te =>
              if decide (0 < length excludedTags)%nat then
                if existsb (λ tag, includes tag (e_tags te)) excludedTags then false
                else walkable
              else walkable
          | None => walkable
          end in
        let objectEntities := getEntitiesAt x y (Some OBJECT) zoneId w in
        if existsb (hasTagRef "solid" w) objectEntities then false else walkable
    end.

(* --------------------------------------------------------------------- *)
(** ** Helpers and EntityManager *)
(* --------------------------------------------------------------------- *)

(** [Helpers.generateId]: increment [_idCounter], append it in decimal.
    The counter is an integer; [_idCounter++] is exact while it is below
    2^53. *)
Definition generateId (prefix : string) (w : World) : string * World :=
  let n := (idCounter w + 1)%N in
  (prefix +:+ pretty n, with_idCounter n w).

(** A component configuration object: every property may be absent. *)
Record CompConfig := mkCompConfig {
  cfg_type : option string;
  cfg_walkable : option bool;
  cfg_propertyTags : option (list string);
  cfg_direction : option string;
  cfg_interactionRange : option Z;
  cfg_interactionType : option string;
  cfg_validDirections : option (list string);
  cfg_interactionData : option InteractionData
}.

(** The [config] argument of [createEntity]. *)
Record Config := mkConfig {
  c_id : option string;
  c_tags : option (list string);
  c_position : option (Q * Q);
  c_zIndex : option Z;
  c_gridX : option Z;
  c_gridY : option Z;
  c_layer : option Layer;
  c_zoneId : option string;
  c_components : list (string * CompConfig)
}.

(** [s || d] on a string-or-undefined value. *)
Definition str_or (s : option string) (d : string) : string :=
  if truthy s then default d s else d.

(** [n || d] on a number-or-undefined value: [0] is falsy. *)
Definition num_or (n : option Z) (d : Z) : Z :=
  match n with
  | Some v => if v =? 0 then d else v
  | None => d
  end.

Definition update_entity (e : eref) (f : Entity → Entity) (w : World) : World :=
  match heap w !! e with
  | Some ent => with_heap (<[e := f ent]> (heap w)) w
  | None => w
  end.

Definition addTag (tag : string) (e : eref) (w : World) : World * bool :=
  match heap w !! e with
  | Some ent =>
      if includes tag (e_tags ent) then (w, false)
      else (update_entity e (ent_with_tags (e_tags ent ++ [tag])) w, true)
  | None => (w, false)
  end.

Definition removeTag (tag : string) (e : eref) (w : World) : World * bool :=
  match heap w !! e with
  | Some ent =>
      if includes tag (e_tags ent)
      then (update_entity e (ent_with_tags (remove_first tag (e_tags ent))) w, true)
      else (w, false)
  | None => (w, false)
  end.

Definition hasTag (tag : string) (e : eref) (w : World) : bool := hasTagRef tag w e.

Definition subscribe (eventName : string) (e : eref) (w : World) : World :=
  with_subscriptions (subscriptions w ++ [(eventName, e)]) w.

(** [TileComponent.init] *)
Definition tile_init (e : eref) (cfg : CompConfig) (w : World) : World * TileComp :=
  let type := str_or (cfg_type cfg) "unknown" in
  let walkable := default true (cfg_walkable cfg) in
  let propertyTags := default [] (cfg_propertyTags cfg) in
  let w1 := if walkable then (addTag "walkable" e w).1 else w in
  let w2 := foldl (λ acc tag, (addTag tag e acc).1) w1 propertyTags in
  (w2, mkTile type walkable propertyTags).

(** [PlayerComponent.init].  The component is created from the object
    that the module exports, which holds [init], [cleanup], [update],
    [render], [move] and [interact]; [_handleInput] is a function of the
    module's closure and no property of that object.  After the fields
    were set on the component and the tag was added, the argument
    [this._handleInput.bind(this, entity)] of [Events.subscribe] is a
    property access on [undefined]: [init] ends by a TypeError, and
    nothing was subscribed.  The result is the state at the throw. *)
Definition player_init (e : eref) (cfg : CompConfig) (w : World) : World :=
  (addTag "player" e w).1.

(** [{}] *)
Definition empty_data : InteractionData := mkData None None None None None None None.

(** [InteractableComponent.init]; the subscription is the closure
    [handleInteraction] of this entity. *)
Definition interactable_init (e : eref) (cfg : CompConfig) (w : World)
  : World * InteractableComp :=
  let comp := mkInteractable (str_or (cfg_interactionType cfg) "basic")
                (default ["up"; "right"; "down"; "left"] (cfg_validDirections cfg))
                (default empty_data (cfg_interactionData cfg)) false in
  let w1 := (addTag "interactable" e w).1 in
  (subscribe "entity:interact" e w1, comp).

Definition comps_with_tile (x : option TileComp) (c : Components) : Components :=
  mkComponents x (c_player c) (c_interactable c).
Definition comps_with_player (x : option PlayerComp) (c : Components) : Components :=
  mkComponents (c_tile c) x (c_interactable c).
Definition comps_with_interactable (x : option InteractableComp) (c : Components) : Components :=
  mkComponents (c_tile c) (c_player c) x.

Definition update_components (e : eref) (f : Components → Components) (w : World) : World :=
  update_entity e (λ ent, ent_with_components (f (e_components ent)) ent) w.

(** How a call of [addComponent] ends: it returns the component, it
    returns [null] (the type is not registered), or the TypeError of the
    component's [init] escapes. *)
Inductive added :=
| Component
| Null
| InitThrew.

#[export] Instance added_eq_dec : EqDecision added.
Proof. solve_decision. Defined.

(** [addComponent.call(entity, type, config)], with the state in which the
    call ends.  The slot is written after [init] returned. *)
Definition addComponent_run (e : eref) (type : string) (cfg : CompConfig) (w : World)
  : World * added :=
  if String.eqb type "tile" then
    let '(w1, c) := tile_init e cfg w in
    (update_components e (comps_with_tile (Some c)) w1, Component)
  else if String.eqb type "player" then (player_init e cfg w, InitThrew)
  else if String.eqb type "interactable" then
    let '(w1, c) := interactable_init e cfg w in
    (update_components e (comps_with_interactable (Some c)) w1, Component)
  else (w, Null).

(** [addComponent] as a caller sees it that looks at the result: the
    state the call leaves, and whether a component came back. *)
Definition addComponent (e : eref) (type : string) (cfg : CompConfig) (w : World)
  : World * bool :=
  let '(w1, r) := addComponent_run e type cfg w in
  (w1, bool_decide (r = Component)).

(** The loop of [createEntity] over [config.components]: the TypeError of
    an [init] ends it. *)
Fixpoint addComponents (e : eref) (comps : list (string * CompConfig)) (w : World)
  : World * Events.completion :=
  match comps with
  | [] => (w, Events.Returned)
  | tc :: rest =>
      let '(w1, r) := addComponent_run e tc.1 tc.2 w in
      match r with
      | InitThrew => (w1, Events.Threw "TypeError")
      | _ => addComponents e rest w1
      end
  end.

(** [createEntity(type, config)], with the state in which the call ends,
    the object it built and the id it gave it.  The entity is filed under
    its id before the components are added; the spawn event is published
    when the loop over the components came to its end. *)
Definition createEntity_run (type : string) (config : Config) (w : World)
  : World * eref * string * Events.completion :=
  let '(id, w1) := if truthy (c_id config) then (default "" (c_id config), w)
                   else generateId "entity-" w in
  let entity :=
    mkEntity id type (default [] (c_tags config)) true (mkComponents None None None)
      (default (0%Q, 0%Q) (c_position config))
      (num_or (c_zIndex config) 0) (num_or (c_gridX config) 0) (num_or (c_gridY config) 0)
      (match c_layer config with
       | Some GROUND | None => ACTOR
       | Some l => l
       end)
      (if truthy (c_zoneId config) then c_zoneId config else currentZone w1) in
  let r := nextRef w1 in
  let w2 := with_nextRef (S r) (with_heap (<[r := entity]> (heap w1)) w1) in
  let w3 := with_entities (<[id := r]> (entities w2)) w2 in
  let '(w4, c) := addComponents r (c_components config) w3 in
  match c with
  | Events.Returned => (publish (EvEntitySpawn r) w4, r, id, c)
  | Events.Threw _ => (w4, r, id, c)
  end.

(** The state [createEntity] leaves, the new object and its id. *)
Definition createEntity (type : string) (config : Config) (w : World)
  : World * eref * string :=
  (createEntity_run type config w).1.

(** [destroyEntity(entity)] called with an entity object. *)
Definition destroyEntity (e : eref) (w : World) : World * bool :=
  match heap w !! e with
  | None => (w, false)
  | Some given =>
      match entities w !! e_id given with
      | None => (w, false)
      | Some r =>
          let w1 := if truthy (heap w !! r ≫= e_zoneId) then (unregisterEntity r w).1 else w in
          let w2 := publish (EvEntityDestroy r) w1 in
          (with_entities (delete (e_id given) (entities w2)) w2, true)
      end
  end.

(** A run of [createEntity] calls, with the ids given to the new entities
    in call order.  A call that ends by the TypeError of a component has
    given its entity an id and filed it by then; the run goes on after
    it, as the calls of a caller do that catches the error. *)
Fixpoint createAll (calls : list (string * Config)) (w : World) : World * list string :=
  match calls with
  | [] => (w, [])
  | (type, config) :: rest =>
      let '(w1, _, id) := createEntity type config w in
      let '(w2, ids) := createAll rest w1 in
      (w2, id :: ids)
  end.

(* --------------------------------------------------------------------- *)
(** ** InteractableComponent *)
(* --------------------------------------------------------------------- *)

Section Interactable.

(** Behaviour of the custom handler functions carried in
    [interactionData.handler], by identity. *)
Variable custom : nat → eref → Request → World → World * Events.completion.

Definition _handleDialogInteraction (comp : InteractableComp) (self : eref) (data : Request)
  (w : World) : World :=
  let type := from_option e_type "" (heap w !! self) in
  let dialogText := str_or (d_text (i_interactionData comp)) ("Interacted with " +:+ type) in
  publish (EvDialogOpen self (r_actor data) dialogText) w.

Definition _handlePickupInteraction (comp : InteractableComp) (self : eref) (data : Request)
  (w : World) : World :=
  let w1 := publish (EvPickup self (r_actor data) (d_item (i_interactionData comp))) w in
  let w2 := (unregisterEntity self w1).1 in
  (destroyEntity self w2).1.

Definition reset_player (x y : Z) (c : Components) : Components :=
  match c_player c with
  | Some p =>
      comps_with_player
        (Some (mkPlayer (p_direction p) (p_canMove p) (p_interactionRange p) false x y)) c
  | None => c
  end.

Definition _handleTeleportInteraction (comp : InteractableComp) (self : eref) (data : Request)
  (w : World) : World :=
  let d := i_interactionData comp in
  match d_targetZone d, d_targetX d, d_targetY d with
  | Some targetZone, Some targetX, Some targetY =>
      if negb (truthy (Some targetZone)) then w
      else
        let actor := r_actor data in
        let w1 :=
          if decide (Some targetZone ≠ (heap w !! actor ≫= e_zoneId)) then
            let wa := (unregisterEntity actor w).1 in
            let wb := (setCurrentZone targetZone wa).1 in
            let wc := update_entity actor (ent_with_zoneId (Some targetZone)) wb in
            let layer := from_option e_layer ACTOR (heap wc !! actor) in
            (registerEntity actor targetX targetY layer (Some targetZone) wc).1
          else (moveEntity actor targetX targetY w).1 in
        let w2 := update_entity actor (ent_with_position (gridToWorld targetX targetY w1)) w1 in
        update_components actor (reset_player targetX targetY) w2
  | _, _, _ => w
  end.

Definition set_interactable (self : eref) (comp : InteractableComp) (w : World) : World :=
  update_components self (comps_with_interactable (Some comp)) w.

(** [!interactionData.state]: [undefined] is falsy. *)
Definition toggled_state (d : InteractionData) : bool := negb (default false (d_state d)).

Definition _handleToggleInteraction (comp : InteractableComp) (self : eref) (data : Request)
  (w : World) : World :=
  let d := i_interactionData comp in
  let d' := mkData (d_text d) (d_item d) (d_targetZone d) (d_targetX d) (d_targetY d)
              (Some (toggled_state d)) (d_handler d) in
  let comp' := mkInteractable (i_interactionType comp) (i_validDirections comp) d'
                 (i_isHighlighted comp) in
  publish (EvToggle self (r_actor data) (toggled_state d)) (set_interactable self comp' w).

(** The [switch] of [handleInteraction]. *)
Definition dispatch (comp : InteractableComp) (self : eref) (data : Request) (w : World)
  : World * Events.completion :=
  let type := i_interactionType comp in
  if String.eqb type "dialog" then
    (_handleDialogInteraction comp self data w, Events.Returned)
  else if String.eqb type "pickup" then
    (_handlePickupInteraction comp self data w, Events.Returned)
  else if String.eqb type "teleport" then
    (_handleTeleportInteraction comp self data w, Events.Returned)
  else if String.eqb type "toggle" then
    (_handleToggleInteraction comp self data w, Events.Returned)
  else if String.eqb type "custom" then
    match d_handler (i_interactionData comp) with
    | Some h => custom h self data w
    | None => (w, Events.Returned)
    end
  else (publish (EvBasic self (r_actor data)) w, Events.Returned).

(** [this.isHighlighted = true] and the [setTimeout] that clears it. *)
Definition flash (self : eref) (w : World) : World :=
  let w1 := update_components self
              (λ c, match c_interactable c with
                    | Some i =>
                        comps_with_interactable
                          (Some (mkInteractable (i_interactionType i) (i_validDirections i)
                                   (i_interactionData i) true)) c
                    | None => c
                    end) w in
  with_timers (timers w1 ++ [ClearHighlight self 300]) w1.

(** The closure [handleInteraction] subscribed by the interactable
    component of entity [self]: the handler of an interaction request.
    [this] is the component held in the entity's ['interactable'] slot. *)
Definition handleInteraction (self : eref) (data : Request) (w : World)
  : World * Events.completion :=
  match heap w !! self, heap w !! r_target data with
  | Some entity, Some target =>
      if negb (String.eqb (e_id target) (e_id entity)) then (w, Events.Returned)
      else
        match c_interactable (e_components entity) with
        | None => (w, Events.Returned)
        | Some this =>
            if negb (includes (r_direction data) (i_validDirections this))
            then (w, Events.Returned)
            else
              match dispatch this self data w with
              | (w1, Events.Returned) => (flash self w1, Events.Returned)
              | (w1, Events.Threw err) => (w1, Events.Threw err)
              end
        end
  | _, _ => (w, Events.Returned)
  end.

End Interactable.

(* --------------------------------------------------------------------- *)
(** ** Grid: accessors and the tile matrix *)
(* --------------------------------------------------------------------- *)

Definition getCurrentZoneId (w : World) : option string := currentZone w.

(** [Grid.findEntitiesByTag]: the zone's entity list, filtered. *)
Definition findEntitiesByTag (tag : string) (zoneId : option string) (w : World)
  : list eref :=
  match zones w !! zone_key zoneId with
  | None => []
  | Some z => filter (λ e, hasTagRef tag w e = true) (z_entities z)
  end.

Definition getDimensions (w : World) : Z * Z := dims w.

(** [_width * _cellSize] and [_height * _cellSize], in double
    arithmetic. *)
Definition getWorldDimensions (w : World) : Q * Q :=
  (Double.mul (inject_Z (dims w).1) (cellSize w),
   Double.mul (inject_Z (dims w).2) (cellSize w)).

(** The payload of a ['grid:changed'] event. *)
Record GridChanged := mkGridChanged {
  g_x : Z;
  g_y : Z;
  g_tileId : string;
  g_zoneId : option string
}.

(** [array[i] = v]: beyond its end a JavaScript array is extended, and
    the positions skipped are holes.  [hole] is written at them. *)
Definition assign {A} (hole : A) (i : nat) (v : A) (l : list A) : list A :=
  <[i := v]> (l ++ replicate (S i - length l) hole).

(** [setTileAt]; the third component holds the events handed to
    [Events.publish] under ['grid:changed'].  A hole of the matrix reads
    [undefined]: a skipped tile id is written as the empty string and a
    skipped row as the empty row, which [getTileAt] reads the same way
    (as [null]). *)
Definition setTileAt (x y : Z) (tileId : string) (zoneId : option string) (w : World)
  : World * bool * list GridChanged :=
  match zones w !! zone_key zoneId with
  | None => (w, false, [])
  | Some z =>
      if (x <? 0) || (y <? 0) || (z_width z <=? x) || (z_height z <=? y)
      then (w, false, [])
      else
        let yi := Z.to_nat y in
        let xi := Z.to_nat x in
        let row := default [] (z_tiles z !! yi) in
        let tiles1 := assign [] yi (assign "" xi tileId row) (z_tiles z) in
        (with_zones (<[zone_key zoneId := zone_with_tiles tiles1 z]> (zones w)) w,
         true, [mkGridChanged x y tileId zoneId])
  end.

(* --------------------------------------------------------------------- *)
(** ** EntityManager: lookup, component removal, templates *)
(* --------------------------------------------------------------------- *)

(** [getEntity]; [None] is [null]. *)
Definition getEntity (id : string) (w : World) : option eref := entities w !! id.

(** [!!this.components[type]] *)
Definition hasComponent (e : eref) (type : string) (w : World) : bool :=
  match heap w !! e with
  | None => false
  | Some ent =>
      if String.eqb type "tile" then bool_decide (is_Some (c_tile (e_components ent)))
      else if String.eqb type "player"
           then bool_decide (is_Some (c_player (e_components ent)))
      else if String.eqb type "interactable"
           then bool_decide (is_Some (c_interactable (e_components ent)))
      else false
  end.

(** Drop the last occurrence. *)
Definition remove_last `{EqDecision A} (x : A) (l : list A) : list A :=
  reverse (remove_first x (reverse l)).

(** The closure returned by [Events.subscribe] for the handler that the
    component in a slot bound in its [init]: the bus filters that function
    out.  The component in a slot is the one added last under its type,
    so its handler is the last one subscribed under the event name for
    the entity. *)
Definition unsubscribe (eventName : string) (e : eref) (w : World) : World :=
  with_subscriptions (remove_last (eventName, e) (subscriptions w)) w.

(** [PlayerComponent.cleanup] and [InteractableComponent.cleanup]; the
    tile component has none.  [_moveUpHandler] is assigned by the
    statement of [init] that throws, so it is never set and the player's
    cleanup calls nothing. *)
Definition player_cleanup (e : eref) (w : World) : World := w.

Definition interactable_cleanup (e : eref) (w : World) : World :=
  (removeTag "interactable" e (unsubscribe "entity:interact" e w)).1.

(** [removeComponent.call(entity, type)] *)
Definition removeComponent (e : eref) (type : string) (w : World) : World * bool :=
  match heap w !! e with
  | None => (w, false)
  | Some ent =>
      if String.eqb type "tile" then
        match c_tile (e_components ent) with
        | None => (w, false)
        | Some _ => (update_components e (comps_with_tile None) w, true)
        end
      else if String.eqb type "player" then
        match c_player (e_components ent) with
        | None => (w, false)
        | Some _ =>
            (update_components e (comps_with_player None) (player_cleanup e w), true)
        end
      else if String.eqb type "interactable" then
        match c_interactable (e_components ent) with
        | None => (w, false)
        | Some _ =>
            (update_components e (comps_with_interactable None)
               (interactable_cleanup e w), true)
        end
      else (w, false)
  end.

(** An entity template: a configuration object that carries a [type].
    [overrides] may replace the type as any other property; a property of
    [overrides] is absent ([None]) or holds a value. *)
Record Template := mkTemplate {
  tpl_type : string;
  tpl_config : Config
}.

Record Overrides := mkOverrides {
  o_type : option string;
  o_config : Config
}.

(** [{ ...a, ...b }] on component configurations. *)
Definition spread_comp (a b : CompConfig) : CompConfig :=
  let pick {A} (f : CompConfig → option A) : option A :=
    match f b with
    | Some v => Some v
    | None => f a
    end in
  mkCompConfig (pick cfg_type) (pick cfg_walkable) (pick cfg_propertyTags)
    (pick cfg_direction) (pick cfg_interactionRange) (pick cfg_interactionType)
    (pick cfg_validDirections) (pick cfg_interactionData).

(** [components[compType] = c]: an existing key keeps its place, a new
    key goes to the end. *)
Definition set_component (compType : string) (c : CompConfig)
  (l : list (string * CompConfig)) : list (string * CompConfig) :=
  if bool_decide (compType ∈ l.*1)
  then (λ kv, if decide (kv.1 = compType) then (compType, c) else kv) <$> l
  else l ++ [(compType, c)].

(** The loop over [overrides.components]. *)
Definition merge_components (base over : list (string * CompConfig))
  : list (string * CompConfig) :=
  foldl (λ acc kv,
           match (list_find (λ kv', kv'.1 = kv.1) acc) with
           | None => set_component kv.1 kv.2 acc
           | Some (_, (_, c)) => set_component kv.1 (spread_comp c kv.2) acc
           end) base over.

(** The loop over the keys of [overrides]: components are merged, tags
    are appended, every other property replaces the template's. *)
Definition merge_config (base over : Config) : Config :=
  let pick {A} (f : Config → option A) : option A :=
    match f over with
    | Some v => Some v
    | None => f base
    end in
  mkConfig (pick c_id)
    (match c_tags over with
     | Some tags => Some (default [] (c_tags base) ++ tags)
     | None => c_tags base
     end)
    (pick c_position) (pick c_zIndex) (pick c_gridX) (pick c_gridY) (pick c_layer)
    (pick c_zoneId)
    (merge_components (c_components base) (c_components over)).

(** [createEntityFromTemplate]; [templates] is [_templates], [None] is the
    [null] returned for an unknown template id. *)
Definition createEntityFromTemplate (templates : gmap string Template)
  (templateId : string) (overrides : Overrides) (w : World)
  : option (World * eref * string * Events.completion) :=
  match templates !! templateId with
  | None => None
  | Some t =>
      Some (createEntity_run (default (tpl_type t) (o_type overrides))
              (merge_config (tpl_config t) (o_config overrides)) w)
  end.

(* --------------------------------------------------------------------- *)
(** ** PlayerComponent *)
(* --------------------------------------------------------------------- *)

Section Player.

Variable custom : nat → eref → Request → World → World * Events.completion.

(** [move.call(this, entity, dx, dy)], a member of the object the module
    exports: the state and the component [this] after the call.
    Walkability is asked for the current zone; the result of
    [Grid.moveEntity] is not looked at. *)
Definition move (this : PlayerComp) (self : eref) (dx dy : Z) (w : World)
  : World * PlayerComp :=
  match heap w !! self with
  | None => (w, this)
  | Some entity =>
      let newX := e_gridX entity + dx in
      let newY := e_gridY entity + dy in
      if negb (isWalkable newX newY [] ["solid"] (currentZone w) w) then (w, this)
      else
        ((moveEntity self newX newY w).1,
         mkPlayer (p_direction this) (p_canMove this) (p_interactionRange this)
           true newX newY)
  end.

(** The request that [interact] publishes, if it publishes one. *)
Definition interaction_request (this : PlayerComp) (self : eref) (w : World)
  : option Request :=
  match heap w !! self with
  | None => None
  | Some entity =>
      let range := p_interactionRange this in
      let direction := p_direction this in
      let interactX :=
        if String.eqb direction "right" then e_gridX entity + range
        else if String.eqb direction "left" then e_gridX entity - range
        else e_gridX entity in
      let interactY :=
        if String.eqb direction "up" then e_gridY entity - range
        else if String.eqb direction "down" then e_gridY entity + range
        else e_gridY entity in
      let entities := getEntitiesAt interactX interactY None (currentZone w) w in
      let interactables :=
        filter (λ e, hasTag "interactable" e w = true
                     ∧ (e_id <$> heap w !! e) ≠ Some (e_id entity)) entities in
      match interactables with
      | target :: _ => Some (mkRequest self target direction)
      | [] => None
      end
  end.

(** [Events.publish('entity:interact', data)]: the handlers subscribed
    under that name are the [handleInteraction] closures of the
    interactable components, called in subscription order; what one of
    them throws is caught and logged. *)
Definition publishInteract (data : Request) (w : World) : World :=
  foldl (λ acc h, (handleInteraction custom h data acc).1) w
    (omap (λ s, if String.eqb s.1 "entity:interact" then Some s.2 else None)
       (subscriptions w)).

(** [interact.call(this, entity)], a member of the exported object. *)
Definition interact (this : PlayerComp) (self : eref) (w : World) : World :=
  match interaction_request this self w with
  | Some data => publishInteract data w
  | None => w
  end.

End Player.

End Game.

(* ===================================================================== *)
(** * js/utils/math.js *)
(* ===================================================================== *)

Module MathUtils.

(** [Math.max(min, Math.min(max, value))] *)
Definition clamp (value min max : Q) : Q := Qmax min (Qmin max value).

End MathUtils.

(* ===================================================================== *)
(** * Reference formulations and example states used by the statements *)
(* ===================================================================== *)

(** A bus with a counter as the rest of the world: handler [0] throws,
    every other handler increments the counter. *)
Definition demo_call (h : Events.handler) (d : unit) (s : Events.state nat)
  : Events.state nat * Events.completion :=
  if decide (h = 0%nat) then (s, Events.Threw "boom")
  else (Events.mkState (Events.handlers s) (S (Events.world s)), Events.Returned).

Definition demo_bus : Events.state nat := Events.mkState (<["tick" := []]> ∅) 0%nat.

Module BusReference.

Import Events.

Section Bus.

Context {Data World : Type}.
Variable call : handler → Data → state World → state World * completion.

(** The state in which the handler at position [i] of [hs] is called by
    a publish that starts in [s]: the state its predecessors left, each
    of them called on what the ones before it left. *)
Definition state_before (hs : list handler) (data : Data) (s : state World) (i : nat)
  : state World :=
  foldl (λ acc h, (call h data acc).1) s (take i hs).

(** The state after all of [hs] were called. *)
Definition state_after (hs : list handler) (data : Data) (s : state World) : state World :=
  state_before hs data s (length hs).

End Bus.

End BusReference.

Module StoreReference.

Import StateManager.

(** The notifications issued by a [set], and the store it leaves. *)
Definition notes (o : outcome) : list notification :=
  match o with
  | Ok _ ns => ns
  | TypeError _ => []
  end.

Definition final (o : outcome) : store :=
  match o with
  | Ok st _ => st
  | TypeError st => st
  end.

(** The allocator invariant: [nextLoc] is beyond the root and beyond
    every object reference stored in the tree. *)
Definition wf_store (st : store) : Prop :=
  (root st < nextLoc st)%nat
  ∧ ∀ l o k l', heap st !! l = Some o → o !! k = Some (VObj l') → (l' < nextLoc st)%nat.

(** A subscriber that looks at its arguments and leaves the store alone. *)
Definition observer (cb : callback) (newValue oldValue : value) (path : string)
  (st : store) : store * Events.completion := (st, Events.Returned).

(** Callbacks that do not re-enter the store. *)
Definition observers
  (call : callback → value → value → string → store → store * Events.completion) : Prop :=
  ∀ cb newValue oldValue path st, (call cb newValue oldValue path st).1 = st.

(** The value the store holds at a path: what the walk along its segments
    ends in, [undefined] when it is cut short. *)
Definition stored (path : string) (st : store) : value :=
  get_loop (heap st) (split_dot path) (VObj (root st)) VUndefined.


(** The strict ancestor paths of a path, the longest first. *)
Definition ancestor_paths (path : string) : list string :=
  (λ k, join_dot (take k (split_dot path)))
    <$> reverse (seq 1 (length (split_dot path) - 1)).

(** The notifications in the words of the claim: the subscribers of the
    path itself are called with the new and the old value, then those of
    every strict ancestor path with the value read at that path, twice. *)
Definition notes_at (path : string) (newValue oldValue : value) (st : store)
  : list notification :=
  (λ cb, mkNote cb newValue oldValue path) <$> default [] (subscribers st !! path).

Definition expected_notes (path : string) (newValue oldValue : value) (st : store)
  : list notification :=
  notes_at path newValue oldValue st
  ++ (ancestor_paths path ≫= λ q, notes_at q (get q VUndefined st) (get q VUndefined st) st).


(** The store after [current[part] = {}] on the object at [l]. *)
Definition grown (l : loc) (part : string) (st : store) : store :=
  {| heap := <[l := <[part := VObj (nextLoc st)]>
                      (default ∅ (<[nextLoc st := ∅]> (heap st) !! l))]>
               (<[nextLoc st := ∅]> (heap st));
     nextLoc := S (nextLoc st);
     root := root st;
     subscribers := subscribers st |}.

(** The store [{ a: 5 }]. *)
Definition leaf_store : store :=
  Eval vm_compute in final (set observer "a" (VNum 5) empty_store).

(** An object literal [{}] evaluated by a caller of the store. *)
Definition newObject (st : store) : loc * store :=
  (nextLoc st,
   {| heap := <[nextLoc st := ∅]> (heap st); nextLoc := S (nextLoc st);
      root := root st; subscribers := subscribers st |}).

(** The store after [const o = {}; set('x', o); set('x.self', o)]: the
    object under ["x"] refers to itself. *)
Definition loop_store : store := Eval vm_compute in
  let '(o, st1) := newObject empty_store in
  final (set observer "x.self" (VObj o) (final (set observer "x" (VObj o) st1))).

(** The store of the propagation scenario: one subscriber at ["stats"]. *)
Definition watched_store : store := subscribe "stats" 7%nat empty_store.



End StoreReference.

Module Reference.

Import Game.

(** The layered walkability rule in the words of the claim: hazard tags
    or hazard tile ids turn the default [true] off whether or not a tile
    entity stands on the cell.  [tileTags] is [None] when the cell has no
    ground entity, [solid] tells whether an OBJECT-layer entity at the
    cell is tagged ['solid']. *)
Definition has_tag (tag : string) (tileTags : option (list string)) : bool :=
  match tileTags with
  | Some tags => includes tag tags
  | None => false
  end.

Definition any_excluded (excludedTags : list string) (tileTags : option (list string)) : bool :=
  existsb (λ tag, has_tag tag tileTags) excludedTags.

Definition hazard_id (tileId : string) : bool :=
  String.eqb tileId "water" || String.eqb tileId "teleporter".

Definition layered_as_claimed (tileTags : option (list string)) (tileId : string)
  (excludedTags : list string) (solid : bool) : bool :=
  negb solid
  && negb (any_excluded excludedTags tileTags)
  && (has_tag "walkable" tileTags
      || negb (has_tag "water" tileTags || hazard_id tileId)).

(** The same rule with the hazard step applied only when a ground entity
    stands on the cell. *)
Definition layered (tileTags : option (list string)) (tileId : string)
  (excludedTags : list string) (solid : bool) : bool :=
  negb solid
  && negb (any_excluded excludedTags tileTags)
  && match tileTags with
     | Some tags =>
         includes "walkable" tags || negb (includes "water" tags || hazard_id tileId)
     | None => true
     end.

(** What [isWalkable] looks at in a cell. *)
Definition tile_tags_at (x y : Z) (zoneId : option string) (w : World) : option (list string) :=
  e_tags <$> (head (getEntitiesAt x y (Some GROUND) zoneId w) ≫= λ r, heap w !! r).

Definition solid_at (x y : Z) (zoneId : option string) (w : World) : bool :=
  existsb (hasTagRef "solid" w) (getEntitiesAt x y (Some OBJECT) zoneId w).

(** Every id in the registry came out of [generateId('entity-')] at a
    counter value already passed. *)
Definition generated_registry (w : World) : Prop :=
  ∀ id, is_Some (entities w !! id) →
        ∃ k : N, (k ≤ idCounter w)%N ∧ id = "entity-" +:+ pretty k.

(** The ids produced by [n] calls of [generateId('entity-')] when the
    counter stands at [c]. *)
Definition ids_from (c : N) (n : nat) : list string :=
  (λ i, "entity-" +:+ pretty (c + N.of_nat i)%N) <$> seq 1 n.

(** The part of the state that id generation and the registry live in. *)
Definition registry_state (w : World) : N * gmap string eref * eref :=
  (idCounter w, entities w, nextRef w).

(** The place an entity object says it is at. *)
Definition place (ent : Entity) : option string * Layer * Z * Z :=
  (e_zoneId ent, e_layer ent, e_gridX ent, e_gridY ent).

(** An entity is on the grid when the bucket its own fields point at
    holds it. *)
Definition registered (e : eref) (w : World) : Prop :=
  ∃ ent, heap w !! e = Some ent ∧ e ∈ bucket (entity_key ent) w.

(** The three mutating grid operations, reified. *)
Inductive grid_op :=
| OpRegister (e : eref) (x y : Z) (layer : Layer) (zoneId : option string)
| OpMove (e : eref) (newX newY : Z)
| OpUnregister (e : eref).

Definition run_op (op : grid_op) (w : World) : World :=
  match op with
  | OpRegister e x y layer zoneId => (registerEntity e x y layer zoneId w).1
  | OpMove e newX newY => (moveEntity e newX newY w).1
  | OpUnregister e => (unregisterEntity e w).1
  end.

(** Use of the operations as the callers in the repository make it: an
    entity is registered when it is not on the grid and moved when it is;
    it may be unregistered at any time. *)
Definition applicable (op : grid_op) (w : World) : Prop :=
  match op with
  | OpRegister e _ _ _ _ => ¬ registered e w
  | OpMove e _ _ => registered e w
  | OpUnregister e => True
  end.

Inductive reachable (w0 : World) : World → Prop :=
| reach_start : reachable w0 w0
| reach_step (w : World) (op : grid_op) :
    reachable w0 w → applicable op w → reachable w0 (run_op op w).

(** A grid on which nothing was registered yet. *)
Definition unoccupied (w : World) : Prop :=
  (∀ k, bucket k w = [])
  ∧ (∀ z zone, zones w !! z = Some zone → z_entities zone = []).

(** The occupancy invariant of the grid. *)
Record grid_inv (w : World) : Prop := mkInv {
  inv_own_bucket : ∀ k e, e ∈ bucket k w →
    ∃ ent, heap w !! e = Some ent ∧ k = entity_key ent;
  inv_bucket_nodup : ∀ k, NoDup (bucket k w);
  inv_zone_member : ∀ z zone e, zones w !! z = Some zone → e ∈ z_entities zone →
    ∃ ent, heap w !! e = Some ent ∧ z = zone_key (e_zoneId ent)
           ∧ e ∈ bucket (entity_key ent) w;
  inv_bucket_zone : ∀ e ent, heap w !! e = Some ent → e ∈ bucket (entity_key ent) w →
    ∃ zone, zones w !! zone_key (e_zoneId ent) = Some zone ∧ e ∈ z_entities zone;
  inv_zone_nodup : ∀ z zone, zones w !! z = Some zone → NoDup (z_entities zone)
}.

(** The state of a freshly loaded page, with the default cell size. *)
Definition fresh_world : World :=
  mkWorld 32 (0, 0) ∅ None ∅ ∅ 0%nat ∅ 0%N [] [] [].

(** One tile placed the way the world builder does it: the entity is
    created with the tile type's tags, gets its tile component, and is
    registered on the ground layer. *)
Definition placeTile (zoneId : string) (tileId : string) (tags : list string) (x y : Z)
  (w : World) : World :=
  let '(w1, r, _) :=
    createEntity "tile"
      (mkConfig None (Some tags) None None (Some x) (Some y) (Some GROUND) (Some zoneId) []) w in
  let w2 := (addComponent r "tile"
               (mkCompConfig (Some tileId) (Some (includes "walkable" tags)) (Some tags)
                  None None None None None) w1).1 in
  (registerEntity r x y GROUND (Some zoneId) w2).1.

(** The 3×3 zone of the walkability scenario: water in the middle, grass
    tagged walkable around it. *)
Definition pond_world : World := Eval vm_compute in
  let w0 := createZone "pond" 3 3 None fresh_world in
  foldl (λ w xy, if decide (xy = (1, 1))
                 then placeTile "pond" "water" ["water"] xy.1 xy.2 w
                 else placeTile "pond" "grass" ["walkable"] xy.1 xy.2 w)
        w0 [(0,0); (1,0); (2,0); (0,1); (1,1); (2,1); (0,2); (1,2); (2,2)].

(** Two zones, a player standing at (2,2) in zone A, and a portal on the
    cell above it that teleports to (5,5) in zone B and accepts requests
    coming from direction ['up'] only. *)
Definition portal_data : InteractionData :=
  mkData None None (Some "B") (Some 5) (Some 5) None None.

Definition arena_world : World := Eval vm_compute in
  let w0 := createZone "B" 8 8 None (createZone "A" 5 5 None fresh_world) in
  let '(w1, actor, _) :=
    createEntity "player"
      (mkConfig None None None None None None (Some ACTOR) (Some "A")
         []) w0 in
  let w2 := (registerEntity actor 2 2 ACTOR (Some "A") w1).1 in
  let '(w3, portal, _) :=
    createEntity "portal"
      (mkConfig None None None None None None (Some OBJECT) (Some "A")
         [("interactable",
           mkCompConfig None None None None None (Some "teleport") (Some ["up"])
             (Some portal_data))]) w2 in
  (registerEntity portal 2 1 OBJECT (Some "A") w3).1.

Definition arena_actor : eref := 0%nat.
Definition arena_portal : eref := 1%nat.

Definition blank_entity : Entity :=
  mkEntity "" "" [] false (mkComponents None None None) (0%Q, 0%Q) 0 0 0 ACTOR None.

(** The two entity objects of the arena, as the construction leaves them. *)
Definition arena_actor_entity : Entity :=
  Eval vm_compute in default blank_entity (heap arena_world !! arena_actor).
Definition arena_portal_entity : Entity :=
  Eval vm_compute in default blank_entity (heap arena_world !! arena_portal).
Definition arena_portal_component : InteractableComp :=
  Eval vm_compute in
    default (mkInteractable "" [] portal_data false)
      (c_interactable (e_components arena_portal_entity)).
Definition arena_zone_A : Zone :=
  Eval vm_compute in default (mkZone "" 0 0 [] []) (zones arena_world !! "A").
Definition arena_zone_B : Zone :=
  Eval vm_compute in default (mkZone "" 0 0 [] []) (zones arena_world !! "B").

(** One 5×5 zone and one entity that was created and not yet placed. *)
Definition yard_world : World := Eval vm_compute in
  (createEntity "player"
     (mkConfig None None None None None None (Some ACTOR) (Some "A") [])
     (createZone "A" 5 5 None fresh_world)).1.1.

Definition yard_entity : eref := 0%nat.

(** The occupancy claim for one entity, as the claim words it: an entity
    with a zone assignment is in exactly the bucket its fields name, at
    most once. *)
Definition occupies_own_bucket_only (e : eref) (w : World) : Prop :=
  ∀ ent zoneId, heap w !! e = Some ent → e_zoneId ent = Some zoneId →
    (∀ k, e ∈ bucket k w ↔ k = entity_key ent)
    ∧ (count_occ Nat.eq_dec (bucket (entity_key ent) w) e ≤ 1)%nat.

(** The arena with a second zone whose id is the empty string, and a
    portal that names it as its target. *)
Definition void_data : InteractionData :=
  mkData None None (Some "") (Some 5) (Some 5) None None.

Definition void_world : World := Eval vm_compute in
  let w0 := createZone "" 8 8 None (createZone "A" 5 5 None fresh_world) in
  let '(w1, actor, _) :=
    createEntity "player"
      (mkConfig None None None None None None (Some ACTOR) (Some "A")
         []) w0 in
  let w2 := (registerEntity actor 2 2 ACTOR (Some "A") w1).1 in
  let '(w3, portal, _) :=
    createEntity "portal"
      (mkConfig None None None None None None (Some OBJECT) (Some "A")
         [("interactable",
           mkCompConfig None None None None None (Some "teleport") (Some ["up"])
             (Some void_data))]) w2 in
  (registerEntity portal 2 1 OBJECT (Some "A") w3).1.

(** The arena after a second [registerEntity] of the player, on another
    cell of zone A. *)
Definition stale_world : World := Eval vm_compute in
  (registerEntity arena_actor 1 1 ACTOR (Some "A") arena_world).1.

(** The arena with the empty string as the id of the player's zone. *)
Definition nameless_world : World := Eval vm_compute in
  let w0 := createZone "B" 8 8 None (createZone "" 5 5 None fresh_world) in
  let '(w1, actor, _) :=
    createEntity "player"
      (mkConfig None None None None None None (Some ACTOR) None
         []) w0 in
  let w2 := (registerEntity actor 2 2 ACTOR (Some "") w1).1 in
  let '(w3, portal, _) :=
    createEntity "portal"
      (mkConfig None None None None None None (Some OBJECT) None
         [("interactable",
           mkCompConfig None None None None None (Some "teleport") (Some ["up"])
             (Some portal_data))]) w2 in
  (registerEntity portal 2 1 OBJECT (Some "") w3).1.

(** A custom handler that does nothing. *)
Definition idle_custom (h : nat) (self : eref) (data : Request) (w : World)
  : World * Events.completion := (w, Events.Returned).

(** A 1×1 zone whose tile matrix says water, with no tile entity. *)
Definition bare_water_world : World := Eval vm_compute in
  createZone "lake" 1 1 (Some [["water"]]) fresh_world.

End Reference.

(* ===================================================================== *)
(** * Frames and further example states *)
(* ===================================================================== *)

Module Scenarios.

Import Game Reference.

(** The grid's own variables. *)
Definition grid_state (w : World)
  : Q * (Z * Z) * gmap string Zone * option string * gmap cell_key (list eref) :=
  (cellSize w, dims w, zones w, currentZone w, cells w).

(** What went out to the event bus and the timer queue. *)
Definition outbox (w : World) : list Event * list Timer := (published w, timers w).

(** The fields of an entity object that tags and components do not
    touch. *)
Definition body (ent : Entity)
  : string * string * bool * (Q * Q) * Z * (option string * Layer * Z * Z) :=
  (e_id ent, e_type ent, e_active ent, e_position ent, e_zIndex ent, place ent).

(** A step that works on the tags and components of [e] alone: the grid,
    the registry, the published events and every other entity object are
    as before, and [e] keeps its body and the tags it had, in front. *)
Definition touches_only (e : eref) (w w' : World) : Prop :=
  grid_state w' = grid_state w
  ∧ outbox w' = outbox w
  ∧ registry_state w' = registry_state w
  ∧ (∀ e', e' ≠ e → heap w' !! e' = heap w !! e')
  ∧ (∀ ent, heap w !! e = Some ent →
       ∃ ent', heap w' !! e = Some ent' ∧ body ent' = body ent
               ∧ e_tags ent `prefix_of` e_tags ent').

(** The interaction data after [state = !state]. *)
Definition toggled (d : InteractionData) : InteractionData :=
  mkData (d_text d) (d_item d) (d_targetZone d) (d_targetX d) (d_targetY d)
    (Some (toggled_state d)) (d_handler d).

(** The entity objects are the same ones, under the same ids. *)
Definition same_ids (w w' : World) : Prop :=
  ∀ e, e_id <$> heap w' !! e = e_id <$> heap w !! e.

(** The handlers subscribed under ['entity:interact'], in order. *)
Definition interact_handlers (w : World) : list eref :=
  omap (λ s, if String.eqb s.1 "entity:interact" then Some s.2 else None)
    (subscriptions w).

(** A 3×3 zone and a grass tile entity with its tile component, created
    for the cell (1,1) and not yet registered. *)
Definition sod_world : World := Eval vm_compute in
  let '(w1, r, _) :=
    createEntity "tile"
      (mkConfig None (Some ["walkable"]) None None (Some 1) (Some 1) (Some GROUND)
         (Some "pond") []) (createZone "pond" 3 3 None fresh_world) in
  (addComponent r "tile"
     (mkCompConfig (Some "grass") (Some true) (Some ["walkable"]) None None None None None)
     w1).1.

Definition sod_entity : Entity :=
  Eval vm_compute in default blank_entity (heap sod_world !! 0%nat).
Definition sod_zone : Zone :=
  Eval vm_compute in default (mkZone "" 0 0 [] []) (zones sod_world !! "pond").

(** The entity and the zone of the yard. *)
Definition yard_entity_object : Entity :=
  Eval vm_compute in default blank_entity (heap yard_world !! yard_entity).
Definition yard_zone : Zone :=
  Eval vm_compute in default (mkZone "" 0 0 [] []) (zones yard_world !! "A").

(** A 5×5 zone with the player entity in the corner (0,0) and a lever (a
    toggle interactable) on the cell below it. *)
Definition lever_world : World := Eval vm_compute in
  let w0 := createZone "A" 5 5 None fresh_world in
  let '(w1, player, _) :=
    createEntity "player"
      (mkConfig None None None None None None (Some ACTOR) (Some "A")
         []) w0 in
  let w2 := (registerEntity player 0 0 ACTOR (Some "A") w1).1 in
  let '(w3, lever, _) :=
    createEntity "lever"
      (mkConfig None None None None None None (Some OBJECT) (Some "A")
         [("interactable",
           mkCompConfig None None None None None (Some "toggle") None None)]) w2 in
  (registerEntity lever 0 1 OBJECT (Some "A") w3).1.

Definition lever_player : eref := 0%nat.
Definition lever : eref := 1%nat.

Definition lever_player_entity : Entity :=
  Eval vm_compute in default blank_entity (heap lever_world !! lever_player).
(** A player component built by hand, with the fields [init] sets for an
    empty configuration on that entity: it faces down. *)
Definition lever_player_component : PlayerComp := mkPlayer "down" true 1 false 0 0.
Definition lever_entity : Entity :=
  Eval vm_compute in default blank_entity (heap lever_world !! lever).
Definition lever_component : InteractableComp :=
  Eval vm_compute in
    default (mkInteractable "" [] empty_data false)
      (c_interactable (e_components lever_entity)).

(** The request of the player that faces the lever. *)
Definition lever_request : Request := mkRequest lever_player lever "down".

(** A 5×5 zone, a player and a coin (a pickup interactable), both created
    and not yet placed; and the same with the coin registered at (1,1). *)
Definition coin_yard : World := Eval vm_compute in
  let w0 := createZone "A" 5 5 None fresh_world in
  let '(w1, _, _) :=
    createEntity "player"
      (mkConfig None None None None None None (Some ACTOR) (Some "A") []) w0 in
  let '(w2, _, _) :=
    createEntity "coin"
      (mkConfig None None None None None None (Some OBJECT) (Some "A")
         [("interactable",
           mkCompConfig None None None None None (Some "pickup") None
             (Some (mkData None (Some "coin") None None None None None)))]) w1 in
  w2.

Definition coin : eref := 1%nat.

Definition coin_world : World :=
  run_op (OpRegister coin 1 1 OBJECT (Some "A")) coin_yard.

Definition coin_entity : Entity :=
  Eval vm_compute in default blank_entity (heap coin_world !! coin).
Definition coin_component : InteractableComp :=
  Eval vm_compute in
    default (mkInteractable "" [] empty_data false)
      (c_interactable (e_components coin_entity)).
Definition coin_request : Request := mkRequest 0%nat coin "up".

(** The lever's world with a second interactable subscribed before the
    lever and a third one after it: a sign (a dialog) at (1,0) and a bell
    (a toggle) at (1,1). *)
Definition belfry_world : World := Eval vm_compute in
  let w0 := createZone "A" 5 5 None fresh_world in
  let '(w1, player, _) :=
    createEntity "player"
      (mkConfig None None None None None None (Some ACTOR) (Some "A") []) w0 in
  let w2 := (registerEntity player 0 0 ACTOR (Some "A") w1).1 in
  let '(w3, sign, _) :=
    createEntity "sign"
      (mkConfig None None None None None None (Some OBJECT) (Some "A")
         [("interactable",
           mkCompConfig None None None None None (Some "dialog") None None)]) w2 in
  let w4 := (registerEntity sign 1 0 OBJECT (Some "A") w3).1 in
  let '(w5, lever, _) :=
    createEntity "lever"
      (mkConfig None None None None None None (Some OBJECT) (Some "A")
         [("interactable",
           mkCompConfig None None None None None (Some "toggle") None None)]) w4 in
  let w6 := (registerEntity lever 0 1 OBJECT (Some "A") w5).1 in
  let '(w7, bell, _) :=
    createEntity "bell"
      (mkConfig None None None None None None (Some OBJECT) (Some "A")
         [("interactable",
           mkCompConfig None None None None None (Some "toggle") None None)]) w6 in
  (registerEntity bell 1 1 OBJECT (Some "A") w7).1.

Definition belfry_player : eref := 0%nat.
Definition belfry_sign : eref := 1%nat.
Definition belfry_lever : eref := 2%nat.
Definition belfry_bell : eref := 3%nat.

Definition belfry_player_entity : Entity :=
  Eval vm_compute in default blank_entity (heap belfry_world !! belfry_player).
Definition belfry_lever_entity : Entity :=
  Eval vm_compute in default blank_entity (heap belfry_world !! belfry_lever).

(** The arena with two portals created under one id, as two instances
    of one template are: the one above the player leads to (5,5) in
    zone B and accepts requests from direction ['up'], the other one, to
    the right of the player, leads to (1,1) in zone B and accepts every
    direction. *)
Definition twin_data : InteractionData :=
  mkData None None (Some "B") (Some 1) (Some 1) None None.

Definition twin_world : World := Eval vm_compute in
  let w0 := createZone "B" 8 8 None (createZone "A" 5 5 None fresh_world) in
  let '(w1, actor, _) :=
    createEntity "player"
      (mkConfig None None None None None None (Some ACTOR) (Some "A") []) w0 in
  let w2 := (registerEntity actor 2 2 ACTOR (Some "A") w1).1 in
  let '(w3, portal, _) :=
    createEntity "portal"
      (mkConfig (Some "portal") None None None None None (Some OBJECT) (Some "A")
         [("interactable",
           mkCompConfig None None None None None (Some "teleport") (Some ["up"])
             (Some portal_data))]) w2 in
  let w4 := (registerEntity portal 2 1 OBJECT (Some "A") w3).1 in
  let '(w5, twin, _) :=
    createEntity "portal"
      (mkConfig (Some "portal") None None None None None (Some OBJECT) (Some "A")
         [("interactable",
           mkCompConfig None None None None None (Some "teleport") None
             (Some twin_data))]) w4 in
  (registerEntity twin 3 2 OBJECT (Some "A") w5).1.

(** The arena with two more interactables around the player, a sign (a
    dialog) subscribed before the portal and a bell (a toggle) subscribed
    after it. *)
Definition station_world : World := Eval vm_compute in
  let w0 := createZone "B" 8 8 None (createZone "A" 5 5 None fresh_world) in
  let '(w1, actor, _) :=
    createEntity "player"
      (mkConfig None None None None None None (Some ACTOR) (Some "A") []) w0 in
  let w2 := (registerEntity actor 2 2 ACTOR (Some "A") w1).1 in
  let '(w3, sign, _) :=
    createEntity "sign"
      (mkConfig None None None None None None (Some OBJECT) (Some "A")
         [("interactable",
           mkCompConfig None None None None None (Some "dialog") None None)]) w2 in
  let w4 := (registerEntity sign 1 2 OBJECT (Some "A") w3).1 in
  let '(w5, portal, _) :=
    createEntity "portal"
      (mkConfig None None None None None None (Some OBJECT) (Some "A")
         [("interactable",
           mkCompConfig None None None None None (Some "teleport") (Some ["up"])
             (Some portal_data))]) w4 in
  let w6 := (registerEntity portal 2 1 OBJECT (Some "A") w5).1 in
  let '(w7, bell, _) :=
    createEntity "bell"
      (mkConfig None None None None None None (Some OBJECT) (Some "A")
         [("interactable",
           mkCompConfig None None None None None (Some "toggle") None None)]) w6 in
  (registerEntity bell 3 2 OBJECT (Some "A") w7).1.

Definition station_actor : eref := 0%nat.
Definition station_sign : eref := 1%nat.
Definition station_portal : eref := 2%nat.
Definition station_bell : eref := 3%nat.

Definition station_actor_entity : Entity :=
  Eval vm_compute in default blank_entity (heap station_world !! station_actor).
Definition station_portal_entity : Entity :=
  Eval vm_compute in default blank_entity (heap station_world !! station_portal).
Definition station_portal_component : InteractableComp :=
  Eval vm_compute in
    default (mkInteractable "" [] portal_data false)
      (c_interactable (e_components station_portal_entity)).
Definition station_zone_A : Zone :=
  Eval vm_compute in default (mkZone "" 0 0 [] []) (zones station_world !! "A").
Definition station_zone_B : Zone :=
  Eval vm_compute in default (mkZone "" 0 0 [] []) (zones station_world !! "B").

(** A registry that holds an entity created with the explicit id
    ['entity-1'], as a template with that id gives it, while the id
    counter still stands at 0. *)
Definition named_world : World := Eval vm_compute in
  (createEntity "rock"
     (mkConfig (Some "entity-1") None None None None None None None []) fresh_world).1.1.

End Scenarios.

(* ===================================================================== *)
(** * Properties of binary64 rounding *)
(* ===================================================================== *)

Section DoubleProperties.

Import Double.

Lemma pow2_pos (e : Z) : (0 < pow2 e)%Q.
Proof. apply Qpower_0_lt. reflexivity. Qed.

Lemma pow2_plus (a b : Z) : (pow2 (a + b) == pow2 a * pow2 b)%Q.
Proof. apply Qpower_plus. discriminate. Qed.

Lemma pow2_nonneg (a : Z) : 0 ≤ a → (pow2 a == inject_Z (2 ^ a))%Q.
Proof. intros Ha. unfold pow2. by rewrite Zpower_Qpower. Qed.

(** [2 ^ ilog2 q] is below [|q|]. *)
Lemma ilog2_le (q : Q) : ¬ (q == 0)%Q → (pow2 (ilog2 q) <= Qabs q)%Q.
Proof.
  intros Hq. unfold ilog2.
  set (a := Z.log2 (Z.abs (Qnum q))). set (b := Z.log2 (Z.pos (Qden q))).
  destruct (Qle_bool (pow2 (a - b)) (Qabs q)) eqn:E; [by apply Qle_bool_iff|].
  assert (Hn : 0 < Z.abs (Qnum q)).
  { destruct q as [n d]. unfold Qeq in Hq. cbn in *. lia. }
  destruct (Z.log2_spec _ Hn) as [Ha _]. fold a in Ha.
  destruct (Z.log2_spec (Z.pos (Qden q)) eq_refl) as [_ Hb]. fold b in Hb.
  assert (Ha0 : 0 ≤ a) by apply Z.log2_nonneg.
  assert (Hb0 : 0 ≤ b) by apply Z.log2_nonneg.
  assert (Hsplit : (pow2 (a - b - 1) * pow2 (b + 1) == pow2 a)%Q).
  { rewrite <- pow2_plus. by replace (a - b - 1 + (b + 1)) with a by lia. }
  apply Qmult_le_r with (z := pow2 (b + 1)); [apply pow2_pos|].
  rewrite Hsplit. rewrite !pow2_nonneg by lia.
  destruct q as [n d]. unfold Qabs, Qle, Qmult, inject_Z. cbn [Qnum Qden] in *.
  nia.
Qed.

Lemma nearest_even_Z (q : Q) (k : Z) : (q == inject_Z k)%Q → nearest_even q = k.
Proof.
  intros E. unfold nearest_even. rewrite (Qfloor_comp _ _ E), Qfloor_Z.
  assert (H : (q - inject_Z k ?= 1 # 2)%Q = Lt).
  { rewrite <- Qlt_alt, E. unfold Qminus. rewrite Qplus_opp_r. reflexivity. }
  by rewrite H.
Qed.

(** Rounding leaves a double as it is. *)
Lemma round_exact (q : Q) : representable q → (round q == q)%Q.
Proof.
  intros (m & e & Hm & He & Hq). unfold round.
  destruct (Qeq_bool q 0) eqn:E0; [apply Qeq_bool_iff in E0; by rewrite E0|].
  assert (Hne : ¬ (q == 0)%Q) by (by apply Qeq_bool_neq).
  set (e' := ulp_exponent q).
  assert (Hle : e' ≤ e).
  { unfold e', ulp_exponent.
    assert (ilog2 q < 53 + e); [|lia].
    apply (Qpower_lt_compat_l_inv 2); [|reflexivity].
    eapply Qle_lt_trans; [apply (ilog2_le q Hne)|].
    rewrite Hq, Qabs_Qmult, (Qabs_pos (pow2 e)) by (apply Qlt_le_weak, pow2_pos).
    change (2 ^ (53 + e))%Q with (pow2 (53 + e)). rewrite pow2_plus.
    apply Qmult_lt_r; [apply pow2_pos|].
    rewrite pow2_nonneg by lia.
    destruct m; unfold Qabs, Qlt, inject_Z; cbn; lia. }
  rewrite Qred_correct.
  assert (Hpe : (pow2 e == pow2 (e - e') * pow2 e')%Q).
  { rewrite <- pow2_plus. by replace (e - e' + e') with e by lia. }
  assert (Hint : (q / pow2 e' == inject_Z (m * 2 ^ (e - e')))%Q).
  { rewrite Hq, Hpe, inject_Z_mult, <- pow2_nonneg by lia.
    field. apply Qpower_not_0. discriminate. }
  rewrite (nearest_even_Z _ _ Hint), Hq, Hpe, inject_Z_mult, <- pow2_nonneg by lia.
  ring.
Qed.

(** An integer below 2^53 in magnitude is a double, and so is its half. *)
Lemma representable_Z (q : Q) (n : Z) :
  Z.abs n < 2 ^ 53 → (q == inject_Z n)%Q → representable q.
Proof.
  intros Hn Hq. exists n, 0. split; [done|]. split; [lia|].
  rewrite Hq. change (pow2 0) with 1%Q. ring.
Qed.

Lemma representable_half (q : Q) (n : Z) :
  Z.abs n < 2 ^ 53 → (q == inject_Z n / 2)%Q → representable q.
Proof.
  intros Hn Hq. exists n, (-1). split; [done|]. split; [lia|].
  rewrite Hq. change (pow2 (-1)) with (/ 2)%Q. reflexivity.
Qed.

(** The centre of a cell and the way back, where every intermediate
    result is a double. *)
Lemma floor_cell_centre (c x : Z) :
  0 < c → 0 ≤ x → (2 * x + 1) * c < 2 ^ 53 →
  let centre := add (mul (inject_Z x) (inject_Z c)) (div (inject_Z c) 2) in
  (centre == inject_Z ((2 * x + 1) * c) / 2)%Q
  ∧ floor (div centre (inject_Z c)) = x.
Proof.
  intros Hc Hx Hb centre.
  assert (Hmul : (mul (inject_Z x) (inject_Z c) == inject_Z (x * c))%Q).
  { unfold mul. rewrite round_exact; [by rewrite inject_Z_mult|].
    apply (representable_Z _ (x * c)); [nia|by rewrite inject_Z_mult]. }
  assert (Hhalf : (div (inject_Z c) 2 == inject_Z c / 2)%Q).
  { unfold div. apply round_exact. apply (representable_half _ c); [nia|reflexivity]. }
  assert (Hsum : (mul (inject_Z x) (inject_Z c) + div (inject_Z c) 2
                  == inject_Z ((2 * x + 1) * c) / 2)%Q).
  { rewrite Hmul, Hhalf, !inject_Z_mult, inject_Z_plus, !inject_Z_mult. field. }
  assert (Hcentre : (centre == inject_Z ((2 * x + 1) * c) / 2)%Q).
  { unfold centre, add. rewrite round_exact; [exact Hsum|].
    apply (representable_half _ ((2 * x + 1) * c)); [nia|exact Hsum]. }
  split; [exact Hcentre|].
  assert (Hcne : ¬ (inject_Z c == 0)%Q).
  { change 0%Q with (inject_Z 0). rewrite inject_Z_injective. lia. }
  assert (Hq : (centre / inject_Z c == inject_Z (2 * x + 1) / 2)%Q).
  { rewrite Hcentre, inject_Z_mult. field. exact Hcne. }
  unfold floor, div. rewrite (Qfloor_comp _ (inject_Z (2 * x + 1) / 2)).
  - unfold Qfloor, Qdiv, Qmult, Qinv, inject_Z. cbn [Qnum Qden].
    symmetry. apply Z.div_unique with (r := 1); lia.
  - rewrite round_exact; [exact Hq|].
    apply (representable_half _ (2 * x + 1)); [nia|exact Hq].
Qed.

Lemma nearest_even_comp (q q' : Q) : (q == q')%Q → nearest_even q = nearest_even q'.
Proof.
  intros E. unfold nearest_even. rewrite (Qfloor_comp _ _ E).
  assert (H : (q - inject_Z (Qfloor q') ?= 1 # 2)%Q = (q' - inject_Z (Qfloor q') ?= 1 # 2)%Q).
  { apply Qcompare_comp; [by rewrite E|reflexivity]. }
  by rewrite H.
Qed.

Lemma nearest_even_floor (q : Q) : Qfloor q ≤ nearest_even q ≤ Qfloor q + 1.
Proof.
  unfold nearest_even. destruct (q - inject_Z (Qfloor q) ?= 1 # 2)%Q; [|lia|lia].
  destruct (Z.even (Qfloor q)); lia.
Qed.

Lemma nearest_even_down (q : Q) :
  (q - inject_Z (Qfloor q) < 1 # 2)%Q → nearest_even q = Qfloor q.
Proof.
  intros H. unfold nearest_even.
  assert (H' : (q - inject_Z (Qfloor q) ?= 1 # 2)%Q = Lt) by (by rewrite <- Qlt_alt).
  by rewrite H'.
Qed.

Lemma Qfloor_div_Z (a b : Z) : 0 < b → Qfloor (inject_Z a / inject_Z b) = a / b.
Proof.
  intros Hb. destruct b as [|p|p]; [lia| |lia].
  unfold Qfloor, Qdiv, Qmult, Qinv, inject_Z. cbn. f_equal; lia.
Qed.

(** The nearest integer to a quotient of integers whose remainder leaves
    more than half a unit to the next multiple. *)
Lemma nearest_even_quotient (a c lo hi : Z) :
  0 < c → lo * c ≤ a → 2 * a < 2 * hi * c - c →
  lo ≤ nearest_even (inject_Z a / inject_Z c) < hi.
Proof.
  intros Hc Hlo Hhi.
  pose proof (nearest_even_floor (inject_Z a / inject_Z c)) as [H1 H2].
  pose proof (Qfloor_div_Z a c Hc) as HF.
  assert (Hlow : lo ≤ a / c) by (apply Z.div_le_lower_bound; lia).
  assert (Hup : a / c < hi) by (apply Z.div_lt_upper_bound; nia).
  split; [lia|].
  destruct (decide (a / c = hi - 1)) as [E|E]; [|lia].
  rewrite nearest_even_down; [lia|]. rewrite HF.
  pose proof (Z.mul_div_le a c Hc) as Hm.
  destruct c as [|p|p]; [lia| |lia].
  unfold Qlt, Qminus, Qplus, Qopp, Qdiv, Qmult, Qinv, inject_Z. cbn [Qnum Qden].
  rewrite E in *. cbn. nia.
Qed.

(** [Math.floor(n / c)] for integers below 2^53: the quotient of the
    integer division, though the division rounds. *)
Lemma floor_integer_quotient (c n : Z) :
  0 < c < 2 ^ 53 → 0 ≤ n < 2 ^ 53 →
  floor (div (inject_Z n) (inject_Z c)) = n / c.
Proof.
  intros Hc Hn. unfold floor, div, round.
  assert (Hcne : ¬ (inject_Z c == 0)%Q).
  { change 0%Q with (inject_Z 0). rewrite inject_Z_injective. lia. }
  set (q := (inject_Z n / inject_Z c)%Q).
  destruct (Qeq_bool q 0) eqn:E0.
  { apply Qeq_bool_iff in E0. unfold q in E0.
    assert (n = 0); [|subst n; by rewrite Z.div_0_l by lia].
    apply inject_Z_injective.
    assert (H : (inject_Z n == inject_Z n / inject_Z c * inject_Z c)%Q) by (by field).
    rewrite H, E0. change (inject_Z 0) with 0%Q. ring. }
  assert (Hne : ¬ (q == 0)%Q) by (by apply Qeq_bool_neq).
  assert (Hn0 : 0 < n).
  { destruct (decide (n = 0)) as [->|]; [|lia]. exfalso. apply Hne. unfold q.
    unfold Qdiv. ring. }
  assert (Hqpos : (0 < q)%Q).
  { unfold q. apply Qlt_shift_div_l.
    - change 0%Q with (inject_Z 0). rewrite <- Zlt_Qlt. lia.
    - rewrite Qmult_0_l. change 0%Q with (inject_Z 0). rewrite <- Zlt_Qlt. lia. }
  set (l := ilog2 q).
  assert (Hl : (pow2 l * inject_Z c <= inject_Z n)%Q).
  { pose proof (ilog2_le q Hne) as H. fold l in H.
    rewrite (Qabs_pos q) in H by (by apply Qlt_le_weak).
    assert (Hnq : (inject_Z n == q * inject_Z c)%Q) by (unfold q; by field).
    rewrite Hnq. apply Qmult_le_compat_r; [exact H|].
    change 0%Q with (inject_Z 0). rewrite <- Zle_Qle. lia. }
  assert (Hl52 : l ≤ 52).
  { assert (l < 53); [|lia].
    apply (Qpower_lt_compat_l_inv 2); [|reflexivity].
    change (2 ^ l)%Q with (pow2 l). change (2 ^ 53)%Q with (pow2 53).
    eapply Qle_lt_trans; [|rewrite pow2_nonneg by lia; rewrite <- Zlt_Qlt; apply Hn].
    eapply Qle_trans; [|exact Hl].
    rewrite <- (Qmult_1_r (pow2 l)) at 1.
    apply Qmult_le_l; [apply pow2_pos|].
    change 1%Q with (inject_Z 1). rewrite <- Zle_Qle. lia. }
  set (e := ulp_exponent q).
  assert (He : e = l - 52 ∨ (e = -1074 ∧ l - 52 ≤ -1074)) by (unfold e, ulp_exponent; fold l; lia).
  assert (He0 : e ≤ 0) by lia.
  set (k := 2 ^ (- e)).
  assert (Hk : 0 < k) by (apply Z.pow_pos_nonneg; lia).
  assert (Hpk : (pow2 e * inject_Z k == 1)%Q).
  { unfold k. rewrite <- pow2_nonneg by lia. rewrite <- pow2_plus.
    by replace (e + - e) with 0 by lia. }
  assert (H2k : c < 2 * k).
  { destruct He as [He|[He _]].
    - assert (Hk2 : 2 * k = 2 ^ (53 - l)).
      { unfold k. rewrite He. replace (53 - l) with (Z.succ (- (l - 52))) by lia.
        rewrite Z.pow_succ_r by lia. reflexivity. }
      rewrite Hk2, Zlt_Qlt. rewrite <- pow2_nonneg by lia.
      apply Qmult_lt_l with (z := pow2 l); [apply pow2_pos|].
      rewrite <- pow2_plus. replace (l + (53 - l)) with 53 by lia.
      eapply Qle_lt_trans; [exact Hl|].
      rewrite pow2_nonneg by lia. rewrite <- Zlt_Qlt. apply Hn.
    - unfold k. rewrite He. cbn [Z.opp].
      assert (2 ^ 53 < 2 ^ 1074) by (apply Z.pow_lt_mono_r; lia). lia. }
  assert (Ht : (q / pow2 e == inject_Z (n * k) / inject_Z c)%Q).
  { unfold q. rewrite inject_Z_mult.
    assert (Hpe : ¬ (pow2 e == 0)%Q) by (apply Qpower_not_0; discriminate).
    assert (Hkq : (inject_Z k == / pow2 e)%Q).
    { apply (Qmult_inj_l _ _ (pow2 e) Hpe). rewrite Hpk. by field. }
    rewrite Hkq. by field. }
  rewrite (Qfloor_comp _ _ (Qred_correct _)).
  rewrite (nearest_even_comp _ _ Ht).
  set (N := nearest_even (inject_Z (n * k) / inject_Z c)).
  assert (HN : (n / c) * k ≤ N < (n / c + 1) * k).
  { apply nearest_even_quotient; [lia| |].
    - pose proof (Z.mul_div_le n c ltac:(lia)). nia.
    - pose proof (Z.mod_pos_bound n c ltac:(lia)) as Hr.
      pose proof (Z.div_mod n c ltac:(lia)) as Hd. nia. }
  assert (HQ : (inject_Z N * pow2 e == inject_Z N / inject_Z k)%Q).
  { assert (Hpe : ¬ (pow2 e == 0)%Q) by (apply Qpower_not_0; discriminate).
    assert (Hkq : (inject_Z k == / pow2 e)%Q).
    { apply (Qmult_inj_l _ _ (pow2 e) Hpe). rewrite Hpk. by field. }
    rewrite Hkq. by field. }
  rewrite (Qfloor_comp _ _ HQ), (Qfloor_div_Z N k Hk).
  symmetry. apply Z.div_unique with (r := N - (n / c) * k); lia.
Qed.

(** Beyond 2^53 the rounded quotient can reach the next integer. *)
Lemma floor_quotient_rounds_up :
  floor (div (inject_Z 13510798882111490) 3) = 4503599627370497
  ∧ 13510798882111490 / 3 = 4503599627370496.
Proof. split; vm_compute; reflexivity. Qed.

End DoubleProperties.

(* ===================================================================== *)
(** * Properties of the event bus *)
(* ===================================================================== *)

Section SubscriptionProperties.

Import Events.

Context {World : Type}.

Lemma subscribe_handlers (eventName : string) (h : handler) (s : state World) :
  handlers (subscribe eventName h s)
  = <[eventName := default [] (handlers s !! eventName) ++ [h]]> (handlers s).
Proof.
  unfold subscribe. destruct (handlers s !! eventName) as [l|] eqn:E; simpl.
  - by rewrite E.
  - rewrite lookup_insert_eq. by rewrite insert_insert_eq.
Qed.

Lemma subscribe_world (eventName : string) (h : handler) (s : state World) :
  world (subscribe eventName h s) = world s.
Proof. unfold subscribe. by destruct (handlers s !! eventName). Qed.

(** C7 (as amended). The closure returned by [subscribe(name, h)] filters
    the list of [name] by identity.  Called in any state that still has
    the list (it has it right after the [subscribe]), it removes every
    registration of [h] under [name], keeps the other handlers in order,
    leaves other names and the rest of the state alone, and calling it
    again changes nothing. *)
Theorem unsubscribe_removes_every_registration (eventName : string) (h : handler)
  (s : state World) (l : list handler) :
  handlers s !! eventName = Some l →
  (∃ s2,
     unsubscribe eventName h s = Some s2
     ∧ handlers s2 !! eventName = Some (filter (λ h', h' ≠ h) l)
     ∧ (h ∉ filter (λ h', h' ≠ h) l)
     ∧ (∀ other, other ≠ eventName → handlers s2 !! other = handlers s !! other)
     ∧ world s2 = world s
     ∧ unsubscribe eventName h s2 = Some s2)
  ∧ handlers (subscribe eventName h s) !! eventName = Some (l ++ [h]).
Proof.
  intros Hl. split.
  - assert (Hff : filter (λ h', h' ≠ h) (filter (λ h', h' ≠ h) l)
                  = filter (λ h', h' ≠ h) l).
    { rewrite list_filter_filter. apply list_filter_iff. tauto. }
    unfold unsubscribe at 1. rewrite Hl. eexists. split; [reflexivity|].
    unfold unsubscribe, set_handlers. cbn [handlers world].
    rewrite !lookup_insert_eq, insert_insert_eq, Hff.
    repeat split; try reflexivity.
    + intros Hin. apply list_elem_of_filter in Hin as [Hn _]. by apply Hn.
    + intros other Ho. by rewrite lookup_insert_ne.
  - by rewrite subscribe_handlers, lookup_insert_eq, Hl.
Qed.

End SubscriptionProperties.

Section PublishProperties.

Import Events BusReference.

Context {Data World : Type}.
Variable call : handler → Data → state World → state World * completion.

Lemma forEach_invoked (eventName : string) (hs : list handler) (data : Data)
  (s : state World) :
  invoked (forEach call eventName hs data s) = hs.
Proof.
  revert s. induction hs as [|h rest IH]; intros s; [reflexivity|].
  unfold invoked in *. simpl.
  destruct (call h data s) as [s1 c].
  specialize (IH s1).
  destruct (forEach call eventName rest data s1) as [[s2 calls] errs].
  simpl in *. by f_equal.
Qed.

Lemma forEach_errors (eventName : string) (hs : list handler) (data : Data)
  (s : state World) :
  (forEach call eventName hs data s).2 = thrown eventName (forEach call eventName hs data s).1.2.
Proof.
  revert s. induction hs as [|h rest IH]; intros s; [reflexivity|].
  simpl. destruct (call h data s) as [s1 c].
  specialize (IH s1).
  destruct (forEach call eventName rest data s1) as [[s2 calls] errs].
  simpl in *. rewrite IH. unfold thrown. simpl. by destruct c.
Qed.

(** The loop threads the state through the calls: every handler runs on
    the state its predecessors left, and the record of a call holds how
    that very call ended. *)
Lemma forEach_threads (eventName : string) (hs : list handler) (data : Data)
  (s : state World) :
  (forEach call eventName hs data s).1.1 = state_after call hs data s
  ∧ ∀ i h, hs !! i = Some h →
      (forEach call eventName hs data s).1.2 !! i
      = Some (h, (call h data (state_before call hs data s i)).2).
Proof.
  unfold state_after, state_before.
  revert s. induction hs as [|h0 rest IH]; intros s.
  { split; [reflexivity|]. intros i h Hi. by rewrite lookup_nil in Hi. }
  cbn [forEach]. destruct (call h0 data s) as [s1 c] eqn:Hc.
  destruct (IH s1) as [IH1 IH2].
  destruct (forEach call eventName rest data s1) as [[s2 calls] errs].
  cbn [fst snd] in *. split.
  - cbn [length take foldl]. by rewrite Hc.
  - intros [|i] h Hi.
    + cbn in Hi. injection Hi as <-. cbn. by rewrite Hc.
    + cbn in Hi. cbn [take foldl lookup]. rewrite Hc. cbn [fst]. by apply IH2.
Qed.

(** What [publish] does when the name has a handler list. *)
Lemma publish_runs (eventName : string) (data : Data) (s : state World)
  (hs : list handler) :
  handlers s !! eventName = Some hs →
  invoked (publish call eventName data s) = hs
  ∧ (publish call eventName data s).1.1 = state_after call hs data s
  ∧ (∀ i h, hs !! i = Some h →
       (publish call eventName data s).1.2 !! i
       = Some (h, (call h data (state_before call hs data s i)).2)).
Proof.
  intros Hs. unfold publish. rewrite Hs.
  destruct (forEach_threads eventName hs data s) as [Hst Hcalls].
  split; [apply forEach_invoked|]. split; [exact Hst|exact Hcalls].
Qed.

(** C6. [publish] calls every handler subscribed to the name, in
    subscription order, whatever the earlier handlers did: each handler
    is run on the state that its predecessors left, a handler that throws
    is caught, its error is handed to [console.error], and the loop goes
    on; the state [publish] leaves is the one the last handler left.
    With two distinct handlers subscribed to a fresh name, the first of
    which always throws, the second is called exactly once, on the state
    the first one left. *)
Theorem publish_isolates_throwing_handlers (eventName : string) (data : Data)
  (s : state World) (hs : list handler) :
  handlers s !! eventName = Some hs →
  invoked (publish call eventName data s) = hs
  ∧ (publish call eventName data s).1.1 = state_after call hs data s
  ∧ (∀ i h, hs !! i = Some h →
       (publish call eventName data s).1.2 !! i
       = Some (h, (call h data (state_before call hs data s i)).2))
  ∧ (publish call eventName data s).2 = thrown eventName (publish call eventName data s).1.2
  ∧ (∀ h1 h2 : handler,
       hs = [] → h1 ≠ h2 →
       (∀ d s', ∃ err, (call h1 d s').2 = Threw err) →
       let s0 := subscribe eventName h2 (subscribe eventName h1 s) in
       let r := publish call eventName data s0 in
       invoked r = [h1; h2]
       ∧ count_occ Nat.eq_dec (invoked r) h2 = 1%nat
       ∧ r.1.1 = (call h2 data (call h1 data s0).1).1
       ∧ ∃ err, r.1.2 = [(h1, Threw err); (h2, (call h2 data (call h1 data s0).1).2)]
                ∧ head r.2 = Some (eventName, err)).
Proof.
  intros Hs. unfold publish at 1 2 3 4 5. rewrite Hs.
  destruct (forEach_threads eventName hs data s) as [Hst Hcalls].
  split; [apply forEach_invoked|]. split; [exact Hst|]. split; [exact Hcalls|].
  split; [apply forEach_errors|].
  intros h1 h2 Heq Hne Hthrow. subst hs.
  set (s0 := subscribe eventName h2 (subscribe eventName h1 s)).
  set (r := publish call eventName data s0).
  assert (Hl : handlers s0 !! eventName = Some [h1; h2]).
  { unfold s0. rewrite !subscribe_handlers. rewrite lookup_insert_eq. simpl.
    rewrite lookup_insert_eq. rewrite Hs. reflexivity. }
  assert (Hinv : invoked r = [h1; h2]).
  { unfold r, publish. rewrite Hl. apply forEach_invoked. }
  split; [exact Hinv|]. split.
  { rewrite Hinv. simpl. destruct (Nat.eq_dec h1 h2); [contradiction|].
    destruct (Nat.eq_dec h2 h2); [reflexivity|contradiction]. }
  unfold r, publish. rewrite Hl. simpl.
  destruct (Hthrow data s0) as [err He].
  destruct (call h1 data s0) as [s1 c]. simpl in He. subst c. cbn [fst snd].
  destruct (call h2 data s1) as [s2 c2]. simpl. eauto.
Qed.

End PublishProperties.

Lemma publish_isolates_throwing_handlers_witness :
  let s := Events.subscribe "tick" 1%nat (Events.subscribe "tick" 0%nat demo_bus) in
  Events.handlers s !! "tick" = Some [0%nat; 1%nat]
  ∧ Events.invoked (Events.publish demo_call "tick" tt s) = [0%nat; 1%nat]
  ∧ Events.world (Events.publish demo_call "tick" tt s).1.1 = 1%nat.
Proof.
  intros s.
  assert (H : Events.handlers s !! "tick" = Some [0%nat; 1%nat]) by (vm_compute; reflexivity).
  split; [exact H|].
  destruct (publish_isolates_throwing_handlers demo_call "tick" tt s [0%nat; 1%nat] H)
    as (H1 & H2 & _).
  split; [exact H1|]. rewrite H2. vm_compute. reflexivity.
Defined.

Lemma unsubscribe_removes_every_registration_witness :
  let s := Events.subscribe "tick" 7%nat
             (Events.subscribe "tick" 3%nat (Events.subscribe "tick" 7%nat demo_bus)) in
  Events.handlers s !! "tick" = Some [7%nat; 3%nat; 7%nat]
  ∧ ∃ s2, Events.unsubscribe "tick" 7%nat s = Some s2
          ∧ Events.handlers s2 !! "tick" = Some [3%nat].
Proof.
  intros s.
  assert (H : Events.handlers s !! "tick" = Some [7%nat; 3%nat; 7%nat])
    by (vm_compute; reflexivity).
  split; [exact H|].
  destruct (proj1 (unsubscribe_removes_every_registration "tick" 7%nat s _ H))
    as (s2 & Hu & Hh & _).
  exists s2. split; [exact Hu|exact Hh].
Defined.

(** C7, the claim as written, fails: after the same handler was
    subscribed twice, one call of the returned closure leaves no
    registration of it, and a publish calls it zero times, not once. *)
Lemma unsubscribe_twice_subscribed_counterexample :
  let s := Events.subscribe "tick" 7%nat (Events.subscribe "tick" 7%nat demo_bus) in
  Events.handlers s !! "tick" = Some [7%nat; 7%nat]
  ∧ ∃ s', Events.unsubscribe "tick" 7%nat s = Some s'
          ∧ Events.handlers s' !! "tick" = Some []
          ∧ Events.handlers s' !! "tick" ≠ Some [7%nat]
          ∧ Events.invoked (Events.publish demo_call "tick" tt s') = [].
Proof.
  split; [reflexivity|].
  eexists. split; [reflexivity|].
  split; [reflexivity|]. split; [discriminate|reflexivity].
Qed.

(* ===================================================================== *)
(** * Further properties of the event bus *)
(* ===================================================================== *)

Section BusBookkeeping.

Import Events BusReference.

Context {Data World : Type}.
Variable call : handler → Data → state World → state World * completion.

(** X1. For an event name that is no member of [Object.prototype]:
    [subscribe(name, h)] raises the subscriber count of [name] by one and
    leaves the count of every other name and the rest of the state as
    they were; a publish of [name] then calls the handlers that were
    subscribed before, in their order, and [h] last, on the state those
    left, and what [h] leaves is the state after the publish. *)
Theorem subscribe_appends_handler (eventName : string) (h : handler) (data : Data)
  (s : state World) :
  Js.own_key eventName →
  let before := default [] (handlers s !! eventName) in
  let s1 := subscribe eventName h s in
  getSubscriberCount eventName s1 = S (getSubscriberCount eventName s)
  ∧ (∀ other, other ≠ eventName →
       getSubscriberCount other s1 = getSubscriberCount other s)
  ∧ world s1 = world s
  ∧ invoked (publish call eventName data s1) = before ++ [h]
  ∧ (publish call eventName data s1).1.1
    = (call h data (state_after call before data s1)).1.
Proof.
  intros _ before s1.
  pose proof (subscribe_handlers eventName h s) as Hh. fold s1 before in Hh.
  assert (Hl : handlers s1 !! eventName = Some (before ++ [h]))
    by (by rewrite Hh, lookup_insert_eq).
  destruct (publish_runs call eventName data s1 _ Hl) as (Hinv & Hst & _).
  split; [|split; [|split; [|split]]].
  - unfold getSubscriberCount. rewrite Hl, length_app. cbn. subst before.
    destruct (handlers s !! eventName); cbn; lia.
  - intros other Ho. unfold getSubscriberCount. by rewrite Hh, lookup_insert_ne.
  - apply subscribe_world.
  - exact Hinv.
  - rewrite Hst. unfold state_after, state_before.
    rewrite !firstn_all, foldl_app. reflexivity.
Qed.

(** X2. After [clear()], for an event name that is no member of
    [Object.prototype]: the name has no subscriber, a publish calls
    nothing and changes nothing, the rest of the state is untouched, and
    an unsubscribe closure handed out earlier fails with a TypeError. *)
Theorem clear_silences_bus (eventName : string) (h : handler) (data : Data)
  (s : state World) :
  Js.own_key eventName →
  getSubscriberCount eventName (clear s) = 0%nat
  ∧ publish call eventName data (clear s) = (clear s, [], [])
  ∧ world (clear s) = world s
  ∧ unsubscribe eventName h (clear s) = None.
Proof.
  intros _. unfold getSubscriberCount, publish, unsubscribe, clear, set_handlers.
  cbn [handlers world]. by rewrite lookup_empty.
Qed.

(** X3. Once the unsubscribe closure of [h] under [name] has run, a
    publish of [name] calls exactly the handlers that were subscribed
    before, in the same order, without [h]: each of them on the state its
    predecessors left, and the state after the publish is the one the
    last of them left. *)
Theorem unsubscribed_handler_is_not_invoked (eventName : string) (h : handler)
  (data : Data) (s s2 : state World) (l : list handler) :
  handlers s !! eventName = Some l →
  unsubscribe eventName h s = Some s2 →
  let rest := filter (λ h', h' ≠ h) l in
  invoked (publish call eventName data s2) = rest
  ∧ (h ∉ invoked (publish call eventName data s2))
  ∧ (publish call eventName data s2).1.1 = state_after call rest data s2
  ∧ (∀ i h', rest !! i = Some h' →
       (publish call eventName data s2).1.2 !! i
       = Some (h', (call h' data (state_before call rest data s2 i)).2))
  ∧ world s2 = world s.
Proof.
  intros Hl Hu rest.
  unfold unsubscribe in Hu. rewrite Hl in Hu. injection Hu as <-.
  assert (Hh : handlers (set_handlers (insert eventName rest) s) !! eventName = Some rest)
    by (cbn; by rewrite lookup_insert_eq).
  assert (Hnot : h ∉ rest).
  { intros Hin. apply list_elem_of_filter in Hin as [Hn _]. by apply Hn. }
  destruct (publish_runs call eventName data _ _ Hh) as (Hinv & Hst & Hcalls).
  split; [exact Hinv|]. split; [exact (eq_ind_r (λ l', h ∉ l') Hnot Hinv)|].
  split; [exact Hst|]. split; [exact Hcalls|reflexivity].
Qed.

End BusBookkeeping.

Lemma subscribe_appends_handler_witness :
  Js.own_key "tick"
  ∧ Events.getSubscriberCount "tick" (Events.subscribe "tick" 5%nat demo_bus) = 1%nat
  ∧ Events.invoked (Events.publish demo_call "tick" tt (Events.subscribe "tick" 5%nat demo_bus))
    = [5%nat].
Proof.
  assert (H : Js.own_key "tick") by (apply (bool_decide_unpack _); vm_compute; exact I).
  split; [exact H|].
  destruct (subscribe_appends_handler demo_call "tick" 5%nat tt demo_bus H)
    as (H1 & _ & _ & H4 & _).
  split; [exact H1|exact H4].
Defined.

Lemma clear_silences_bus_witness :
  Js.own_key "tick"
  ∧ Events.getSubscriberCount "tick"
      (Events.clear (Events.subscribe "tick" 5%nat demo_bus)) = 0%nat.
Proof.
  assert (H : Js.own_key "tick") by (apply (bool_decide_unpack _); vm_compute; exact I).
  split; [exact H|].
  exact (proj1 (clear_silences_bus demo_call "tick" 5%nat tt
                  (Events.subscribe "tick" 5%nat demo_bus) H)).
Defined.

Lemma unsubscribed_handler_is_not_invoked_witness :
  let s := Events.subscribe "tick" 1%nat
             (Events.subscribe "tick" 2%nat
                (Events.subscribe "tick" 0%nat (Events.subscribe "tick" 1%nat demo_bus))) in
  Events.handlers s !! "tick" = Some [1%nat; 0%nat; 2%nat; 1%nat]
  ∧ ∃ s2, Events.unsubscribe "tick" 1%nat s = Some s2
          ∧ Events.invoked (Events.publish demo_call "tick" tt s2) = [0%nat; 2%nat]
          ∧ Events.world (Events.publish demo_call "tick" tt s2).1.1 = 1%nat.
Proof.
  intros s.
  assert (Hl : Events.handlers s !! "tick" = Some [1%nat; 0%nat; 2%nat; 1%nat])
    by (vm_compute; reflexivity).
  split; [exact Hl|].
  destruct (Events.unsubscribe "tick" 1%nat s) as [s2|] eqn:Hu;
    [|exfalso; vm_compute in Hu; discriminate Hu].
  exists s2. split; [reflexivity|].
  destruct (unsubscribed_handler_is_not_invoked demo_call "tick" 1%nat tt s s2 _ Hl Hu)
    as (H1 & _ & H3 & _).
  split; [exact H1|]. rewrite H3.
  vm_compute in Hu. injection Hu as <-. vm_compute. reflexivity.
Defined.

(* ===================================================================== *)
(** * Properties of the grid *)
(* ===================================================================== *)

Section GridProperties.

Import Game Reference.




(** C4. Moving an entity of an existing zone to a cell outside that
    zone's bounds returns [false] and leaves the whole state as it was:
    every occupancy bucket, the entity's grid position and its world
    position. *)
Theorem moveEntity_out_of_bounds (w : World) (e : eref) (ent : Entity) (zoneId : string)
  (zone : Zone) (newX newY : Z) :
  heap w !! e = Some ent →
  e_zoneId ent = Some zoneId →
  zones w !! zoneId = Some zone →
  ¬ (0 ≤ newX < z_width zone ∧ 0 ≤ newY < z_height zone) →
  moveEntity e newX newY w = (w, false)
  ∧ cells (moveEntity e newX newY w).1 = cells w
  ∧ heap (moveEntity e newX newY w).1 !! e = Some ent.
Proof.
  intros He Hz Hzone Hout.
  assert (Hm : moveEntity e newX newY w = (w, false)).
  { unfold moveEntity. rewrite He. unfold isValidPosition. rewrite Hz. simpl. rewrite Hzone.
    destruct (0 <=? newX) eqn:E1, (0 <=? newY) eqn:E2, (newX <? z_width zone) eqn:E3,
      (newY <? z_height zone) eqn:E4; simpl; try reflexivity.
    exfalso. apply Hout. lia. }
  rewrite Hm. auto.
Qed.

Lemma moveEntity_out_of_bounds_witness :
  (heap arena_world !! arena_actor = Some arena_actor_entity
   ∧ e_zoneId arena_actor_entity = Some "A"
   ∧ zones arena_world !! "A" = Some arena_zone_A
   ∧ ¬ (0 ≤ 7 < z_width arena_zone_A ∧ 0 ≤ 2 < z_height arena_zone_A))
  ∧ moveEntity arena_actor 7 2 arena_world = (arena_world, false).
Proof.
  assert (H1 : heap arena_world !! arena_actor = Some arena_actor_entity)
    by (vm_compute; reflexivity).
  assert (H2 : e_zoneId arena_actor_entity = Some "A") by reflexivity.
  assert (H3 : zones arena_world !! "A" = Some arena_zone_A) by (vm_compute; reflexivity).
  assert (H4 : ¬ (0 ≤ 7 < z_width arena_zone_A ∧ 0 ≤ 2 < z_height arena_zone_A))
    by (simpl; lia).
  split; [auto|].
  exact (proj1 (moveEntity_out_of_bounds arena_world arena_actor arena_actor_entity "A"
                  arena_zone_A 7 2 H1 H2 H3 H4)).
Defined.

(** C3 (as amended). [isWalkable] is [false] outside the zone and where
    the tile matrix has no tile id; elsewhere it is the layered rule:
    default [true]; turned off by a hazard (tag ['water'] on the ground
    entity, or tile id ['water'] or ['teleporter']) only when a ground
    entity stands on the cell; turned back on by that entity's tag
    ['walkable']; turned off by any excluded tag on that entity; turned
    off by a ['solid'] entity on the OBJECT layer.  In the 3×3 pond zone
    the water cell (1,1) is not walkable and the grass cell (0,0) is. *)
Theorem isWalkable_layered (w : World) (x y : Z) (requiredTags excludedTags : list string)
  (zoneId : option string) :
  isWalkable x y requiredTags excludedTags zoneId w
  = (isValidPosition x y zoneId w
     && match getTileAt x y zoneId w with
        | Some tileId =>
            layered (tile_tags_at x y zoneId w) tileId excludedTags (solid_at x y zoneId w)
        | None => false
        end)
  ∧ isWalkable 1 1 [] [] (Some "pond") pond_world = false
  ∧ isWalkable 0 0 [] [] (Some "pond") pond_world = true.
Proof.
  split; [|split; vm_compute; reflexivity].
  unfold isWalkable, layered, tile_tags_at, solid_at, any_excluded, hazard_id.
  destruct (isValidPosition x y zoneId w); [|reflexivity].
  destruct (getTileAt x y zoneId w) as [tileId|]; [|reflexivity].
  cbn [negb andb].
  destruct (existsb (hasTagRef "solid" w) (getEntitiesAt x y (Some OBJECT) zoneId w));
    [reflexivity|].
  destruct (head (getEntitiesAt x y (Some GROUND) zoneId w) ≫= λ r, heap w !! r)
    as [te|]; cbn [fmap option_fmap option_map has_tag negb andb].
  - destruct excludedTags as [|t ts].
    + cbn [existsb negb andb length]. case_decide; [simpl in *; lia|].
      destruct (includes "walkable" (e_tags te)); [reflexivity|].
      by destruct (includes "water" (e_tags te)), (String.eqb tileId "water"),
        (String.eqb tileId "teleporter").
    + case_decide; [|simpl in *; lia].
      destruct (existsb (λ tag, includes tag (e_tags te)) (t :: ts)); [reflexivity|].
      cbn [negb andb].
      destruct (includes "walkable" (e_tags te)); [reflexivity|].
      by destruct (includes "water" (e_tags te)), (String.eqb tileId "water"),
        (String.eqb tileId "teleporter").
  - replace (existsb (λ _ : string, false) excludedTags) with false; [reflexivity|].
    induction excludedTags; simpl; auto.
Qed.

(** C3, the claim as written, fails: a cell whose tile id is ['water']
    and on which no ground entity stands is walkable, while the rule of
    the claim turns it off. *)
Lemma isWalkable_bare_water_counterexample :
  isValidPosition 0 0 (Some "lake") bare_water_world = true
  ∧ getTileAt 0 0 (Some "lake") bare_water_world = Some "water"
  ∧ isWalkable 0 0 [] [] (Some "lake") bare_water_world = true
  ∧ layered_as_claimed (tile_tags_at 0 0 (Some "lake") bare_water_world) "water" []
      (solid_at 0 0 (Some "lake") bare_water_world) = false.
Proof. repeat split; vm_compute; reflexivity. Qed.

End GridProperties.

(* ===================================================================== *)
(** * Properties of the interactable component *)
(* ===================================================================== *)

Section InteractionProperties.

Import Game Reference.

Variable custom : nat → eref → Request → World → World * Events.completion.

(** C5. A request whose direction is not in the component's valid
    directions is rejected with no effect: the handler returns the state
    it was given, so nothing is published, no timer is started, no effect
    of any interaction type is executed, and the highlight flag of the
    component stays as it was (off when it was off). *)
Theorem invalid_direction_is_rejected (w : World) (self : eref) (data : Request)
  (entity : Entity) (this : InteractableComp) :
  heap w !! self = Some entity →
  c_interactable (e_components entity) = Some this →
  r_direction data ∉ i_validDirections this →
  handleInteraction custom self data w = (w, Events.Returned)
  ∧ published (handleInteraction custom self data w).1 = published w
  ∧ timers (handleInteraction custom self data w).1 = timers w
  ∧ (i_isHighlighted this = false →
     (heap (handleInteraction custom self data w).1 !! self
        ≫= λ e, i_isHighlighted <$> c_interactable (e_components e)) = Some false).
Proof.
  intros Hself Hcomp Hdir.
  assert (H : handleInteraction custom self data w = (w, Events.Returned)).
  { unfold handleInteraction. rewrite Hself.
    destruct (heap w !! r_target data) as [target|]; [|reflexivity].
    destruct (negb (String.eqb (e_id target) (e_id entity))); [reflexivity|].
    rewrite Hcomp. unfold includes. rewrite bool_decide_eq_false_2 by exact Hdir.
    reflexivity. }
  rewrite H. cbn [fst]. repeat split.
  intros Hoff. rewrite Hself. simpl. rewrite Hcomp. simpl. by rewrite Hoff.
Qed.

End InteractionProperties.

Lemma invalid_direction_is_rejected_witness :
  let data := Game.mkRequest Reference.arena_actor Reference.arena_portal "left" in
  let custom := λ (_ : nat) (_ : Game.eref) (_ : Game.Request) (w : Game.World),
                  (w, Events.Returned) in
  (Game.heap Reference.arena_world !! Reference.arena_portal
     = Some Reference.arena_portal_entity
   ∧ Game.c_interactable (Game.e_components Reference.arena_portal_entity)
     = Some Reference.arena_portal_component
   ∧ Game.r_direction data ∉ Game.i_validDirections Reference.arena_portal_component)
  ∧ Game.handleInteraction custom Reference.arena_portal data Reference.arena_world
    = (Reference.arena_world, Events.Returned).
Proof.
  intros data custom.
  assert (H1 : Game.heap Reference.arena_world !! Reference.arena_portal
               = Some Reference.arena_portal_entity) by (vm_compute; reflexivity).
  assert (H2 : Game.c_interactable (Game.e_components Reference.arena_portal_entity)
               = Some Reference.arena_portal_component) by reflexivity.
  assert (H3 : Game.r_direction data ∉ Game.i_validDirections Reference.arena_portal_component).
  { apply (bool_decide_unpack _). vm_compute. exact I. }
  split; [auto|].
  exact (proj1 (invalid_direction_is_rejected custom Reference.arena_world
                  Reference.arena_portal data _ _ H1 H2 H3)).
Defined.

(* ===================================================================== *)
(** * How the grid operations act on buckets, zones and entity objects *)
(* ===================================================================== *)

Section GridOperations.

Import Game Reference.

Ltac proj :=
  cbn [cells heap zones currentZone dims cellSize nextRef entities idCounter published
       subscriptions timers with_cells with_heap with_zones with_currentZone with_dims
       with_nextRef with_entities with_idCounter with_published with_subscriptions
       with_timers publish fst snd] in *.

Lemma bucket_push (k k' : cell_key) (e : eref) (w : World) :
  bucket k (push_to_cell k' e w)
  = if decide (k = k') then bucket k w ++ [e] else bucket k w.
Proof.
  unfold bucket, push_to_cell. proj. case_decide as Hk.
  - subst. by rewrite lookup_insert_eq.
  - by rewrite lookup_insert_ne.
Qed.

Lemma bucket_remove (k k' : cell_key) (e : eref) (w : World) :
  bucket k (remove_from_cell k' e w)
  = if decide (k = k') then remove_first e (bucket k w) else bucket k w.
Proof.
  unfold bucket, remove_from_cell.
  destruct (cells w !! k') as [l|] eqn:E; proj.
  - case_decide as Hk.
    + subst. by rewrite lookup_insert_eq, E.
    + by rewrite lookup_insert_ne.
  - case_decide as Hk; [subst; by rewrite E|done].
Qed.

Lemma elem_of_remove_first (e x : eref) (l : list eref) :
  x ∈ remove_first e l → x ∈ l.
Proof.
  induction l as [|a l IH]; simpl; [done|].
  destruct (decide (a = e)); rewrite !elem_of_cons.
  - by right.
  - intros [->|Hin]; [by left | right; by apply IH].
Qed.

Lemma elem_of_remove_first_ne (e x : eref) (l : list eref) :
  x ≠ e → x ∈ l → x ∈ remove_first e l.
Proof.
  intros Hne. induction l as [|a l IH]; simpl; [done|].
  destruct (decide (a = e)) as [->|Hae]; rewrite !elem_of_cons.
  - intros [->|Hin]; [done | exact Hin].
  - intros [->|Hin]; [by left | right; by apply IH].
Qed.

Lemma NoDup_remove_first (e : eref) (l : list eref) :
  NoDup l → NoDup (remove_first e l) ∧ e ∉ remove_first e l.
Proof.
  induction 1 as [|a l Ha Hl IH]; simpl.
  - split; [constructor | apply not_elem_of_nil].
  - case_decide as Hd.
    + subst. done.
    + destruct IH as [IH1 IH2]. split.
      * constructor; [|done]. intros Hin. apply Ha. by eapply elem_of_remove_first.
      * rewrite elem_of_cons. intros [Heq|Hin]; [by apply Hd | by apply IH2].
Qed.

Lemma update_entity_lookup (e e' : eref) (f : Entity → Entity) (w : World) :
  heap (update_entity e f w) !! e'
  = if decide (e' = e) then f <$> heap w !! e else heap w !! e'.
Proof.
  unfold update_entity. destruct (heap w !! e) as [ent|] eqn:E; proj.
  - case_decide; [subst; by rewrite lookup_insert_eq | by rewrite lookup_insert_ne].
  - case_decide; [subst; by rewrite E | done].
Qed.

Lemma update_entity_frame (e : eref) (f : Entity → Entity) (w : World) :
  cells (update_entity e f w) = cells w
  ∧ zones (update_entity e f w) = zones w
  ∧ currentZone (update_entity e f w) = currentZone w
  ∧ cellSize (update_entity e f w) = cellSize w
  ∧ published (update_entity e f w) = published w
  ∧ timers (update_entity e f w) = timers w.
Proof. unfold update_entity. by destruct (heap w !! e). Qed.

Lemma bucket_cells (k : cell_key) (w w' : World) :
  cells w' = cells w → bucket k w' = bucket k w.
Proof. unfold bucket. by intros ->. Qed.

Lemma isValidPosition_true (x y : Z) (zoneId : option string) (w : World) (zone : Zone) :
  zones w !! zone_key zoneId = Some zone →
  0 ≤ x < z_width zone → 0 ≤ y < z_height zone →
  isValidPosition x y zoneId w = true.
Proof.
  intros Hz Hx Hy. unfold isValidPosition. rewrite Hz.
  apply andb_true_intro; split; [apply andb_true_intro; split;
    [apply andb_true_intro; split|]|]; lia.
Qed.

Lemma truthy_Some (s : string) : s ≠ "" → truthy (Some s) = true.
Proof. intros H. simpl. apply negb_true_iff. by apply String.eqb_neq. Qed.

(** What a successful [registerEntity] does. *)
Lemma registerEntity_spec (e : eref) (x y : Z) (layer : Layer) (zoneId : option string)
  (w : World) (ent : Entity) (zone : Zone) :
  zones w !! zone_key zoneId = Some zone →
  heap w !! e = Some ent →
  isValidPosition x y zoneId w = true →
  let w' := (registerEntity e x y layer zoneId w).1 in
  (registerEntity e x y layer zoneId w).2 = true
  ∧ (∀ k, bucket k w'
          = if decide (k = key_of zoneId layer x y) then bucket k w ++ [e] else bucket k w)
  ∧ (∃ ent', heap w' !! e = Some ent'
             ∧ place ent' = (zoneId, layer, x, y)
             ∧ e_components ent' = e_components ent ∧ e_id ent' = e_id ent)
  ∧ (∀ e', e' ≠ e → heap w' !! e' = heap w !! e')
  ∧ currentZone w' = currentZone w
  ∧ cellSize w' = cellSize w
  ∧ published w' = published w
  ∧ timers w' = timers w
  ∧ (∀ z, z ≠ zone_key zoneId → zones w' !! z = zones w !! z)
  ∧ (∃ zone', zones w' !! zone_key zoneId = Some zone'
              ∧ z_width zone' = z_width zone ∧ z_height zone' = z_height zone
              ∧ z_entities zone'
                = if includes e (z_entities zone) then z_entities zone
                  else z_entities zone ++ [e]).
Proof.
  intros Hz He Hv w'. subst w'. unfold registerEntity. rewrite Hz, He, Hv. cbn [negb fst snd].
  set (w1 := push_to_cell (key_of zoneId layer x y) e w).
  set (ent1 := ent_with_position _ _).
  set (w2 := with_heap (<[e:=ent1]> (heap w1)) w1).
  assert (Hz2 : zones w2 !! zone_key zoneId = Some zone) by (subst w2 w1; exact Hz).
  rewrite Hz2.
  set (zone3 := if includes e (z_entities zone) then zone
                else zone_with_entities (z_entities zone ++ [e]) zone).
  set (w3 := if includes e (z_entities zone) then w2 else _).
  assert (Hz3 : zones w3 !! zone_key zoneId = Some zone3).
  { subst w3 zone3. destruct (includes e (z_entities zone)); [exact Hz2|].
    proj. by rewrite lookup_insert_eq. }
  assert (Hc3 : cells w3 = cells w1 ∧ heap w3 = <[e:=ent1]> (heap w) ∧
                currentZone w3 = currentZone w ∧ cellSize w3 = cellSize w ∧
                published w3 = published w ∧ timers w3 = timers w ∧
                (∀ z, z ≠ zone_key zoneId → zones w3 !! z = zones w !! z)).
  { subst w3. destruct (includes e (z_entities zone)); proj; repeat split; try done.
    intros z Hne. by rewrite lookup_insert_ne. }
  destruct Hc3 as (Hc & Hh & Hcz & Hcs & Hp & Ht & Hzo).
  rewrite Hz3.
  set (w4 := match layer with GROUND => _ | _ => w3 end).
  assert (H4 : cells w4 = cells w1 ∧ heap w4 = <[e:=ent1]> (heap w) ∧
               currentZone w4 = currentZone w ∧ cellSize w4 = cellSize w ∧
               published w4 = published w ∧ timers w4 = timers w ∧
               (∀ z, z ≠ zone_key zoneId → zones w4 !! z = zones w !! z) ∧
               ∃ zone', zones w4 !! zone_key zoneId = Some zone'
                 ∧ z_width zone' = z_width zone ∧ z_height zone' = z_height zone
                 ∧ z_entities zone' = z_entities zone3).
  { assert (Hsame : cells w3 = cells w1 ∧ heap w3 = <[e:=ent1]> (heap w) ∧
               currentZone w3 = currentZone w ∧ cellSize w3 = cellSize w ∧
               published w3 = published w ∧ timers w3 = timers w ∧
               (∀ z, z ≠ zone_key zoneId → zones w3 !! z = zones w !! z) ∧
               ∃ zone', zones w3 !! zone_key zoneId = Some zone'
                 ∧ z_width zone' = z_width zone ∧ z_height zone' = z_height zone
                 ∧ z_entities zone' = z_entities zone3).
    { repeat (split; [done|]). exists zone3. split; [done|].
      subst zone3. by destruct (includes e (z_entities zone)). }
    subst w4. destruct layer; try exact Hsame.
    destruct (tileTypeOf ent1) as [t|]; [|exact Hsame].
    proj. repeat (split; [done|]). split.
    - intros z Hne. rewrite lookup_insert_ne by done. by apply Hzo.
    - rewrite lookup_insert_eq. eexists; split; [reflexivity|].
      subst zone3. by destruct (includes e (z_entities zone)). }
  destruct H4 as (Hc4 & Hh4 & Hcz4 & Hcs4 & Hp4 & Ht4 & Hzo4 & zone' & Hz4 & Hw4 & Hhh4 & He4).
  split; [done|]. split.
  { intros k. rewrite (bucket_cells k w1 w4 Hc4). apply bucket_push. }
  split.
  { exists ent1. rewrite Hh4, lookup_insert_eq. done. }
  split.
  { intros e' Hne. rewrite Hh4. by rewrite lookup_insert_ne. }
  repeat (split; [done|]).
  exists zone'. repeat (split; [done|]). rewrite He4. subst zone3.
  by destruct (includes e (z_entities zone)).
Qed.

(** What a successful [unregisterEntity] does. *)
Lemma unregisterEntity_spec (e : eref) (w : World) (ent : Entity) (zoneId : string)
  (zone : Zone) :
  heap w !! e = Some ent →
  e_zoneId ent = Some zoneId → zoneId ≠ "" →
  zones w !! zoneId = Some zone →
  let w' := (unregisterEntity e w).1 in
  (unregisterEntity e w).2 = true
  ∧ (∀ k, bucket k w'
          = if decide (k = entity_key ent) then remove_first e (bucket k w) else bucket k w)
  ∧ heap w' = heap w
  ∧ currentZone w' = currentZone w
  ∧ cellSize w' = cellSize w
  ∧ published w' = published w
  ∧ timers w' = timers w
  ∧ (∀ z, z ≠ zoneId → zones w' !! z = zones w !! z)
  ∧ zones w' !! zoneId
    = Some (zone_with_entities (remove_first e (z_entities zone)) zone).
Proof.
  intros He Hid Hne Hz w'. subst w'. unfold unregisterEntity.
  rewrite He, Hid. cbn [zone_key]. rewrite Hz, (truthy_Some _ Hne). cbn [negb fst snd].
  set (w1 := remove_from_cell (entity_key ent) e w).
  assert (H1 : zones w1 = zones w ∧ heap w1 = heap w ∧ currentZone w1 = currentZone w
               ∧ cellSize w1 = cellSize w ∧ published w1 = published w
               ∧ timers w1 = timers w).
  { subst w1. unfold remove_from_cell. by destruct (cells w !! entity_key ent). }
  destruct H1 as (Hzo & Hh & Hc & Hcs & Hp & Ht).
  rewrite Hzo, Hz. proj.
  split; [done|]. split.
  { intros k. rewrite <- (bucket_remove k (entity_key ent) e w). by apply bucket_cells. }
  repeat (split; [done|]). split.
  - intros z Hzne. by rewrite lookup_insert_ne.
  - by rewrite lookup_insert_eq.
Qed.

(** What a successful [moveEntity] does. *)
Lemma moveEntity_spec (e : eref) (newX newY : Z) (w : World) (ent : Entity) :
  heap w !! e = Some ent →
  isValidPosition newX newY (e_zoneId ent) w = true →
  let w' := (moveEntity e newX newY w).1 in
  (moveEntity e newX newY w).2 = true
  ∧ (∀ k, bucket k w'
          = let b := if decide (k = entity_key ent) then remove_first e (bucket k w)
                     else bucket k w in
            if decide (k = key_of (e_zoneId ent) (e_layer ent) newX newY) then b ++ [e]
            else b)
  ∧ (∃ ent', heap w' !! e = Some ent'
             ∧ place ent' = (e_zoneId ent, e_layer ent, newX, newY)
             ∧ e_components ent' = e_components ent ∧ e_id ent' = e_id ent)
  ∧ (∀ e', e' ≠ e → heap w' !! e' = heap w !! e')
  ∧ zones w' = zones w
  ∧ currentZone w' = currentZone w
  ∧ cellSize w' = cellSize w.
Proof.
  intros He Hv w'. subst w'. unfold moveEntity. rewrite He, Hv. cbn [negb fst snd].
  set (w1 := remove_from_cell (entity_key ent) e w).
  set (w2 := push_to_cell _ e w1).
  assert (H1 : zones w1 = zones w ∧ heap w1 = heap w ∧ currentZone w1 = currentZone w
               ∧ cellSize w1 = cellSize w).
  { subst w1. unfold remove_from_cell. by destruct (cells w !! entity_key ent). }
  destruct H1 as (Hzo & Hh & Hc & Hcs).
  proj. split; [done|]. split.
  { intros k. unfold bucket at 1. proj. fold (bucket k w2). subst w2.
    rewrite bucket_push. subst w1. rewrite bucket_remove. cbn zeta.
    repeat case_decide; done. }
  split.
  { eexists. rewrite lookup_insert_eq. done. }
  split.
  { intros e' Hne. rewrite lookup_insert_ne by done. subst w2 w1.
    unfold push_to_cell, remove_from_cell. by destruct (cells w !! entity_key ent). }
  subst w2 w1. unfold push_to_cell, remove_from_cell.
  by destruct (cells w !! entity_key ent).
Qed.

Lemma setCurrentZone_spec (zoneId : string) (w : World) (zone : Zone) :
  zones w !! zoneId = Some zone →
  let w' := (setCurrentZone zoneId w).1 in
  (setCurrentZone zoneId w).2 = true
  ∧ currentZone w' = Some zoneId
  ∧ dims w' = (z_width zone, z_height zone)
  ∧ cells w' = cells w ∧ heap w' = heap w ∧ zones w' = zones w
  ∧ cellSize w' = cellSize w
  ∧ published w' = published w ++ [EvZoneChange zoneId]
  ∧ timers w' = timers w.
Proof. intros Hz. unfold setCurrentZone. rewrite Hz. done. Qed.

End GridOperations.

Section TeleportProperties.

Import Game Reference.

Variable custom : nat → eref → Request → World → World * Events.completion.

Lemma flash_frame (self : eref) (w : World) :
  cells (flash self w) = cells w
  ∧ currentZone (flash self w) = currentZone w
  ∧ (∀ e ent, heap w !! e = Some ent →
       ∃ ent', heap (flash self w) !! e = Some ent' ∧ place ent' = place ent).
Proof.
  unfold flash, update_components.
  destruct (update_entity_frame self
              (λ ent, ent_with_components
                 (match c_interactable (e_components ent) with
                  | Some i => comps_with_interactable
                                (Some (mkInteractable (i_interactionType i)
                                         (i_validDirections i) (i_interactionData i) true))
                                (e_components ent)
                  | None => e_components ent
                  end) ent) w) as (Hc & _ & Hcz & _).
  split; [exact Hc|]. split; [exact Hcz|].
  intros e ent He. cbn [heap with_timers]. rewrite update_entity_lookup.
  case_decide as Heq.
  - subst e. rewrite He. eexists. split; [reflexivity|]. reflexivity.
  - eauto.
Qed.

Lemma remove_first_once (e : eref) (l : list eref) :
  (count_occ Nat.eq_dec l e ≤ 1)%nat → e ∉ remove_first e l.
Proof.
  induction l as [|x l IH]; cbn; intros Hc; [apply not_elem_of_nil|].
  destruct (Nat.eq_dec x e) as [->|Hne].
  - rewrite decide_True by done. intros Hin.
    apply list_elem_of_In, (count_occ_In Nat.eq_dec) in Hin. lia.
  - rewrite decide_False by done. apply not_elem_of_cons. split; [done|]. by apply IH.
Qed.

(** What the handler of a teleport interactable does to the actor of a
    request it accepts, when the target zone differs from the actor's. *)
Lemma teleport_handler_relocates (w : World) (self : eref) (data : Request)
  (entity target actorEnt : Entity) (this : InteractableComp)
  (src dst : string) (zoneSrc zoneDst : Zone) (x y : Z) :
  heap w !! self = Some entity →
  c_interactable (e_components entity) = Some this →
  i_interactionType this = "teleport" →
  d_targetZone (i_interactionData this) = Some dst →
  d_targetX (i_interactionData this) = Some x →
  d_targetY (i_interactionData this) = Some y →
  dst ≠ "" →
  zones w !! dst = Some zoneDst →
  0 ≤ x < z_width zoneDst → 0 ≤ y < z_height zoneDst →
  heap w !! r_target data = Some target →
  e_id target = e_id entity →
  r_direction data ∈ i_validDirections this →
  heap w !! r_actor data = Some actorEnt →
  e_zoneId actorEnt = Some src → src ≠ "" → src ≠ dst →
  zones w !! src = Some zoneSrc →
  (∀ k, r_actor data ∈ bucket k w → k = entity_key actorEnt) →
  (count_occ Nat.eq_dec (bucket (entity_key actorEnt) w) (r_actor data) ≤ 1)%nat →
  let w' := (handleInteraction custom self data w).1 in
  (∃ actor', heap w' !! r_actor data = Some actor'
             ∧ e_zoneId actor' = Some dst
             ∧ e_gridX actor' = x ∧ e_gridY actor' = y
             ∧ e_layer actor' = e_layer actorEnt)
  ∧ (∀ k : cell_key, k.1.1.1 = src → r_actor data ∉ bucket k w')
  ∧ r_actor data ∈ bucket (key_of (Some dst) (e_layer actorEnt) x y) w'
  ∧ currentZone w' = Some dst.
Proof.
  intros Hself Hcomp Htype HdZ Hdx Hdy HZne HzZ Hx Hy Htarget Hid Hdir Hactor HA HAne HAZ HzA
    Honly Hnodup w'.
  set (actor := r_actor data) in *.
  (* the handler reaches the teleport branch *)
  assert (Hrun : w' = flash self (_handleTeleportInteraction this self data w)).
  { subst w'. unfold handleInteraction. rewrite Hself, Htarget, Hid, String.eqb_refl.
    cbn [negb]. rewrite Hcomp. unfold includes. rewrite bool_decide_eq_true_2 by exact Hdir.
    cbn [negb]. unfold dispatch. rewrite Htype. reflexivity. }
  (* the zone-changing branch of the teleport *)
  destruct (unregisterEntity_spec actor w actorEnt src zoneSrc Hactor HA HAne HzA)
    as (_ & Hba & Hha & Hcza & Hcsa & _ & _ & Hzoa & _).
  set (wa := (unregisterEntity actor w).1) in *.
  assert (HzZa : zones wa !! dst = Some zoneDst) by (rewrite Hzoa; [done | congruence]).
  destruct (setCurrentZone_spec dst wa zoneDst HzZa)
    as (_ & Hczb & _ & Hcb & Hhb & Hzob & Hcsb & _ & _).
  set (wb := (setCurrentZone dst wa).1) in *.
  set (wc := update_entity actor (ent_with_zoneId (Some dst)) wb).
  destruct (update_entity_frame actor (ent_with_zoneId (Some dst)) wb)
    as (Hcc & Hzoc & Hczc & Hcsc & _ & _).
  fold wc in Hcc, Hzoc, Hczc, Hcsc.
  assert (Hhc : heap wc !! actor = Some (ent_with_zoneId (Some dst) actorEnt)).
  { subst wc. rewrite update_entity_lookup. rewrite decide_True by done.
    by rewrite Hhb, Hha, Hactor. }
  assert (HzZc : zones wc !! zone_key (Some dst) = Some zoneDst).
  { cbn [zone_key]. by rewrite Hzoc, Hzob. }
  assert (Hvalid : isValidPosition x y (Some dst) wc = true)
    by (by eapply isValidPosition_true).
  destruct (registerEntity_spec actor x y (e_layer actorEnt) (Some dst) wc _ zoneDst HzZc Hhc Hvalid)
    as (_ & Hbd & (ent' & Hhd & Hplace & _) & _ & Hczd & _).
  set (wd := (registerEntity actor x y (e_layer actorEnt) (Some dst) wc).1) in *.
  assert (Htele : _handleTeleportInteraction this self data w
                  = update_components actor (reset_player x y)
                      (update_entity actor (ent_with_position (gridToWorld x y wd)) wd)).
  { unfold _handleTeleportInteraction. rewrite HdZ, Hdx, Hdy, (truthy_Some _ HZne).
    cbn [negb]. fold actor. rewrite Hactor. cbn [mbind option_bind]. rewrite HA.
    rewrite decide_True by congruence.
    fold wa. fold wb. fold wc. rewrite Hhc. reflexivity. }
  set (we := update_entity actor (ent_with_position (gridToWorld x y wd)) wd) in *.
  set (wf := update_components actor (reset_player x y) we) in *.
  destruct (update_entity_frame actor (ent_with_position (gridToWorld x y wd)) wd)
    as (Hce & _ & Hcze & _).
  fold we in Hce, Hcze.
  destruct (update_entity_frame actor
              (λ ent, ent_with_components (reset_player x y (e_components ent)) ent) we)
    as (Hcf & _ & Hczf & _).
  change (update_entity actor _ we) with wf in Hcf, Hczf.
  assert (Hhf : ∃ ent'', heap wf !! actor = Some ent'' ∧ place ent'' = place ent').
  { subst wf we. unfold update_components. rewrite !update_entity_lookup.
    rewrite !decide_True by done. rewrite Hhd. eexists. split; reflexivity. }
  destruct Hhf as (ent'' & Hhf & Hplf).
  destruct (flash_frame self wf) as (Hcg & Hczg & Hhg).
  destruct (Hhg actor ent'' Hhf) as (ent3 & Hh3 & Hpl3).
  rewrite <- Htele in *. rewrite <- Hrun in *.
  assert (Hbucket : ∀ k, bucket k w'
            = if decide (k = key_of (Some dst) (e_layer actorEnt) x y)
              then bucket k wc ++ [actor] else bucket k wc).
  { intros k. rewrite <- Hbd. apply bucket_cells. congruence. }
  assert (Hbc : ∀ k, bucket k wc
            = if decide (k = entity_key actorEnt) then remove_first actor (bucket k w)
              else bucket k w).
  { intros k. rewrite <- Hba. apply bucket_cells. congruence. }
  split; [|split; [|split]].
  - exists ent3. split; [exact Hh3|].
    unfold place in Hpl3, Hplf, Hplace.
    injection Hpl3 as ? ? ? ?. injection Hplf as ? ? ? ?. injection Hplace as ? ? ? ?.
    repeat split; congruence.
  - intros k Hk. rewrite Hbucket. rewrite decide_False.
    2:{ intros ->. cbn in Hk. congruence. }
    rewrite Hbc. case_decide as Hke.
    + subst k. by apply remove_first_once.
    + intros Hin. apply Hke. by apply Honly.
  - rewrite Hbucket. rewrite decide_True by done.
    apply elem_of_app. right. by apply list_elem_of_singleton.
  - congruence.
Qed.

End TeleportProperties.

(* ===================================================================== *)
(** * Properties of the entity registry *)
(* ===================================================================== *)

Section RegistryProperties.

Import Game Reference.

Lemma update_entity_registry (e : eref) (f : Entity → Entity) (w : World) :
  registry_state (update_entity e f w) = registry_state w.
Proof. unfold update_entity. by destruct (heap w !! e). Qed.

Lemma addTag_registry (tag : string) (e : eref) (w : World) :
  registry_state (addTag tag e w).1 = registry_state w.
Proof.
  unfold addTag. destruct (heap w !! e) as [ent|]; [|done].
  destruct (includes tag (e_tags ent)); [done|]. apply update_entity_registry.
Qed.

Lemma addTags_registry (tags : list string) (e : eref) (w : World) :
  registry_state (foldl (λ acc tag, (addTag tag e acc).1) w tags) = registry_state w.
Proof.
  revert w. induction tags as [|t ts IH]; intros w; [done|].
  simpl. rewrite IH. apply addTag_registry.
Qed.

Lemma addComponent_registry (e : eref) (type : string) (cfg : CompConfig) (w : World) :
  registry_state (addComponent_run e type cfg w).1 = registry_state w.
Proof.
  unfold addComponent_run, update_components.
  destruct (String.eqb type "tile").
  { unfold tile_init. cbn [fst]. rewrite update_entity_registry, addTags_registry.
    destruct (default true (cfg_walkable cfg)); [apply addTag_registry|done]. }
  destruct (String.eqb type "player").
  { unfold player_init. cbn [fst]. apply (addTag_registry "player" e w). }
  destruct (String.eqb type "interactable"); [|done].
  unfold interactable_init. cbn [fst]. rewrite update_entity_registry.
  unfold subscribe. apply (addTag_registry "interactable" e w).
Qed.

Lemma addComponents_registry (e : eref) (comps : list (string * CompConfig)) (w : World) :
  registry_state (addComponents e comps w).1 = registry_state w.
Proof.
  revert w. induction comps as [|c cs IH]; intros w; [done|].
  cbn [addComponents]. pose proof (addComponent_registry e c.1 c.2 w) as H.
  destruct (addComponent_run e c.1 c.2 w) as [w1 r]. cbn [fst] in H.
  destruct r; cbn [fst]; first [by rewrite IH | done].
Qed.

(** One [createEntity] without a truthy [config.id]. *)
Lemma createEntity_generated (type : string) (config : Config) (w : World) :
  truthy (c_id config) = false →
  let id := "entity-" +:+ pretty (idCounter w + 1)%N in
  (createEntity type config w).2 = id
  ∧ idCounter (createEntity type config w).1.1 = (idCounter w + 1)%N
  ∧ entities (createEntity type config w).1.1 = <[id := nextRef w]> (entities w).
Proof.
  intros Hid id. unfold createEntity, createEntity_run. rewrite Hid. cbn [generateId].
  match goal with
  | |- context [addComponents ?r ?l ?w0] =>
      pose proof (addComponents_registry r l w0) as Hreg;
      destruct (addComponents r l w0) as [w4 c]
  end.
  unfold registry_state in Hreg. cbn in Hreg.
  injection Hreg as Hc He Hn.
  destruct c; cbn; (split; [reflexivity|]; split; [exact Hc|exact He]).
Qed.

Lemma ids_from_S (c : N) (n : nat) :
  ids_from c (S n) = ("entity-" +:+ pretty (c + 1)%N) :: ids_from (c + 1) n.
Proof.
  unfold ids_from. cbn [seq fmap list_fmap]. f_equal.
  rewrite <- fmap_S_seq, <- list_fmap_compose.
  apply list_fmap_ext. intros i x _. cbn. do 2 f_equal. lia.
Qed.

Lemma ids_from_inv (c : N) (n : nat) (id : string) :
  id ∈ ids_from c n → ∃ k : N, (c < k)%N ∧ id = "entity-" +:+ pretty k.
Proof.
  unfold ids_from. intros Hin. apply list_elem_of_fmap in Hin as (i & -> & Hi).
  apply elem_of_seq in Hi. exists (c + N.of_nat i)%N. split; [lia|done].
Qed.

Lemma entity_id_inj (a b : N) :
  "entity-" +:+ pretty a = "entity-" +:+ pretty b → a = b.
Proof.
  intros H. apply (inj (String.app "entity-")) in H. by apply (inj pretty) in H.
Qed.

Lemma ids_from_NoDup (c : N) (n : nat) : NoDup (ids_from c n).
Proof.
  unfold ids_from. apply NoDup_fmap_2_strong; [|apply NoDup_seq].
  intros i j _ _ H. apply entity_id_inj in H. lia.
Qed.

Lemma createAll_generated (calls : list (string * Config)) (w : World) :
  Forall (λ tc, truthy (c_id tc.2) = false) calls →
  (createAll calls w).2 = ids_from (idCounter w) (length calls)
  ∧ idCounter (createAll calls w).1 = (idCounter w + N.of_nat (length calls))%N
  ∧ dom (entities (createAll calls w).1)
    = dom (entities w) ∪ list_to_set (ids_from (idCounter w) (length calls)).
Proof.
  revert w. induction calls as [|[type config] rest IH]; intros w Hall.
  { cbn. split; [done|]. split; [lia|]. by rewrite union_empty_r_L. }
  apply Forall_cons in Hall as [Hid Hrest]. cbn in Hid.
  destruct (createEntity_generated type config w Hid) as (Hi & Hc & He).
  cbn [createAll].
  destruct (createEntity type config w) as [[w1 r] id]. cbn [fst snd] in Hi, Hc, He.
  destruct (IH w1 Hrest) as (IHi & IHc & IHe).
  destruct (createAll rest w1) as [w2 ids]. cbn [fst snd] in *.
  cbn [length]. rewrite ids_from_S. subst id ids. rewrite Hc in *.
  split; [done|]. split; [lia|].
  rewrite IHe, He, dom_insert_L, list_to_set_cons.
  rewrite (comm_L (∪) {[_]} (dom (entities w))). symmetry. apply assoc_L. apply _.
Qed.

(** C10 (as amended). In a run of [createEntity] calls none of which
    passes an id ([config.id] absent or empty), made while the id counter
    stays below 2^53, the ids given to the new entities are ['entity-']
    followed by the consecutive counter values, pairwise distinct.  When
    every id of the registry came from the generator (an empty registry
    is such a one; a registry holding an explicit id, as templates
    supply it, need not be), none of the new ids was a key of the
    registry before the run: the registry grows by one entry per call,
    and all its ids still come from the generator. *)
Theorem generated_ids_are_distinct (calls : list (string * Config)) (w : World) :
  Forall (λ tc, truthy (c_id tc.2) = false) calls →
  (idCounter w + N.of_nat (length calls) < 2 ^ 53)%N →
  (createAll calls w).2 = ids_from (idCounter w) (length calls)
  ∧ NoDup (createAll calls w).2
  ∧ idCounter (createAll calls w).1 = (idCounter w + N.of_nat (length calls))%N
  ∧ (generated_registry w →
     (∀ id, id ∈ (createAll calls w).2 → entities w !! id = None)
     ∧ size (entities (createAll calls w).1) = (size (entities w) + length calls)%nat
     ∧ generated_registry (createAll calls w).1).
Proof.
  intros Hall _.
  destruct (createAll_generated calls w Hall) as (Hids & Hc & Hdom).
  rewrite Hids. split; [done|]. split; [apply ids_from_NoDup|]. split; [exact Hc|].
  intros Hgen.
  assert (Hfresh : ∀ id, id ∈ ids_from (idCounter w) (length calls) → entities w !! id = None).
  { intros id Hin. apply ids_from_inv in Hin as (k & Hk & ->).
    destruct (entities w !! ("entity-" +:+ pretty k)) as [r|] eqn:E; [|done].
    destruct (Hgen _ (mk_is_Some _ _ E)) as (k' & Hk' & Heq).
    apply entity_id_inj in Heq. lia. }
  split; [exact Hfresh|]. split.
  - rewrite <- !size_dom, Hdom, size_union.
    + rewrite size_list_to_set by apply ids_from_NoDup.
      unfold ids_from. by rewrite length_fmap, length_seq.
    + intros id Hin1 Hin2. apply elem_of_dom in Hin1. apply elem_of_list_to_set in Hin2.
      rewrite (Hfresh id Hin2) in Hin1. by destruct Hin1.
  - intros id Hid. apply elem_of_dom in Hid. rewrite Hdom in Hid.
    apply elem_of_union in Hid as [Hid|Hid].
    + apply elem_of_dom in Hid. destruct (Hgen id Hid) as (k & Hk & ->).
      exists k. split; [lia|done].
    + apply elem_of_list_to_set in Hid. unfold ids_from in Hid.
      apply list_elem_of_fmap in Hid as (i & -> & Hi). apply elem_of_seq in Hi.
      exists (idCounter w + N.of_nat i)%N. split; [lia|done].
Qed.

End RegistryProperties.

Lemma generated_ids_are_distinct_witness :
  let blank := Game.mkConfig None None None None None None None None [] in
  let calls := [("rock", blank); ("tree", blank); ("rock", blank)] in
  (Forall (λ tc, Game.truthy (Game.c_id tc.2) = false) calls
   ∧ (Game.idCounter Reference.arena_world + N.of_nat (length calls) < 2 ^ 53)%N)
  ∧ (Game.createAll calls Reference.arena_world).2 = ["entity-3"; "entity-4"; "entity-5"].
Proof.
  intros blank calls.
  assert (H1 : Forall (λ tc, Game.truthy (Game.c_id tc.2) = false) calls)
    by (repeat constructor).
  assert (H2 : (Game.idCounter Reference.arena_world + N.of_nat (length calls) < 2 ^ 53)%N)
    by (vm_compute; reflexivity).
  split; [auto|].
  exact (proj1 (generated_ids_are_distinct calls Reference.arena_world H1 H2)).
Defined.

(** C10, the claim as written, fails.  The registry holds an entity that
    was created with the explicit id ['entity-1'] while the counter
    stands at 0.  A [createEntity] without an id then generates
    ['entity-1'] as well and files its entity under it: the entry of the
    first entity is overwritten, and the registry still has one entry. *)
Lemma generated_id_overwrites_counterexample :
  let blank := Game.mkConfig None None None None None None None None [] in
  let r := Game.createEntity "tree" blank Scenarios.named_world in
  Game.truthy (Game.c_id blank) = false
  ∧ Game.idCounter Scenarios.named_world = 0%N
  ∧ Game.entities Scenarios.named_world !! "entity-1" = Some 0%nat
  ∧ r.2 = "entity-1"
  ∧ r.1.2 = 1%nat
  ∧ Game.entities r.1.1 !! "entity-1" = Some 1%nat
  ∧ Game.entities r.1.1 !! "entity-1" ≠ Game.entities Scenarios.named_world !! "entity-1"
  ∧ size (Game.entities r.1.1) = size (Game.entities Scenarios.named_world).
Proof.
  cbv zeta. repeat split; try (vm_compute; reflexivity). vm_compute. discriminate.
Qed.

(* ===================================================================== *)
(** * The occupancy invariant *)
(* ===================================================================== *)

Section OccupancyInvariant.

Import Game Reference.

Lemma registerEntity_cases (e : eref) (x y : Z) (layer : Layer) (zoneId : option string)
  (w : World) :
  (registerEntity e x y layer zoneId w).1 = w
  ∨ ∃ ent zone, zones w !! zone_key zoneId = Some zone ∧ heap w !! e = Some ent
                ∧ isValidPosition x y zoneId w = true.
Proof.
  unfold registerEntity.
  destruct (zones w !! zone_key zoneId) as [zone|] eqn:Hz; [|by left].
  destruct (heap w !! e) as [ent|] eqn:He; [|by left].
  destruct (isValidPosition x y zoneId w) eqn:Hv; [|by left].
  right. eauto.
Qed.

Lemma moveEntity_cases (e : eref) (newX newY : Z) (w : World) :
  (moveEntity e newX newY w).1 = w
  ∨ ∃ ent, heap w !! e = Some ent ∧ isValidPosition newX newY (e_zoneId ent) w = true.
Proof.
  unfold moveEntity. destruct (heap w !! e) as [ent|] eqn:He; [|by left].
  destruct (isValidPosition newX newY (e_zoneId ent) w) eqn:Hv; [|by left].
  right. eauto.
Qed.

Lemma unregisterEntity_cases (e : eref) (w : World) :
  (unregisterEntity e w).1 = w
  ∨ ∃ ent zoneId zone, heap w !! e = Some ent ∧ e_zoneId ent = Some zoneId
                       ∧ zoneId ≠ "" ∧ zones w !! zoneId = Some zone.
Proof.
  unfold unregisterEntity. destruct (heap w !! e) as [ent|] eqn:He; [|by left].
  destruct (e_zoneId ent) as [zoneId|] eqn:Hid; cbn [zone_key truthy].
  - destruct (zones w !! zoneId) as [zone|] eqn:Hz; [|by left].
    destruct (String.eqb zoneId "") eqn:Hs; cbn [negb]; [by left|].
    right. exists ent, zoneId, zone. repeat split; try done.
    by apply String.eqb_neq.
  - left. by destruct (zones w !! "null").
Qed.

Lemma entity_key_place (a b : Entity) : place a = place b → entity_key a = entity_key b.
Proof. unfold place, entity_key. by intros [= -> -> -> ->]. Qed.

Lemma unoccupied_inv (w : World) : unoccupied w → grid_inv w.
Proof.
  intros [Hb Hz]. split.
  - intros k e. rewrite Hb. by intros ?%not_elem_of_nil.
  - intros k. rewrite Hb. constructor.
  - intros z zone e Hzone. rewrite (Hz z zone Hzone). by intros ?%not_elem_of_nil.
  - intros e ent _. rewrite Hb. by intros ?%not_elem_of_nil.
  - intros z zone Hzone. rewrite (Hz z zone Hzone). constructor.
Qed.

(** An entity that is not on the grid is in no bucket and in no zone list. *)
Lemma unregistered_nowhere (w : World) (e : eref) :
  grid_inv w → ¬ registered e w →
  (∀ k, e ∉ bucket k w)
  ∧ (∀ z zone, zones w !! z = Some zone → e ∉ z_entities zone).
Proof.
  intros Hinv Hnot. split.
  - intros k Hin. destruct (inv_own_bucket w Hinv k e Hin) as (ent & He & ->).
    apply Hnot. by exists ent.
  - intros z zone Hz Hin.
    destruct (inv_zone_member w Hinv z zone e Hz Hin) as (ent & He & _ & Hb).
    apply Hnot. by exists ent.
Qed.

Lemma register_preserves (e : eref) (x y : Z) (layer : Layer) (zoneId : option string)
  (w : World) :
  grid_inv w → ¬ registered e w →
  grid_inv (registerEntity e x y layer zoneId w).1.
Proof.
  intros Hinv Hnot.
  destruct (registerEntity_cases e x y layer zoneId w)
    as [->|(ent & zone & Hz & He & Hv)]; [done|].
  destruct (unregistered_nowhere w e Hinv Hnot) as [Hnb Hnz].
  destruct (registerEntity_spec e x y layer zoneId w ent zone Hz He Hv)
    as (_ & Hb & (ent' & He' & Hpl & _) & Hother & _ & _ & _ & _ & Hzo
        & (zone' & Hz' & _ & _ & Hents)).
  set (w' := (registerEntity e x y layer zoneId w).1) in *.
  assert (Hkey : entity_key ent' = key_of zoneId layer x y).
  { unfold place in Hpl. unfold entity_key. by injection Hpl as -> -> -> ->. }
  assert (Hzk : zone_key (e_zoneId ent') = zone_key zoneId).
  { unfold place in Hpl. by injection Hpl as -> _ _ _. }
  assert (Hincl : includes e (z_entities zone) = false).
  { apply bool_decide_eq_false_2. by apply (Hnz _ _ Hz). }
  rewrite Hincl in Hents.
  assert (Hmem : ∀ k e0, e0 ∈ bucket k w' ↔
                   e0 ∈ bucket k w ∨ (e0 = e ∧ k = key_of zoneId layer x y)).
  { intros k e0. rewrite Hb. case_decide as Hk.
    - rewrite elem_of_app, list_elem_of_singleton. naive_solver.
    - naive_solver. }
  assert (Hheap : ∀ e0, e0 ≠ e → heap w' !! e0 = heap w !! e0) by exact Hother.
  split.
  - intros k e0 Hin. apply Hmem in Hin as [Hin|[-> ->]].
    + destruct (inv_own_bucket w Hinv k e0 Hin) as (ent0 & He0 & ->).
      exists ent0. split; [|done]. rewrite Hheap; [done|]. intros ->. by apply (Hnb _ Hin).
    + exists ent'. by rewrite Hkey.
  - intros k. rewrite Hb. case_decide.
    + apply NoDup_app. split; [apply (inv_bucket_nodup w Hinv)|]. split.
      * intros e0 Hin ->%list_elem_of_singleton. by apply (Hnb _ Hin).
      * apply NoDup_singleton.
    + apply (inv_bucket_nodup w Hinv).
  - intros z zone0 e0 Hz0 Hin0.
    assert (Hold : ∀ zone1, zones w !! z = Some zone1 → e0 ∈ z_entities zone1 →
              ∃ ent0, heap w' !! e0 = Some ent0 ∧ z = zone_key (e_zoneId ent0)
                      ∧ e0 ∈ bucket (entity_key ent0) w').
    { intros zone1 Hz1 Hin1.
      destruct (inv_zone_member w Hinv z zone1 e0 Hz1 Hin1) as (ent0 & He0 & Hzz & Hb0).
      exists ent0. split; [|split; [done|]].
      - rewrite Hheap; [done|]. intros ->. by apply (Hnz _ _ Hz1).
      - apply Hmem. by left. }
    destruct (decide (z = zone_key zoneId)) as [->|Hne].
    + rewrite Hz' in Hz0. injection Hz0 as <-. rewrite Hents in Hin0.
      apply elem_of_app in Hin0 as [Hin0|Hin0].
      * by apply (Hold zone).
      * apply list_elem_of_singleton in Hin0. subst e0. exists ent'. split; [done|]. split; [done|]. rewrite Hkey. apply Hmem. by right.
    + rewrite Hzo in Hz0 by done. by apply (Hold zone0).
  - intros e0 ent0 He0 Hin0. destruct (decide (e0 = e)) as [->|Hne].
    + rewrite He' in He0. injection He0 as <-. rewrite Hzk. exists zone'.
      split; [done|]. rewrite Hents. apply elem_of_app. right. by apply list_elem_of_singleton.
    + rewrite Hheap in He0 by done.
      apply Hmem in Hin0 as [Hin0|[? _]]; [|done].
      destruct (inv_bucket_zone w Hinv e0 ent0 He0 Hin0) as (zone0 & Hz0 & Hm0).
      destruct (decide (zone_key (e_zoneId ent0) = zone_key zoneId)) as [Heq|Hzne].
      * rewrite Heq in *. rewrite Hz in Hz0. injection Hz0 as <-.
        exists zone'. split; [done|]. rewrite Hents. apply elem_of_app. by left.
      * exists zone0. split; [|done]. by rewrite Hzo.
  - intros z zone0 Hz0. destruct (decide (z = zone_key zoneId)) as [->|Hne].
    + rewrite Hz' in Hz0. injection Hz0 as <-. rewrite Hents.
      apply NoDup_app. split; [apply (inv_zone_nodup w Hinv _ _ Hz)|]. split.
      * intros e0 Hin ->%list_elem_of_singleton. by apply (Hnz _ _ Hz).
      * apply NoDup_singleton.
    + rewrite Hzo in Hz0 by done. apply (inv_zone_nodup w Hinv _ _ Hz0).
Qed.

Lemma elem_of_remove_first_iff (e x : eref) (l : list eref) :
  NoDup l → x ∈ remove_first e l ↔ x ≠ e ∧ x ∈ l.
Proof.
  intros Hl. split.
  - intros Hin. split; [|by eapply elem_of_remove_first].
    intros ->. by apply (NoDup_remove_first e l Hl).
  - intros [Hne Hin]. by apply elem_of_remove_first_ne.
Qed.

Lemma move_preserves (e : eref) (newX newY : Z) (w : World) :
  grid_inv w → registered e w → grid_inv (moveEntity e newX newY w).1.
Proof.
  intros Hinv (ent0 & Hent0 & Hreg).
  destruct (moveEntity_cases e newX newY w) as [->|(ent & He & Hv)]; [done|].
  rewrite Hent0 in He. injection He as <-. rename ent0 into ent.
  destruct (moveEntity_spec e newX newY w ent Hent0 Hv)
    as (_ & Hb & (ent' & He' & Hpl & _) & Hheap & Hzo & _).
  set (w' := (moveEntity e newX newY w).1) in *.
  set (knew := key_of (e_zoneId ent) (e_layer ent) newX newY) in *.
  assert (Hkey : entity_key ent' = knew).
  { unfold place in Hpl. unfold entity_key, knew. by injection Hpl as -> -> -> ->. }
  assert (Hzk : e_zoneId ent' = e_zoneId ent).
  { unfold place in Hpl. by injection Hpl as -> _ _ _. }
  assert (Honly : ∀ k, e ∈ bucket k w → k = entity_key ent).
  { intros k Hin. destruct (inv_own_bucket w Hinv k e Hin) as (ent1 & He1 & ->).
    congruence. }
  assert (Hmem : ∀ k e0, e0 ∈ bucket k w' ↔
                   (e0 ≠ e ∧ e0 ∈ bucket k w) ∨ (e0 = e ∧ k = knew)).
  { intros k e0. rewrite Hb. cbn zeta.
    pose proof (inv_bucket_nodup w Hinv k) as Hnd.
    destruct (decide (k = entity_key ent)) as [Hk|Hk];
      destruct (decide (k = knew)) as [Hk'|Hk'];
      rewrite ?elem_of_app, ?list_elem_of_singleton, ?elem_of_remove_first_iff by done.
    - naive_solver.
    - naive_solver.
    - split; [|naive_solver]. intros [Hin|Heq]; [|by right].
      left. split; [|done]. intros ->. by apply Hk, Honly.
    - split; [|naive_solver]. intros Hin. left. split; [|done].
      intros ->. by apply Hk, Honly. }
  split.
  - intros k e0 Hin. apply Hmem in Hin as [[Hne Hin]|[-> ->]].
    + destruct (inv_own_bucket w Hinv k e0 Hin) as (ent1 & He1 & ->).
      exists ent1. by rewrite Hheap.
    + exists ent'. by rewrite Hkey.
  - intros k. rewrite Hb. cbn zeta.
    pose proof (inv_bucket_nodup w Hinv k) as Hnd.
    assert (Hb1 : NoDup (if decide (k = entity_key ent) then remove_first e (bucket k w)
                         else bucket k w)).
    { case_decide; [exact (proj1 (NoDup_remove_first e _ Hnd))|done]. }
    destruct (decide (k = knew)) as [Hk'|Hk']; [|done].
    apply NoDup_app. split; [done|]. split; [|apply NoDup_singleton].
    intros e0 Hin ->%list_elem_of_singleton. revert Hin.
    destruct (decide (k = entity_key ent)) as [Hk|Hk].
    + exact (proj2 (NoDup_remove_first e _ Hnd)).
    + intros Hin. by apply Hk, Honly.
  - intros z zone e0 Hz Hin. rewrite Hzo in Hz.
    destruct (inv_zone_member w Hinv z zone e0 Hz Hin) as (ent1 & He1 & Hzz & Hb1).
    destruct (decide (e0 = e)) as [->|Hne].
    + assert (ent1 = ent) as -> by congruence.
      exists ent'. split; [done|]. split; [by rewrite Hzk|].
      rewrite Hkey. apply Hmem. by right.
    + exists ent1. rewrite Hheap by done. split; [done|]. split; [done|].
      apply Hmem. by left.
  - intros e0 ent1 He1 Hin. rewrite Hzo. destruct (decide (e0 = e)) as [->|Hne].
    + assert (ent1 = ent') as -> by congruence. rewrite Hzk.
      by apply (inv_bucket_zone w Hinv e ent).
    + rewrite Hheap in He1 by done.
      apply Hmem in Hin as [[_ Hin]|[? _]]; [|done].
      by apply (inv_bucket_zone w Hinv e0 ent1).
  - intros z zone Hz. rewrite Hzo in Hz. by apply (inv_zone_nodup w Hinv z).
Qed.

Lemma unregister_preserves (e : eref) (w : World) :
  grid_inv w → grid_inv (unregisterEntity e w).1.
Proof.
  intros Hinv.
  destruct (unregisterEntity_cases e w)
    as [->|(ent & zoneId & zone & Hent0 & Hid & Hne & Hz)]; [done|].
  destruct (unregisterEntity_spec e w ent zoneId zone Hent0 Hid Hne Hz)
    as (_ & Hb & Hheap & _ & _ & _ & _ & Hzo & Hz').
  set (w' := (unregisterEntity e w).1) in *.
  assert (Hzk : zone_key (e_zoneId ent) = zoneId) by (by rewrite Hid).
  assert (Honly : ∀ k, e ∈ bucket k w → k = entity_key ent).
  { intros k Hin. destruct (inv_own_bucket w Hinv k e Hin) as (ent1 & He1 & ->).
    congruence. }
  assert (Hmem : ∀ k e0, e0 ∈ bucket k w' ↔ e0 ≠ e ∧ e0 ∈ bucket k w).
  { intros k e0. rewrite Hb.
    pose proof (inv_bucket_nodup w Hinv k) as Hnd.
    case_decide as Hk; [by apply elem_of_remove_first_iff|].
    split; [|naive_solver]. intros Hin. split; [|done]. intros ->. by apply Hk, Honly. }
  assert (Hzmem : ∀ z zone1 e0, zones w' !! z = Some zone1 → e0 ∈ z_entities zone1 →
                    e0 ≠ e ∧ ∃ zone0, zones w !! z = Some zone0 ∧ e0 ∈ z_entities zone0).
  { intros z zone1 e0 Hz1 Hin. destruct (decide (z = zoneId)) as [->|Hzne].
    - rewrite Hz' in Hz1. injection Hz1 as <-. cbn in Hin.
      apply elem_of_remove_first_iff in Hin as [? ?];
        [|by apply (inv_zone_nodup w Hinv zoneId)].
      split; [done|]. by exists zone.
    - rewrite Hzo in Hz1 by done. split; [|by exists zone1].
      intros ->. destruct (inv_zone_member w Hinv z zone1 e Hz1 Hin) as (ent1 & He1 & Hzz & _).
      apply Hzne. congruence. }
  split.
  - intros k e0 Hin. apply Hmem in Hin as [_ Hin]. rewrite Hheap.
    by apply (inv_own_bucket w Hinv).
  - intros k. rewrite Hb. pose proof (inv_bucket_nodup w Hinv k).
    case_decide; [exact (proj1 (NoDup_remove_first e _ H))|done].
  - intros z zone1 e0 Hz1 Hin.
    destruct (Hzmem z zone1 e0 Hz1 Hin) as (Hne0 & zone0 & Hz0 & Hin0).
    destruct (inv_zone_member w Hinv z zone0 e0 Hz0 Hin0) as (ent1 & He1 & Hzz & Hb1).
    exists ent1. rewrite Hheap. split; [done|]. split; [done|]. by apply Hmem.
  - intros e0 ent1 He1 Hin. rewrite Hheap in He1. apply Hmem in Hin as [Hne0 Hin].
    destruct (inv_bucket_zone w Hinv e0 ent1 He1 Hin) as (zone0 & Hz0 & Hin0).
    destruct (decide (zone_key (e_zoneId ent1) = zoneId)) as [Heq|Hzne].
    + rewrite Heq in *. rewrite Hz in Hz0. injection Hz0 as <-.
      eexists. split; [exact Hz'|]. cbn. by apply elem_of_remove_first_ne.
    + exists zone0. by rewrite Hzo.
  - intros z zone1 Hz1. destruct (decide (z = zoneId)) as [->|Hzne].
    + rewrite Hz' in Hz1. injection Hz1 as <-. cbn.
      exact (proj1 (NoDup_remove_first e _ (inv_zone_nodup w Hinv zoneId zone Hz))).
    + rewrite Hzo in Hz1 by done. by apply (inv_zone_nodup w Hinv z).
Qed.

Lemma reachable_inv (w0 w : World) : unoccupied w0 → reachable w0 w → grid_inv w.
Proof.
  intros H0. induction 1 as [|w op _ IH Happ]; [by apply unoccupied_inv|].
  destruct op; cbn in *.
  - by apply register_preserves.
  - by apply move_preserves.
  - by apply unregister_preserves.
Qed.

Lemma NoDup_count_once (e : eref) (l : list eref) :
  NoDup l → e ∈ l → count_occ Nat.eq_dec l e = 1%nat.
Proof.
  intros Hl Hin. apply NoDup_ListNoDup in Hl.
  apply (proj1 (List.NoDup_count_occ' Nat.eq_dec l) Hl e). by apply list_elem_of_In.
Qed.

(** C2 (as amended). Start from a grid on which nothing is registered
    and apply any sequence of [registerEntity], [moveEntity] and
    [unregisterEntity] in which an entity is registered only while it is
    off the grid and moved only while it is on it.  In
    every state so reached, every entity on the grid appears in exactly
    one occupancy bucket, the one keyed by its (zoneId, layer, gridX,
    gridY), exactly once in that bucket's list, and exactly once in the
    entity list of its zone and in no other zone's list. *)
Theorem registered_entity_occupies_one_bucket (w0 w : World) (e : eref) :
  unoccupied w0 → reachable w0 w → registered e w →
  ∃ ent zone,
    heap w !! e = Some ent
    ∧ (∀ k, e ∈ bucket k w ↔ k = entity_key ent)
    ∧ count_occ Nat.eq_dec (bucket (entity_key ent) w) e = 1%nat
    ∧ zones w !! zone_key (e_zoneId ent) = Some zone
    ∧ count_occ Nat.eq_dec (z_entities zone) e = 1%nat
    ∧ (∀ z zone', zones w !! z = Some zone' → e ∈ z_entities zone' →
         z = zone_key (e_zoneId ent)).
Proof.
  intros H0 Hreach (ent & He & Hin).
  pose proof (reachable_inv w0 w H0 Hreach) as Hinv.
  destruct (inv_bucket_zone w Hinv e ent He Hin) as (zone & Hz & Hzin).
  exists ent, zone. split; [done|]. split.
  { intros k. split; [|by intros ->].
    intros Hk. destruct (inv_own_bucket w Hinv k e Hk) as (ent1 & He1 & ->). congruence. }
  split; [by apply NoDup_count_once; [apply (inv_bucket_nodup w Hinv)|]|].
  split; [done|].
  split; [by apply NoDup_count_once; [apply (inv_zone_nodup w Hinv _ _ Hz)|]|].
  intros z zone' Hz' Hin'.
  destruct (inv_zone_member w Hinv z zone' e Hz' Hin') as (ent1 & He1 & -> & _). congruence.
Qed.

End OccupancyInvariant.

Lemma registered_entity_occupies_one_bucket_witness :
  let w1 := Reference.run_op (Reference.OpRegister Reference.yard_entity 2 2 Game.ACTOR
                                (Some "A")) Reference.yard_world in
  let w2 := Reference.run_op (Reference.OpMove Reference.yard_entity 3 3) w1 in
  (Reference.unoccupied Reference.yard_world
   ∧ Reference.reachable Reference.yard_world w2
   ∧ Reference.registered Reference.yard_entity w2)
  ∧ ∃ ent zone,
      Game.heap w2 !! Reference.yard_entity = Some ent
      ∧ (∀ k, Reference.yard_entity ∈ Game.bucket k w2 ↔ k = Game.entity_key ent)
      ∧ count_occ Nat.eq_dec (Game.bucket (Game.entity_key ent) w2) Reference.yard_entity
        = 1%nat
      ∧ Game.zones w2 !! Game.zone_key (Game.e_zoneId ent) = Some zone
      ∧ count_occ Nat.eq_dec (Game.z_entities zone) Reference.yard_entity = 1%nat
      ∧ (∀ z zone', Game.zones w2 !! z = Some zone' →
           Reference.yard_entity ∈ Game.z_entities zone' →
           z = Game.zone_key (Game.e_zoneId ent)).
Proof.
  intros w1 w2.
  assert (Hcells : Game.cells Reference.yard_world = ∅) by (vm_compute; reflexivity).
  assert (Hzones : map_to_list (Game.zones Reference.yard_world)
                   = [("A", Game.mkZone "A" 5 5
                              (replicate 5 (replicate 5 "empty")) [])])
    by (vm_compute; reflexivity).
  assert (H0 : Reference.unoccupied Reference.yard_world).
  { split.
    - intros k. unfold Game.bucket. rewrite Hcells, lookup_empty. reflexivity.
    - intros z zone E. apply elem_of_map_to_list in E.
      pose proof (eq_rect _ (λ m, (z, zone) ∈ m) E _ Hzones) as E2. cbv beta in E2.
      apply list_elem_of_singleton in E2. injection E2 as -> ->. reflexivity. }
  assert (Hoff : ¬ Reference.registered Reference.yard_entity Reference.yard_world).
  { intros (ent & _ & Hin). unfold Game.bucket in Hin.
    rewrite Hcells, lookup_empty in Hin. exact (not_elem_of_nil _ Hin). }
  assert (Hon1 : Reference.registered Reference.yard_entity w1).
  { eexists. split; [vm_compute; reflexivity|].
    apply (bool_decide_unpack _). vm_compute. exact I. }
  assert (Hon2 : Reference.registered Reference.yard_entity w2).
  { eexists. split; [vm_compute; reflexivity|].
    apply (bool_decide_unpack _). vm_compute. exact I. }
  assert (Hreach : Reference.reachable Reference.yard_world w2).
  { apply Reference.reach_step; [|exact Hon1].
    apply Reference.reach_step; [apply Reference.reach_start|exact Hoff]. }
  split; [auto|].
  exact (registered_entity_occupies_one_bucket Reference.yard_world w2 Reference.yard_entity
           H0 Hreach Hon2).
Defined.

(** C2, the claim as written, fails in two ways.  [unregisterEntity]
    leaves the entity's [zoneId] in place, so after register and
    unregister an entity with a zone assignment is in no bucket; and
    [registerEntity] does not look for an earlier registration, so after
    two registrations the entity is in two buckets. *)
Lemma zone_assignment_without_bucket_counterexample :
  let e := Reference.yard_entity in
  let w1 := Reference.run_op (Reference.OpRegister e 2 2 Game.ACTOR (Some "A"))
              Reference.yard_world in
  let gone := Reference.run_op (Reference.OpUnregister e) w1 in
  let twice := Reference.run_op (Reference.OpRegister e 1 1 Game.ACTOR (Some "A")) w1 in
  ((Game.heap gone !! e ≫= Game.e_zoneId) = Some "A"
   ∧ Game.bucket ("A", 2, 2, 2) gone = []
   ∧ ¬ Reference.occupies_own_bucket_only e gone)
  ∧ (e ∈ Game.bucket ("A", 2, 2, 2) twice
     ∧ e ∈ Game.bucket ("A", 2, 1, 1) twice
     ∧ ¬ Reference.occupies_own_bucket_only e twice).
Proof.
  intros e w1 gone twice.
  assert (Hg : Game.bucket ("A", 2, 2, 2) gone = []) by (vm_compute; reflexivity).
  assert (Ht1 : e ∈ Game.bucket ("A", 2, 2, 2) twice)
    by (apply (bool_decide_unpack _); vm_compute; exact I).
  assert (Ht2 : e ∈ Game.bucket ("A", 2, 1, 1) twice)
    by (apply (bool_decide_unpack _); vm_compute; exact I).
  split; [split; [vm_compute; reflexivity|split; [exact Hg|]]
         |split; [exact Ht1|split; [exact Ht2|]]].
  - intros Hclaim.
    destruct (Game.heap gone !! e) as [ent|] eqn:E; [|vm_compute in E; discriminate E].
    assert (Hk : Game.entity_key ent = ("A", 2, 2, 2)).
    { vm_compute in E. injection E as <-. reflexivity. }
    assert (Hz : Game.e_zoneId ent = Some "A").
    { vm_compute in E. injection E as <-. reflexivity. }
    destruct (Hclaim ent "A" E Hz) as [Hiff _].
    pose proof (proj2 (Hiff _) (eq_sym Hk)) as Hin.
    rewrite Hg in Hin. exact (not_elem_of_nil _ Hin).
  - intros Hclaim.
    destruct (Game.heap twice !! e) as [ent|] eqn:E; [|vm_compute in E; discriminate E].
    assert (Hk : Game.entity_key ent = ("A", 2, 1, 1)).
    { vm_compute in E. injection E as <-. reflexivity. }
    assert (Hz : Game.e_zoneId ent = Some "A").
    { vm_compute in E. injection E as <-. reflexivity. }
    destruct (Hclaim ent "A" E Hz) as [Hiff _].
    pose proof (proj1 (Hiff _) Ht1) as Hk'. rewrite Hk in Hk'. discriminate Hk'.
Qed.

(* ===================================================================== *)
(** * Properties of the state store *)
(* ===================================================================== *)

Section StoreNavigation.

Import StateManager StoreReference.

Lemma split_dot_nonempty (s : string) : split_dot s ≠ [].
Proof.
  destruct s as [|c rest]; cbn; [done|].
  destruct (Ascii.eqb c "."); [done|]. by destruct (split_dot rest).
Qed.

Lemma pop_spec {A} (l : list A) :
  l ≠ [] → ∃ parts x, pop l = Some (parts, x) ∧ l = parts ++ [x].
Proof.
  intros Hne. unfold pop. destruct (reverse l) as [|x r] eqn:E.
  - apply (f_equal reverse) in E. rewrite reverse_involutive in E. done.
  - exists (reverse r), x. split; [done|].
    apply (f_equal reverse) in E. rewrite reverse_involutive in E.
    by rewrite E, reverse_cons.
Qed.


Lemma navigate_create (l : loc) (part : string) (rest : list string) (st : store)
  (child : value) :
  getProp (heap st) (VObj l) part = Some child → nullish child = true →
  navigate (part :: rest) (VObj l) st = navigate rest (VObj (nextLoc st)) (grown l part st).
Proof.
  intros Hc Hn. cbn [navigate]. rewrite Hc, Hn.
  cbn [heap setProp]. unfold default at 1. cbn [from_option id].
  cbn [getProp]. rewrite lookup_insert_eq. cbn [mbind option_bind].
  rewrite lookup_insert_eq. reflexivity.
Qed.



Lemma grown_fresh (l : loc) (part : string) (st : store) :
  (l < nextLoc st)%nat →
  (nextLoc st < nextLoc (grown l part st))%nat
  ∧ heap (grown l part st) !! nextLoc st = Some ∅.
Proof.
  intros Hl. cbn. split; [lia|].
  rewrite lookup_insert_ne by lia. by rewrite lookup_insert_eq.
Qed.



Lemma navigate_frame (parts : list string) (cur cur' : value) (st st1 : store) :
  navigate parts cur st = Some (cur', st1) →
  subscribers st1 = subscribers st ∧ root st1 = root st.
Proof.
  revert cur st. induction parts as [|part rest IH]; intros cur st Hnav.
  - cbn in Hnav. by injection Hnav as <- <-.
  - cbn [navigate] in Hnav.
    destruct (getProp (heap st) cur part) as [child|]; [|done].
    destruct (getProp _ cur part) as [next|] in Hnav; [|done].
    apply IH in Hnav. by destruct (nullish child).
Qed.


End StoreNavigation.

Section StoreObservers.

Import StateManager StoreReference.

Variable call : callback → value → value → string → store → store * Events.completion.
Hypothesis call_observes : observers call.

Lemma forEach_observers (cbs : list callback) (newValue oldValue : value) (path : string)
  (st : store) :
  forEach call cbs newValue oldValue path st
  = (st, (λ cb, mkNote cb newValue oldValue path) <$> cbs).
Proof.
  induction cbs as [|cb rest IH]; [done|].
  cbn [forEach]. rewrite call_observes, IH. done.
Qed.

Lemma notifyAt_observers (path : string) (newValue oldValue : value) (st : store) :
  notifyAt call path newValue oldValue st = (st, notes_at path newValue oldValue st).
Proof.
  unfold notifyAt, notes_at. destruct (subscribers st !! path) as [cbs|]; [|done].
  apply forEach_observers.
Qed.

Lemma notifyParents_observers (fuel : nat) (parts : list string) (st : store) :
  (length parts ≤ fuel)%nat →
  notifyParents call fuel parts st
  = (st, ((λ k, join_dot (take k parts)) <$> reverse (seq 1 (length parts - 1)))
         ≫= λ q, notes_at q (get q VUndefined st) (get q VUndefined st) st).
Proof.
  revert parts. induction fuel as [|fuel IH]; intros parts Hlen.
  { destruct parts; [done|cbn in Hlen; lia]. }
  cbn [notifyParents]. case_decide as Hl.
  2:{ replace (length parts - 1)%nat with 0%nat by lia. done. }
  assert (Hrl : removelast parts = take (length parts - 1) parts).
  { rewrite List.removelast_firstn_len. f_equal. lia. }
  rewrite Hrl. set (parts' := take (length parts - 1) parts).
  assert (Hlen' : length parts' = (length parts - 1)%nat).
  { subst parts'. rewrite length_take. lia. }
  assert (Hhead : match subscribers st !! join_dot parts' with
                  | Some cbs =>
                      forEach call cbs (get (join_dot parts') VUndefined st)
                        (get (join_dot parts') VUndefined st) (join_dot parts') st
                  | None => (st, [])
                  end
                  = (st, notes_at (join_dot parts') (get (join_dot parts') VUndefined st)
                           (get (join_dot parts') VUndefined st) st)).
  { unfold notes_at. destruct (subscribers st !! join_dot parts'); [|done].
    apply forEach_observers. }
  rewrite Hhead, IH by lia. f_equal. rewrite Hlen'.
  destruct (length parts) as [|[|n]] eqn:Hn; [lia|lia|].
  replace (S (S n) - 1)%nat with (S n) in * by lia.
  replace (S n - 1)%nat with n by lia.
  rewrite (seq_S n 1), reverse_app, fmap_app, bind_app.
  change (reverse [(1 + n)%nat]) with [S n].
  cbn [fmap list_fmap mbind list_bind]. rewrite app_nil_r.
  fold parts'. f_equal. f_equal.
  apply list_fmap_ext. intros i k Hk.
  apply list_elem_of_lookup_2, elem_of_reverse, elem_of_seq in Hk.
  subst parts'. rewrite take_take. do 2 f_equal. lia.
Qed.

Lemma notifySubscribers_observers (path : string) (newValue oldValue : value) (st : store) :
  notifySubscribers call path newValue oldValue st
  = (st, expected_notes path newValue oldValue st).
Proof.
  unfold notifySubscribers, expected_notes, ancestor_paths.
  rewrite notifyAt_observers, notifyParents_observers by done. done.
Qed.

End StoreObservers.

Lemma observer_observes : StoreReference.observers StoreReference.observer.
Proof. by intros cb n o p st. Qed.

Section StoreProperties.

Import StateManager StoreReference.

Variable call : callback → value → value → string → store → store * Events.completion.

(** With callbacks that leave the store alone, [set] is what it is with
    the idle observer. *)
Lemma set_observers (path : string) (v : value) (st : store) :
  observers call → set call path v st = set observer path v st.
Proof.
  intros Hobs. unfold set.
  destruct (pop (split_dot path)) as [[parts lastPart]|]; [|done].
  destruct (navigate parts (VObj (root st)) st) as [[current st1]|]; [|done].
  destruct (getProp (heap st1) current lastPart) as [oldValue|]; [|done].
  case_decide; [done|].
  by rewrite (notifySubscribers_observers call Hobs),
    (notifySubscribers_observers observer observer_observes).
Qed.



End StoreProperties.

Lemma watched_store_wf : StoreReference.wf_store StoreReference.watched_store.
Proof.
  split; [vm_compute; lia|].
  intros l o k l' Ho Hk. cbn in Ho.
  apply lookup_singleton_Some in Ho as [_ <-]. rewrite lookup_empty in Hk.
  discriminate Hk.
Qed.



(* ===================================================================== *)
(** * Further properties of the state store *)
(* ===================================================================== *)

Section StoreReads.

Import StateManager StoreReference.

Variable call : callback → value → value → string → store → store * Events.completion.

(** The default that [get] falls back on. *)
Lemma get_stored (path : string) (d : value) (st : store) :
  get path d st
  = get_loop (heap st) (split_dot path) (VObj (root st))
      (if decide (d = VUndefined) then VNull else d).
Proof. reflexivity. Qed.

(** A segment produced by [split] holds no dot: it splits into itself. *)
Lemma split_dot_segments (s : string) :
  Forall (λ seg, split_dot seg = [seg]) (split_dot s).
Proof.
  induction s as [|c rest IH]; cbn.
  - by constructor.
  - destruct (Ascii.eqb c ".") eqn:Ec.
    + by constructor.
    + destruct (split_dot rest) as [|seg segs]; [by constructor; [cbn; rewrite Ec|]|].
      inversion IH as [|? ? Hseg Hsegs]; subst. constructor; [|done].
      cbn. by rewrite Ec, Hseg.
Qed.

Lemma split_dot_app (a b : string) :
  split_dot a = [a] → split_dot (a +:+ "." +:+ b) = a :: split_dot b.
Proof.
  induction a as [|c a' IH]; [done|].
  cbn [split_dot String.append]. destruct (Ascii.eqb c ".") eqn:Ec; [by intros [= E]|].
  intros Ha.
  assert (Ha' : split_dot a' = [a']).
  { destruct (split_dot a') as [|seg segs] eqn:E'; [by destruct (split_dot_nonempty a')|].
    by injection Ha as -> ->. }
  change (String c a' +:+ "." +:+ b) with (String c (a' +:+ "." +:+ b)).
  cbn [split_dot]. by rewrite Ec, (IH Ha').
Qed.

Lemma split_dot_join_dot (parts : list string) :
  parts ≠ [] → Forall (λ seg, split_dot seg = [seg]) parts →
  split_dot (join_dot parts) = parts.
Proof.
  induction parts as [|a rest IH]; [done|]. intros _ Hall.
  inversion Hall as [|? ? Ha Hrest]; subst.
  destruct rest as [|b rest]; [done|].
  change (join_dot (a :: b :: rest)) with (a +:+ "." +:+ join_dot (b :: rest)).
  rewrite (split_dot_app _ _ Ha). f_equal. by apply IH.
Qed.

(** The loop of [get] leaves with the default as soon as it stands on
    [undefined] or [null] with a segment still to read. *)
Lemma get_loop_cut (h : gmap loc (gmap string value)) (pre rest : list string)
  (cur d : value) :
  rest ≠ [] → nullish (get_loop h pre cur VUndefined) = true →
  get_loop h (pre ++ rest) cur d = d.
Proof.
  intros Hrest. revert cur. induction pre as [|p pre IH]; intros cur Hn.
  - cbn in Hn. destruct rest as [|r rest]; [done|]. cbn.
    destruct (decide (cur = VUndefined)) as [->|]; [done|]. by rewrite Hn.
  - cbn in *. destruct (nullish cur); [done|]. by apply IH.
Qed.

(** X4. For a path whose segments are no members of [Object.prototype]:
    when the store holds [undefined] or [null] at a proper prefix of the
    path, and objects at the prefixes shorter than that one, [get]
    returns the default for the path, which is [null] when the default
    passed is [undefined]: a partially missing path is never an error. *)
Theorem get_below_missing_is_default (path : string) (d : value) (st : store) (k : nat) :
  Forall Js.own_key (split_dot path) →
  (0 < k < length (split_dot path))%nat →
  (∀ j, (0 < j < k)%nat → ∃ l, stored (join_dot (take j (split_dot path))) st = VObj l) →
  nullish (stored (join_dot (take k (split_dot path))) st) = true →
  get path d st = (if decide (d = VUndefined) then VNull else d)
  ∧ get path VUndefined st = VNull.
Proof.
  intros _ [Hk0 Hk] _ Hn.
  assert (H : ∀ d', get_loop (heap st) (split_dot path) (VObj (root st)) d' = d');
    [|by rewrite !get_stored, !H].
  intros d'. unfold stored in Hn.
  rewrite split_dot_join_dot in Hn.
  - rewrite <- (take_drop k (split_dot path)). apply get_loop_cut; [|done].
    intros E. apply (f_equal length) in E. rewrite length_drop in E. cbn in E. lia.
  - destruct (split_dot path); cbn in *; [lia|]. destruct k; [lia|done].
  - apply Forall_take, split_dot_segments.
Qed.

Lemma get_loop_no_property (h : gmap loc (gmap string value)) (parts : list string)
  (l : loc) (d : value) :
  parts ≠ [] → (h !! l ≫= λ o, o !! hd "" parts) = None →
  get_loop h parts (VObj l) d = d.
Proof.
  destruct parts as [|p rest]; [done|]. intros _ Hp. cbn in *. rewrite Hp. cbn.
  destruct rest; cbn; [by case_decide|done].
Qed.

(** X5. [reset()] empties the state and keeps the subscriptions: every
    path whose first segment is no member of [Object.prototype] reads as
    its default afterwards ([null] for the default [undefined]), while
    the subscriber table is the one from before, whatever the argument. *)
Theorem reset_empties_state_keeps_subscribers (path : string) (d : value)
  (initialState : option loc) (st : store) :
  Js.own_key (hd "" (split_dot path)) →
  get path d (reset None st) = (if decide (d = VUndefined) then VNull else d)
  ∧ subscribers (reset initialState st) = subscribers st.
Proof.
  intros _. split; [|done]. rewrite get_stored. unfold reset, spread. cbn.
  apply get_loop_no_property; [apply split_dot_nonempty|].
  rewrite lookup_insert_eq. cbn. apply lookup_empty.
Qed.

(** Reading a path of one segment. *)
Lemma get_top_level (key : string) (d : value) (st : store) :
  split_dot key = [key] →
  get key d st
  = (let v := default VUndefined (heap st !! root st ≫= λ o, o !! key) in
     if decide (v = VUndefined) then (if decide (d = VUndefined) then VNull else d) else v).
Proof. intros Hk. unfold get. rewrite Hk. reflexivity. Qed.

Lemma to_boolean_defined (v : value) : to_boolean v = true → v ≠ VUndefined.
Proof. by destruct v. Qed.

(** X6. After [init], whatever the initial state: reading [gameState]
    gives a truthy value, never the caller's default; it is the value of
    the initial state when that is truthy, and ['loading'] otherwise. *)
Theorem init_gameState_is_truthy (initialState : option loc) (d : value) (st : store) :
  to_boolean (get "gameState" d (init initialState st)) = true
  ∧ get "gameState" d (init initialState st)
    = (let given := get "gameState" VUndefined (reset initialState st) in
       if to_boolean given then given else VStr "loading").
Proof.
  assert (Hk : split_dot "gameState" = ["gameState"]) by reflexivity.
  rewrite !(get_top_level _ _ _ Hk). unfold init.
  set (st1 := reset initialState st).
  assert (Hroot : ∃ props, heap st1 !! root st1 = Some props).
  { subst st1. unfold reset, spread. cbn. rewrite lookup_insert_eq. eauto. }
  destruct Hroot as [props Hroot].
  cbn [getProp]. rewrite Hroot. cbn [mbind option_bind default from_option id].
  set (v := from_option id VUndefined (props !! "gameState")).
  cbn zeta. rewrite (decide_True (P := VUndefined = VUndefined)) by done.
  destruct (to_boolean v) eqn:Hb.
  - rewrite Hroot. cbn [mbind option_bind default from_option id]. fold v.
    rewrite !decide_False by (by intros E; rewrite E in Hb). by rewrite Hb.
  - cbn [heap root setProp default from_option id]. rewrite Hroot, lookup_insert_eq.
    cbn [mbind option_bind default from_option id]. rewrite lookup_insert_eq.
    cbn [from_option id]. rewrite decide_False by done.
    split; [done|]. by destruct (decide (v = VUndefined)); [|rewrite Hb].
Qed.

(** X7. For a key without a dot that is no member of
    [Object.prototype], any store, and subscriber callbacks that do not
    re-enter the store: [set(key, v)] returns normally and [get(key)]
    then gives [v] (for [v] other than [undefined]), while every other
    key without a dot reads as before. *)
Theorem set_then_get_top_level (key : string) (v d : value) (st : store) :
  split_dot key = [key] → Js.own_key key → observers call → v ≠ VUndefined →
  ∃ st2 ns,
    set call key v st = Ok st2 ns
    ∧ get key d st2 = v
    ∧ ∀ other d', split_dot other = [other] → other ≠ key →
        get other d' st2 = get other d' st.
Proof.
  intros Hk _ Hobs Hv. rewrite (set_observers call _ _ _ Hobs).
  unfold set. rewrite Hk. cbn [pop reverse rev_append navigate getProp].
  set (old := default VUndefined (heap st !! root st ≫= λ o, o !! key)).
  destruct (decide (old = v)) as [E|E].
  - exists st, []. split; [done|]. split; [|done].
    rewrite (get_top_level _ _ _ Hk). cbn zeta. fold old. rewrite E. by case_decide.
  - rewrite (notifySubscribers_observers observer observer_observes).
    eexists _, _. split; [reflexivity|]. split.
    + rewrite (get_top_level _ _ _ Hk). cbn [heap root setProp default from_option id].
      rewrite lookup_insert_eq. cbn [mbind option_bind]. rewrite lookup_insert_eq.
      cbn. by case_decide.
    + intros other d' Ho Hne. rewrite !(get_top_level _ _ _ Ho).
      cbn [heap root setProp default from_option id].
      rewrite lookup_insert_eq. cbn [mbind option_bind].
      rewrite lookup_insert_ne by done.
      by destruct (heap st !! root st).
Qed.

(** Navigation that starts in an object without properties succeeds; it
    ends in a fresh object, leaves the older objects alone, and the chain
    it built leads from the start to that object. *)
Lemma navigate_chain (rest : list string) (lastPart : string) (v d : value) :
  v ≠ VUndefined →
  ∀ (l : loc) (st : store),
  (l < nextLoc st)%nat → heap st !! l = Some ∅ →
  ∃ l' st1,
    navigate rest (VObj l) st = Some (VObj l', st1)
    ∧ (l ≤ l')%nat
    ∧ heap st1 !! l' = Some ∅
    ∧ (∀ k, (k < l)%nat → heap st1 !! k = heap st !! k)
    ∧ ∀ h2, h2 !! l' = Some {[lastPart := v]} →
            (∀ k, k ≠ l' → h2 !! k = heap st1 !! k) →
            get_loop h2 (rest ++ [lastPart]) (VObj l) d = v.
Proof.
  intros Hv. induction rest as [|part rest IH]; intros l st Hl Hempty.
  - exists l, st. split; [done|]. split; [done|]. split; [done|]. split; [done|].
    intros h2 Hh2 _. cbn. rewrite Hh2. cbn. rewrite lookup_singleton_eq. cbn.
    by case_decide.
  - assert (Hchild : getProp (heap st) (VObj l) part = Some VUndefined).
    { cbn. rewrite Hempty. cbn. by rewrite lookup_empty. }
    rewrite (navigate_create l part rest st VUndefined Hchild eq_refl).
    destruct (grown_fresh l part st Hl) as [Hlt Hfresh].
    destruct (IH (nextLoc st) (grown l part st) Hlt Hfresh)
      as (l' & st1 & Hnav & Hle & Hl' & Hframe & Hread).
    exists l', st1. split; [done|]. split; [lia|]. split; [done|]. split.
    + intros k Hk. rewrite Hframe by lia. cbn.
      rewrite lookup_insert_ne by lia. rewrite lookup_insert_ne by lia. done.
    + intros h2 Hh2 Hother. cbn [app get_loop nullish getProp].
      rewrite Hother by lia. rewrite Hframe by lia. cbn [heap grown].
      rewrite lookup_insert_eq. cbn [mbind option_bind]. rewrite lookup_insert_eq.
      cbn [default from_option id]. by apply Hread.
Qed.

(** X8. For a path whose segments are no members of
    [Object.prototype], in a store whose first path segment is missing
    ([undefined] or [null]) under the root, and with subscriber callbacks
    that do not re-enter the store: [set(path, v)] returns normally,
    having created every intermediate object, and [get(path)] then gives
    [v] (for [v] other than [undefined]). *)
Theorem set_creates_missing_objects (path : string) (v d : value) (st : store) :
  wf_store st → Forall Js.own_key (split_dot path) → observers call →
  v ≠ VUndefined → (1 < length (split_dot path))%nat →
  nullish (default VUndefined
             (getProp (heap st) (VObj (root st)) (hd "" (split_dot path)))) = true →
  ∃ st2 ns, set call path v st = Ok st2 ns ∧ get path d st2 = v.
Proof.
  intros [Hroot Hwf] _ Hobs Hv Hlen Hmissing. rewrite (set_observers call _ _ _ Hobs).
  destruct (pop_spec (split_dot path) (split_dot_nonempty path))
    as (parts & lastPart & Hpop & Hsplit).
  unfold set, get. rewrite Hpop, Hsplit in *. clear Hpop Hsplit.
  destruct parts as [|part rest]; [cbn in Hlen; lia|]. cbn [app hd] in Hmissing.
  set (child := default VUndefined (getProp (heap st) (VObj (root st)) part)) in *.
  assert (Hchild : getProp (heap st) (VObj (root st)) part = Some child) by done.
  rewrite (navigate_create _ part rest st child Hchild Hmissing).
  destruct (grown_fresh (root st) part st Hroot) as [Hlt Hfresh].
  destruct (navigate_chain rest lastPart v (if decide (d = VUndefined) then VNull else d)
              Hv (nextLoc st) (grown (root st) part st) Hlt Hfresh)
    as (l' & st1 & Hnav & Hle & Hl' & Hframe & Hread).
  rewrite Hnav. cbn [getProp]. rewrite Hl'. cbn [mbind option_bind].
  rewrite lookup_empty. cbn [default from_option id].
  destruct (decide (VUndefined = v)) as [E|_]; [by destruct Hv|].
  rewrite (notifySubscribers_observers observer observer_observes).
  eexists _, _. split; [reflexivity|].
  cbn [heap root setProp default from_option id]. rewrite Hl'.
  destruct (navigate_frame _ _ _ _ _ Hnav) as [_ Hr]. rewrite Hr. cbn [root grown].
  cbn [app get_loop nullish getProp].
  rewrite lookup_insert_ne by lia. rewrite Hframe by lia. cbn [heap grown].
  rewrite lookup_insert_eq. cbn [mbind option_bind]. rewrite lookup_insert_eq.
  cbn [default from_option id]. apply Hread.
  - by rewrite lookup_insert_eq.
  - intros k Hk. by rewrite lookup_insert_ne.
Qed.

End StoreReads.

Lemma get_below_missing_is_default_witness :
  (Forall Js.own_key (StateManager.split_dot "x.b.c")
   ∧ StoreReference.stored "x" StoreReference.loop_store = StateManager.VObj 1%nat
   ∧ StoreReference.stored "x.b" StoreReference.loop_store = StateManager.VUndefined)
  ∧ StateManager.get "x.b.c" (StateManager.VNum 7) StoreReference.loop_store
    = StateManager.VNum 7
  ∧ StateManager.get "x.b.c" StateManager.VUndefined StoreReference.loop_store
    = StateManager.VNull.
Proof.
  assert (Hk : Forall Js.own_key (StateManager.split_dot "x.b.c")).
  { apply (bool_decide_unpack _). vm_compute. exact I. }
  assert (Hx : StoreReference.stored "x" StoreReference.loop_store = StateManager.VObj 1%nat)
    by (vm_compute; reflexivity).
  assert (Hb : StoreReference.stored "x.b" StoreReference.loop_store
               = StateManager.VUndefined) by (vm_compute; reflexivity).
  split; [auto|].
  apply (get_below_missing_is_default "x.b.c" (StateManager.VNum 7)
           StoreReference.loop_store 2%nat Hk).
  - vm_compute. lia.
  - intros j Hj. assert (j = 1%nat) as -> by lia. exists 1%nat. exact Hx.
  - vm_compute. reflexivity.
Defined.

Lemma reset_empties_state_keeps_subscribers_witness :
  Js.own_key (hd "" (StateManager.split_dot "stats.fps"))
  ∧ StateManager.get "stats.fps" StateManager.VUndefined
      (StateManager.reset None StoreReference.leaf_store) = StateManager.VNull.
Proof.
  assert (Hk : Js.own_key (hd "" (StateManager.split_dot "stats.fps"))).
  { apply (bool_decide_unpack _). vm_compute. exact I. }
  split; [exact Hk|].
  exact (proj1 (reset_empties_state_keeps_subscribers "stats.fps" StateManager.VUndefined
                  None StoreReference.leaf_store Hk)).
Defined.

Lemma set_then_get_top_level_witness :
  Js.own_key "a"
  ∧ ∃ st2 ns,
      StateManager.set StoreReference.observer "a" (StateManager.VNum 9)
        StoreReference.leaf_store
      = StateManager.Ok st2 ns
      ∧ StateManager.get "a" StateManager.VNull st2 = StateManager.VNum 9.
Proof.
  assert (Hk : Js.own_key "a") by (apply (bool_decide_unpack _); vm_compute; exact I).
  split; [exact Hk|].
  destruct (set_then_get_top_level StoreReference.observer "a" (StateManager.VNum 9)
              StateManager.VNull StoreReference.leaf_store eq_refl Hk observer_observes)
    as (st2 & ns & H1 & H2 & _).
  - discriminate.
  - exists st2, ns. by split.
Defined.

Lemma set_creates_missing_objects_witness :
  Forall Js.own_key (StateManager.split_dot "player.position.x")
  ∧ ∃ st2 ns,
      StateManager.set StoreReference.observer "player.position.x" (StateManager.VNum 3)
        StoreReference.watched_store
      = StateManager.Ok st2 ns
      ∧ StateManager.get "player.position.x" StateManager.VNull st2 = StateManager.VNum 3.
Proof.
  assert (Hk : Forall Js.own_key (StateManager.split_dot "player.position.x")).
  { apply (bool_decide_unpack _). vm_compute. exact I. }
  split; [exact Hk|].
  apply (set_creates_missing_objects StoreReference.observer "player.position.x" _ _ _
           watched_store_wf Hk observer_observes).
  - discriminate.
  - vm_compute. lia.
  - vm_compute. reflexivity.
Defined.

(* ===================================================================== *)
(** * Further properties of the grid *)
(* ===================================================================== *)

Section GridPlacement.

Import Game Reference.

Lemma remove_first_app_fresh `{EqDecision A} (x : A) (l : list A) :
  x ∉ l → remove_first x (l ++ [x]) = l.
Proof.
  induction l as [|a l IH]; cbn; intros Hn.
  - by rewrite decide_True.
  - apply not_elem_of_cons in Hn as [Hne Hn].
    rewrite decide_False by done. by rewrite IH.
Qed.

(** X9. Registering an entity that is not on the grid and unregistering
    it again restores every bucket and every zone's entity list; the
    entity object keeps the zone, layer and cell of the registration. *)
Theorem register_then_unregister_restores_grid (e : eref) (x y : Z) (layer : Layer)
  (zoneId : string) (w : World) (ent : Entity) (zone : Zone) :
  zones w !! zoneId = Some zone → zoneId ≠ "" →
  heap w !! e = Some ent →
  isValidPosition x y (Some zoneId) w = true →
  e ∉ bucket (key_of (Some zoneId) layer x y) w →
  e ∉ z_entities zone →
  let w1 := (registerEntity e x y layer (Some zoneId) w).1 in
  let w2 := (unregisterEntity e w1).1 in
  (unregisterEntity e w1).2 = true
  ∧ (∀ k, bucket k w2 = bucket k w)
  ∧ (∃ zone2, zones w2 !! zoneId = Some zone2 ∧ z_entities zone2 = z_entities zone)
  ∧ (∀ z, z ≠ zoneId → zones w2 !! z = zones w !! z)
  ∧ (∃ ent2, heap w2 !! e = Some ent2 ∧ place ent2 = (Some zoneId, layer, x, y)).
Proof.
  intros Hz Hne He Hv Hb Hzl w1 w2.
  destruct (registerEntity_spec e x y layer (Some zoneId) w ent zone Hz He Hv)
    as (_ & Hb1 & (ent1 & He1 & Hp1 & _) & _ & _ & _ & _ & _ & Hzo1 & zone1 & Hz1 & _ & _ & Hl1).
  fold w1 in Hb1, He1, Hzo1, Hz1. cbn [zone_key] in Hz1, Hzo1.
  assert (Hid1 : e_zoneId ent1 = Some zoneId) by (by injection Hp1).
  assert (Hk1 : entity_key ent1 = key_of (Some zoneId) layer x y).
  { unfold entity_key. by injection Hp1 as -> -> -> ->. }
  destruct (unregisterEntity_spec e w1 ent1 zoneId zone1 He1 Hid1 Hne Hz1)
    as (Hok & Hb2 & Hh2 & _ & _ & _ & _ & Hzo2 & Hz2).
  fold w2 in Hb2, Hh2, Hzo2, Hz2.
  split; [done|]. split.
  { intros k. rewrite Hb2, Hb1, Hk1.
    destruct (decide (k = key_of (Some zoneId) layer x y)) as [->|]; [|done].
    by apply remove_first_app_fresh. }
  split.
  { eexists. split; [exact Hz2|]. cbn. rewrite Hl1.
    assert (Hinc : includes e (z_entities zone) = false)
      by (by apply bool_decide_eq_false).
    rewrite Hinc. by apply remove_first_app_fresh. }
  split.
  { intros z Hzne. rewrite Hzo2 by done. by apply Hzo1. }
  exists ent1. by rewrite Hh2.
Qed.

(** The tile matrix after a successful [registerEntity]. *)
Lemma registerEntity_tiles (e : eref) (x y : Z) (layer : Layer) (zoneId : option string)
  (w : World) (ent : Entity) (zone : Zone) :
  zones w !! zone_key zoneId = Some zone →
  heap w !! e = Some ent →
  isValidPosition x y zoneId w = true →
  ∃ zone', zones (registerEntity e x y layer zoneId w).1 !! zone_key zoneId = Some zone'
    ∧ z_width zone' = z_width zone ∧ z_height zone' = z_height zone
    ∧ z_tiles zone' = match layer, tileTypeOf ent with
                      | GROUND, Some t => mirrorTile x y t (z_tiles zone)
                      | _, _ => z_tiles zone
                      end.
Proof.
  intros Hz He Hv. unfold registerEntity. rewrite Hz, He, Hv. cbn [negb fst snd].
  set (w1 := push_to_cell (key_of zoneId layer x y) e w).
  set (ent1 := ent_with_position _ _).
  set (w2 := with_heap (<[e:=ent1]> (heap w1)) w1).
  assert (Hz2 : zones w2 !! zone_key zoneId = Some zone) by (subst w2 w1; exact Hz).
  rewrite Hz2.
  assert (Ht : tileTypeOf ent1 = tileTypeOf ent) by done.
  rewrite Ht.
  set (w3 := if includes e (z_entities zone) then w2 else _).
  assert (Hz3 : ∃ zone3, zones w3 !! zone_key zoneId = Some zone3
                  ∧ z_width zone3 = z_width zone ∧ z_height zone3 = z_height zone
                  ∧ z_tiles zone3 = z_tiles zone).
  { subst w3. destruct (includes e (z_entities zone)); [by exists zone|].
    eexists. cbn. rewrite lookup_insert_eq. done. }
  destruct Hz3 as (zone3 & Hz3 & Hw3 & Hh3 & Ht3). rewrite Hz3.
  destruct layer; try (exists zone3; done).
  destruct (tileTypeOf ent) as [t|]; [|by exists zone3].
  eexists. cbn. rewrite lookup_insert_eq. split; [done|]. cbn. by rewrite Ht3.
Qed.

Lemma mirrorTile_lookup (x y : Z) (t : string) (tiles : list (list string)) :
  mirrorTile x y t tiles !! Z.to_nat y ≫= (λ row, row !! Z.to_nat x) = Some t.
Proof.
  unfold mirrorTile.
  set (rows := tiles ++ replicate (S (Z.to_nat y) - length tiles) []).
  assert (Hy : (Z.to_nat y < length rows)%nat).
  { subst rows. rewrite length_app, length_replicate. lia. }
  rewrite list_lookup_insert_eq by done. cbn.
  apply list_lookup_insert_eq. rewrite length_app, length_replicate. lia.
Qed.

Lemma mirrorTile_other (x y : Z) (t : string) (tiles : list (list string))
  (i j : nat) (t' : string) :
  (i, j) ≠ (Z.to_nat y, Z.to_nat x) →
  tiles !! i ≫= (λ row, row !! j) = Some t' →
  mirrorTile x y t tiles !! i ≫= (λ row, row !! j) = Some t'.
Proof.
  intros Hne Hold. unfold mirrorTile.
  destruct (tiles !! i) as [row|] eqn:Hrow; [|done]. cbn in Hold.
  set (rows := tiles ++ replicate (S (Z.to_nat y) - length tiles) []).
  assert (Hrows : rows !! i = Some row).
  { subst rows. by apply lookup_app_l_Some. }
  destruct (decide (i = Z.to_nat y)) as [->|Hi].
  - rewrite Hrows. cbn [default from_option id].
    rewrite list_lookup_insert_eq by (by eapply lookup_lt_Some). cbn.
    rewrite list_lookup_insert_ne by (intros E; apply Hne; by rewrite E).
    by apply lookup_app_l_Some.
  - rewrite list_lookup_insert_ne by done. rewrite Hrows. done.
Qed.

(** The tile matrix as a list of rows that are lists: what the mirroring
    of a tile type does to it. *)
Lemma registerEntity_mirrors (e : eref) (x y : Z) (zoneId : option string)
  (w : World) (ent : Entity) (zone : Zone) (t : string) :
  zones w !! zone_key zoneId = Some zone →
  heap w !! e = Some ent →
  isValidPosition x y zoneId w = true →
  tileTypeOf ent = Some t →
  let w' := (registerEntity e x y GROUND zoneId w).1 in
  getTileAt x y zoneId w' = Some t
  ∧ ∀ x' y' t', (x', y') ≠ (x, y) → getTileAt x' y' zoneId w = Some t' →
                getTileAt x' y' zoneId w' = Some t'.
Proof.
  intros Hz He Hv Ht w'.
  destruct (registerEntity_tiles e x y GROUND zoneId w ent zone Hz He Hv)
    as (zone' & Hz' & Hw & Hh & Htiles).
  rewrite Ht in Htiles. fold w' in Hz'.
  assert (Hnonempty : String.eqb t "" = false).
  { unfold tileTypeOf in Ht. destruct (c_tile (e_components ent)) as [c|]; [|done].
    destruct (String.eqb (t_type c) "") eqn:E; [done|]. by injection Ht as <-. }
  unfold isValidPosition in Hv. rewrite Hz in Hv.
  apply andb_prop in Hv as [Hv Hv4]. apply andb_prop in Hv as [Hv Hv3].
  apply andb_prop in Hv as [Hv1 Hv2].
  split.
  - unfold getTileAt. rewrite Hz', Hw, Hh.
    assert (Hb : (x <? 0) || (y <? 0) || (z_width zone <=? x) || (z_height zone <=? y) = false).
    { repeat (apply orb_false_intro); lia. }
    rewrite Hb, Htiles.
    pose proof (mirrorTile_lookup x y t (z_tiles zone)) as Hl.
    destruct (mirrorTile x y t (z_tiles zone) !! Z.to_nat y) as [row|]; [|done].
    cbn in Hl. rewrite Hl. by rewrite Hnonempty.
  - intros x' y' t' Hne. unfold getTileAt. rewrite Hz, Hz', Hw, Hh.
    destruct ((x' <? 0) || (y' <? 0) || (z_width zone <=? x') || (z_height zone <=? y'))
      eqn:Hb; [done|].
    apply orb_false_elim in Hb as [Hb Hb4]. apply orb_false_elim in Hb as [Hb Hb3].
    apply orb_false_elim in Hb as [Hb1 Hb2].
    intros Hold. rewrite Htiles.
    assert (Hl : z_tiles zone !! Z.to_nat y' ≫= (λ row, row !! Z.to_nat x') = Some t'
                 ∧ String.eqb t' "" = false).
    { destruct (z_tiles zone !! Z.to_nat y') as [row|]; [|done]. cbn.
      destruct (row !! Z.to_nat x') as [t0|]; [|done].
      destruct (String.eqb t0 "") eqn:E; [done|]. injection Hold as <-. done. }
    destruct Hl as [Hl Hne'].
    apply (mirrorTile_other x y t) in Hl; [|intros [= E1 E2]; apply Hne; f_equal; lia].
    destruct (mirrorTile x y t (z_tiles zone) !! Z.to_nat y') as [row|]; [|done].
    cbn in Hl. rewrite Hl. by rewrite Hne'.
Qed.

(** The zone that [createZone] makes when no tile matrix is passed. *)
Lemma createZone_fresh (zoneId : string) (width height : Z) (w : World) :
  let w' := createZone zoneId width height None w in
  zones w' !! zoneId
  = Some (mkZone zoneId width height
            (replicate (Z.to_nat height) (replicate (Z.to_nat width) "empty")) [])
  ∧ heap w' = heap w.
Proof.
  unfold createZone. cbn.
  destruct (truthy (currentZone w)); cbn; by rewrite lookup_insert_eq.
Qed.

Lemma getTileAt_fresh (zoneId : string) (width height : Z) (w : World) (x y : Z) :
  getTileAt x y (Some zoneId) (createZone zoneId width height None w)
  = if (0 <=? x) && (0 <=? y) && (x <? width) && (y <? height) then Some "empty" else None.
Proof.
  unfold getTileAt. cbn [zone_key].
  rewrite (proj1 (createZone_fresh zoneId width height w)).
  cbn [z_width z_height z_tiles].
  destruct (0 <=? x) eqn:E1, (0 <=? y) eqn:E2, (x <? width) eqn:E3, (y <? height) eqn:E4;
    cbn [andb];
    try (assert (Hout : (x <? 0) || (y <? 0) || (width <=? x) || (height <=? y) = true)
           by (apply orb_true_iff;
               first [ right; lia
                     | left; apply orb_true_iff;
                       first [ right; lia
                             | left; apply orb_true_iff; first [right; lia | left; lia]]]);
         by rewrite Hout).
  assert (Hin : (x <? 0) || (y <? 0) || (width <=? x) || (height <=? y) = false)
    by (repeat (apply orb_false_intro); lia).
  rewrite Hin.
  rewrite (lookup_replicate_2 (Z.to_nat height) _ (Z.to_nat y)) by lia.
  by rewrite (lookup_replicate_2 (Z.to_nat width) _ (Z.to_nat x)) by lia.
Qed.

(** X10. In a zone that was created without a tile matrix, under an id
    that is no member of [Object.prototype]: registering, on the ground
    layer and inside the zone, an entity whose tile component has the
    type [t] succeeds and writes [t] into the zone's tile matrix:
    [getTileAt] gives [t] at that cell and what it gave before at every
    other cell, ['empty'] inside the zone. *)
Theorem registerEntity_mirrors_tile_type (e : eref) (x y : Z) (zoneId : string)
  (width height : Z) (w0 : World) (ent : Entity) (t : string) :
  Js.own_key zoneId →
  heap w0 !! e = Some ent →
  tileTypeOf ent = Some t →
  0 ≤ x < width → 0 ≤ y < height →
  let w := createZone zoneId width height None w0 in
  let w' := (registerEntity e x y GROUND (Some zoneId) w).1 in
  (registerEntity e x y GROUND (Some zoneId) w).2 = true
  ∧ getTileAt x y (Some zoneId) w' = Some t
  ∧ ∀ x' y', (x', y') ≠ (x, y) →
      getTileAt x' y' (Some zoneId) w'
      = if (0 <=? x') && (0 <=? y') && (x' <? width) && (y' <? height)
        then Some "empty" else None.
Proof.
  intros _ He Ht Hx Hy w w'.
  destruct (createZone_fresh zoneId width height w0) as [Hz Hh]. fold w in Hz, Hh.
  assert (He' : heap w !! e = Some ent) by (by rewrite Hh).
  assert (Hv : isValidPosition x y (Some zoneId) w = true).
  { eapply isValidPosition_true; [exact Hz|cbn; lia|cbn; lia]. }
  destruct (registerEntity_mirrors e x y (Some zoneId) w ent _ t Hz He' Hv Ht)
    as [Hset Hother]. fold w' in Hset, Hother.
  destruct (registerEntity_spec e x y GROUND (Some zoneId) w ent _ Hz He' Hv) as (Hok & _).
  split; [exact Hok|]. split; [exact Hset|].
  intros x' y' Hne.
  destruct (registerEntity_tiles e x y GROUND (Some zoneId) w ent _ Hz He' Hv)
    as (zone' & Hz' & Hw & Hhh & _). fold w' in Hz'.
  cbn [z_width z_height] in Hw, Hhh. cbn [zone_key] in Hz'.
  pose proof (getTileAt_fresh zoneId width height w0 x' y') as Hold. fold w in Hold.
  destruct ((0 <=? x') && (0 <=? y') && (x' <? width) && (y' <? height)) eqn:Hin.
  - by apply Hother.
  - unfold getTileAt. cbn [zone_key]. rewrite Hz', Hw, Hhh.
    assert (Hout : (x' <? 0) || (y' <? 0) || (width <=? x') || (height <=? y') = true);
      [|by rewrite Hout].
    destruct (0 <=? x') eqn:E1, (0 <=? y') eqn:E2, (x' <? width) eqn:E3,
      (y' <? height) eqn:E4; cbn [andb] in Hin; try discriminate Hin;
      apply orb_true_iff;
      first [ right; lia
            | left; apply orb_true_iff;
              first [ right; lia
                    | left; apply orb_true_iff; first [right; lia | left; lia]]].
Qed.

(** X11. In a zone created without a tile matrix, whatever stood there
    before: no bucket holds an entity, [getTileAt] gives ['empty'] at the
    cells inside the zone and [null] outside, and a cell is walkable
    exactly when it is inside. *)
Theorem createZone_makes_empty_walkable_zone (zoneId : string) (width height : Z)
  (w : World) (x y : Z) (layer : option Layer) (requiredTags excludedTags : list string) :
  let w' := createZone zoneId width height None w in
  let inside := (0 <=? x) && (0 <=? y) && (x <? width) && (y <? height) in
  getEntitiesAt x y layer (Some zoneId) w' = []
  ∧ isValidPosition x y (Some zoneId) w' = inside
  ∧ getTileAt x y (Some zoneId) w' = (if inside then Some "empty" else None)
  ∧ isWalkable x y requiredTags excludedTags (Some zoneId) w' = inside.
Proof.
  intros w' inside.
  set (zone := mkZone zoneId width height
                 (replicate (Z.to_nat height) (replicate (Z.to_nat width) "empty")) []).
  assert (Hz : zones w' !! zoneId = Some zone).
  { subst w'. unfold createZone. cbn.
    destruct (truthy (currentZone w)); cbn; by rewrite lookup_insert_eq. }
  assert (Hb : ∀ l x0 y0, bucket (key_of (Some zoneId) l x0 y0) w' = []).
  { intros l x0 y0. unfold bucket.
    assert (Hc : cells w' !! key_of (Some zoneId) l x0 y0 = None); [|by rewrite Hc].
    subst w'. unfold createZone. cbn.
    destruct (truthy (currentZone w)); cbn; apply map_lookup_filter_None; right;
      intros v _ Hk; by apply Hk. }
  assert (He : ∀ l, getEntitiesAt x y l (Some zoneId) w' = []).
  { intros l. unfold getEntitiesAt. cbn [zone_key]. rewrite Hz.
    destruct l; by rewrite !Hb. }
  assert (Hv : isValidPosition x y (Some zoneId) w' = inside).
  { unfold isValidPosition. cbn [zone_key]. by rewrite Hz. }
  assert (Ht : getTileAt x y (Some zoneId) w' = if inside then Some "empty" else None).
  { unfold getTileAt. cbn [zone_key]. rewrite Hz. cbn [z_width z_height z_tiles zone].
    subst inside.
    destruct (0 <=? x) eqn:E1, (0 <=? y) eqn:E2, (x <? width) eqn:E3, (y <? height) eqn:E4;
      cbn [andb];
      try (assert (Hout : (x <? 0) || (y <? 0) || (width <=? x) || (height <=? y) = true)
             by (apply orb_true_iff;
                 first [ right; lia
                       | left; apply orb_true_iff;
                         first [ right; lia
                               | left; apply orb_true_iff; first [right; lia | left; lia]]]);
           by rewrite Hout).
    assert (Hin : (x <? 0) || (y <? 0) || (width <=? x) || (height <=? y) = false)
      by (repeat (apply orb_false_intro); lia).
    rewrite Hin.
    rewrite (lookup_replicate_2 (Z.to_nat height) _ (Z.to_nat y)) by lia.
    by rewrite (lookup_replicate_2 (Z.to_nat width) _ (Z.to_nat x)) by lia. }
  split; [apply He|]. split; [exact Hv|]. split; [exact Ht|].
  unfold isWalkable. rewrite Hv, Ht, !He.
  destruct inside; cbn; [|done]. by destruct (decide (0 < length excludedTags)%nat).
Qed.

End GridPlacement.

Lemma register_then_unregister_restores_grid_witness :
  let w1 := (Game.registerEntity Reference.yard_entity 2 2 Game.ACTOR (Some "A")
               Reference.yard_world).1 in
  Game.isValidPosition 2 2 (Some "A") Reference.yard_world = true
  ∧ (Game.unregisterEntity Reference.yard_entity w1).2 = true
  ∧ ∀ k, Game.bucket k (Game.unregisterEntity Reference.yard_entity w1).1
         = Game.bucket k Reference.yard_world.
Proof.
  intros w1.
  assert (Hz : Game.zones Reference.yard_world !! "A" = Some Scenarios.yard_zone)
    by (vm_compute; reflexivity).
  assert (Hne : "A" ≠ "") by discriminate.
  assert (He : Game.heap Reference.yard_world !! Reference.yard_entity
               = Some Scenarios.yard_entity_object) by (vm_compute; reflexivity).
  assert (Hv : Game.isValidPosition 2 2 (Some "A") Reference.yard_world = true)
    by (vm_compute; reflexivity).
  assert (Hb : Reference.yard_entity
               ∉ Game.bucket (Game.key_of (Some "A") Game.ACTOR 2 2) Reference.yard_world).
  { assert (E : Game.bucket (Game.key_of (Some "A") Game.ACTOR 2 2) Reference.yard_world = [])
      by (vm_compute; reflexivity).
    intros Hin. rewrite E in Hin. exact (not_elem_of_nil _ Hin). }
  assert (Hl : Reference.yard_entity ∉ Game.z_entities Scenarios.yard_zone).
  { intros Hin. exact (not_elem_of_nil _ Hin). }
  pose proof (register_then_unregister_restores_grid Reference.yard_entity 2 2 Game.ACTOR
                "A" Reference.yard_world _ _ Hz Hne He Hv Hb Hl) as H.
  cbv zeta in H. destruct H as (H1 & H2 & _).
  split; [exact Hv|]. split; [exact H1|exact H2].
Defined.

Lemma registerEntity_mirrors_tile_type_witness :
  let w := Game.createZone "pond" 3 3 None Scenarios.sod_world in
  (Js.own_key "pond" ∧ Game.tileTypeOf Scenarios.sod_entity = Some "grass")
  ∧ Game.getTileAt 1 1 (Some "pond") w = Some "empty"
  ∧ Game.getTileAt 1 1 (Some "pond")
      (Game.registerEntity 0%nat 1 1 Game.GROUND (Some "pond") w).1
    = Some "grass".
Proof.
  intros w.
  assert (Hk : Js.own_key "pond") by (apply (bool_decide_unpack _); vm_compute; exact I).
  assert (He : Game.heap Scenarios.sod_world !! 0%nat = Some Scenarios.sod_entity)
    by (vm_compute; reflexivity).
  assert (Ht : Game.tileTypeOf Scenarios.sod_entity = Some "grass")
    by (vm_compute; reflexivity).
  split; [split; [exact Hk|exact Ht]|]. split; [vm_compute; reflexivity|].
  exact (proj1 (proj2 (registerEntity_mirrors_tile_type 0%nat 1 1 "pond" 3 3
                         Scenarios.sod_world _ "grass" Hk He Ht
                         ltac:(lia) ltac:(lia)))).
Defined.

Section GridGeometry.

Import Game Reference.

(** X12. With an integer cell size [c] and a world point whose
    coordinates are non-negative integers, all of them below 2^53:
    [worldToGrid] maps the point to the cell [(x, y)] exactly when the
    point lies in the half-open square of that cell, from [x * c] up to,
    and not including, [(x + 1) * c], and likewise for [y]; the rounding
    of the division does not carry the quotient over the next integer. *)
Theorem worldToGrid_cell_square (w : World) (c n m x y : Z) :
  cellSize w = inject_Z c → 0 < c < 2 ^ 53 → 0 ≤ n < 2 ^ 53 → 0 ≤ m < 2 ^ 53 →
  worldToGrid (inject_Z n) (inject_Z m) w = (x, y)
  ↔ (x * c ≤ n < (x + 1) * c) ∧ (y * c ≤ m < (y + 1) * c).
Proof.
  intros Hcs Hc Hn Hm. unfold worldToGrid. rewrite Hcs.
  rewrite !floor_integer_quotient by done.
  assert (Hcell : ∀ a z, z = a / c ↔ z * c ≤ a < (z + 1) * c).
  { intros a z. split.
    - intros ->. pose proof (Z.mul_div_le a c ltac:(lia)).
      pose proof (Z.mul_succ_div_gt a c ltac:(lia)). lia.
    - intros Hz. apply Z.div_unique with (r := a - z * c); lia. }
  rewrite <- !Hcell. split; [by intros [= <- <-]|by intros [-> ->]].
Qed.

(** X13. With an integer cell size [c] of at least 1 and a zone, under
    an id that is no member of [Object.prototype], whose width and height
    keep [(2 * width + 1) * c] and [(2 * height + 1) * c] below 2^53:
    after a successful [setCurrentZone], [getDimensions] gives the zone's
    size, and the centre of every valid cell of the current zone lies
    strictly inside the rectangle of [getWorldDimensions]. *)
Theorem current_zone_cells_lie_in_world (zoneId : string) (w : World) (zone : Zone)
  (x y c : Z) :
  Js.own_key zoneId →
  zones w !! zoneId = Some zone → cellSize w = inject_Z c → 0 < c →
  (2 * z_width zone + 1) * c < 2 ^ 53 → (2 * z_height zone + 1) * c < 2 ^ 53 →
  let w' := (setCurrentZone zoneId w).1 in
  isValidPosition x y (getCurrentZoneId w') w' = true →
  getDimensions w' = (z_width zone, z_height zone)
  ∧ (0 < (gridToWorld x y w').1)%Q
  ∧ ((gridToWorld x y w').1 < (getWorldDimensions w').1)%Q
  ∧ (0 < (gridToWorld x y w').2)%Q
  ∧ ((gridToWorld x y w').2 < (getWorldDimensions w').2)%Q.
Proof.
  intros _ Hz Hcs Hc Hbw Hbh w'.
  destruct (setCurrentZone_spec zoneId w zone Hz)
    as (_ & Hcur & Hdims & _ & _ & Hzones & Hcell & _).
  fold w' in Hcur, Hdims, Hzones, Hcell.
  unfold getCurrentZoneId, getDimensions, getWorldDimensions, gridToWorld, isValidPosition.
  rewrite Hcur, Hdims, Hcell, Hcs. cbn [zone_key fst snd]. rewrite Hzones, Hz.
  intros Hv.
  apply andb_prop in Hv as [Hv Hv4]. apply andb_prop in Hv as [Hv Hv3].
  apply andb_prop in Hv as [Hv1 Hv2].
  assert (Hcentre : ∀ n m : Z, 0 ≤ n < m → (2 * m + 1) * c < 2 ^ 53 →
            (0 < Double.add (Double.mul (inject_Z n) (inject_Z c))
                   (Double.div (inject_Z c) 2))%Q
            ∧ (Double.add (Double.mul (inject_Z n) (inject_Z c))
                 (Double.div (inject_Z c) 2)
               < Double.mul (inject_Z m) (inject_Z c))%Q).
  { intros n m Hn Hm.
    destruct (floor_cell_centre c n Hc) as [Hmid _]; [lia|nia|].
    cbv zeta in Hmid. rewrite Hmid.
    assert (Hw : (Double.mul (inject_Z m) (inject_Z c) == inject_Z (m * c))%Q).
    { unfold Double.mul. rewrite round_exact; [by rewrite inject_Z_mult|].
      apply (representable_Z _ (m * c)); [nia|by rewrite inject_Z_mult]. }
    rewrite Hw. unfold Qlt, Qdiv, Qmult, Qinv, inject_Z. cbn [Qnum Qden]. nia. }
  split; [done|].
  destruct (Hcentre x (z_width zone)) as [H1 H2]; [lia|done|].
  destruct (Hcentre y (z_height zone)) as [H3 H4]; [lia|done|].
  done.
Qed.

End GridGeometry.

Lemma worldToGrid_cell_square_witness :
  (Game.cellSize Reference.fresh_world = inject_Z 32 ∧ 3 * 32 ≤ 100 < (3 + 1) * 32)
  ∧ Game.worldToGrid (inject_Z 100) (inject_Z 37) Reference.fresh_world = (3, 1).
Proof.
  assert (H0 : Game.cellSize Reference.fresh_world = inject_Z 32) by reflexivity.
  assert (H1 : 0 < 32 < 2 ^ 53) by (split; reflexivity).
  assert (H2 : 0 ≤ 100 < 2 ^ 53) by (split; [discriminate|reflexivity]).
  assert (H3 : 0 ≤ 37 < 2 ^ 53) by (split; [discriminate|reflexivity]).
  assert (H4 : 3 * 32 ≤ 100 < (3 + 1) * 32) by (split; [discriminate|reflexivity]).
  assert (H5 : 1 * 32 ≤ 37 < (1 + 1) * 32) by (split; [discriminate|reflexivity]).
  split; [auto|].
  exact (proj2 (worldToGrid_cell_square Reference.fresh_world 32 100 37 3 1 H0 H1 H2 H3)
           (conj H4 H5)).
Defined.

Lemma current_zone_cells_lie_in_world_witness :
  let w' := (Game.setCurrentZone "A" Reference.yard_world).1 in
  (Js.own_key "A" ∧ Game.isValidPosition 2 3 (Game.getCurrentZoneId w') w' = true)
  ∧ Game.getDimensions w' = (5, 5)
  ∧ ((Game.gridToWorld 2 3 w').1 < (Game.getWorldDimensions w').1)%Q.
Proof.
  intros w'.
  assert (Hk : Js.own_key "A") by (apply (bool_decide_unpack _); vm_compute; exact I).
  assert (Hz : Game.zones Reference.yard_world !! "A" = Some Scenarios.yard_zone)
    by (vm_compute; reflexivity).
  assert (Hc : Game.cellSize Reference.yard_world = inject_Z 32) by reflexivity.
  assert (Hv : Game.isValidPosition 2 3 (Game.getCurrentZoneId w') w' = true)
    by (vm_compute; reflexivity).
  pose proof (current_zone_cells_lie_in_world "A" Reference.yard_world _ 2 3 32 Hk Hz Hc
                ltac:(lia) ltac:(vm_compute; reflexivity) ltac:(vm_compute; reflexivity) Hv)
    as H.
  destruct H as (H1 & _ & H3 & _).
  split; [split; [exact Hk|exact Hv]|]. split; [exact H1|exact H3].
Defined.

Section GridQueries.

Import Game Reference.

(** X14. In every state reached by the grid operations from a grid on
    which nothing is registered, [findEntitiesByTag(tag, zone)] called
    with the zone id of an entity, an id that is no member of
    [Object.prototype], returns the entity exactly when it is on the
    grid and carries the tag, and returns no entity twice. *)
Theorem findEntitiesByTag_finds_registered (w0 w : World) (e : eref) (ent : Entity)
  (tag : string) :
  unoccupied w0 → reachable w0 w → heap w !! e = Some ent →
  Js.own_key (zone_key (e_zoneId ent)) →
  (e ∈ findEntitiesByTag tag (e_zoneId ent) w ↔ registered e w ∧ tag ∈ e_tags ent)
  ∧ NoDup (findEntitiesByTag tag (e_zoneId ent) w).
Proof.
  intros H0 Hreach He _.
  pose proof (reachable_inv w0 w H0 Hreach) as Hinv.
  assert (Htag : hasTagRef tag w e = true ↔ tag ∈ e_tags ent).
  { unfold hasTagRef, includes. rewrite He. apply bool_decide_eq_true. }
  unfold findEntitiesByTag.
  destruct (zones w !! zone_key (e_zoneId ent)) as [zone|] eqn:Hz.
  - split; [|apply NoDup_filter, (inv_zone_nodup w Hinv _ _ Hz)].
    rewrite list_elem_of_filter, Htag. split.
    + intros [Ht Hin]. split; [|done].
      destruct (inv_zone_member w Hinv _ _ _ Hz Hin) as (ent' & He' & _ & Hb).
      exists ent'. by split.
    + intros [(ent' & He' & Hb) Ht]. split; [done|].
      assert (ent' = ent) as -> by congruence.
      destruct (inv_bucket_zone w Hinv _ _ He Hb) as (zone' & Hz' & Hin). congruence.
  - split; [|constructor]. split; [by intros Hin%not_elem_of_nil|].
    intros [(ent' & He' & Hb) _]. assert (ent' = ent) as -> by congruence.
    destruct (inv_bucket_zone w Hinv _ _ He Hb) as (zone' & Hz' & _). congruence.
Qed.

Lemma assign_lookup {A} (hole : A) (i : nat) (v : A) (l : list A) :
  assign hole i v l !! i = Some v.
Proof.
  unfold assign. apply list_lookup_insert_eq. rewrite length_app, length_replicate. lia.
Qed.

Lemma assign_lookup_ne {A} (hole : A) (i j : nat) (v : A) (l : list A) :
  i ≠ j →
  assign hole i v l !! j
  = match l !! j with
    | Some a => Some a
    | None => if decide (j < i)%nat then Some hole else None
    end.
Proof.
  intros Hne. unfold assign. rewrite list_lookup_insert_ne by done.
  destruct (l !! j) as [a|] eqn:Hl.
  - by apply lookup_app_l_Some.
  - apply lookup_ge_None in Hl. rewrite lookup_app_r by done.
    case_decide as Hj.
    + apply lookup_replicate_2. lia.
    + apply lookup_ge_None. rewrite length_replicate. lia.
Qed.

(** [setTileAt] on a tile matrix whose rows are lists of their own. *)
Lemma setTileAt_effect (x y : Z) (tileId : string) (zoneId : option string)
  (w : World) (zone : Zone) :
  zones w !! zone_key zoneId = Some zone → tileId ≠ "" →
  let inside := (0 <=? x) && (0 <=? y) && (x <? z_width zone) && (y <? z_height zone) in
  let '(w', ok, events) := setTileAt x y tileId zoneId w in
  ok = inside
  ∧ (if inside
     then events = [mkGridChanged x y tileId zoneId]
          ∧ getTileAt x y zoneId w' = Some tileId
          ∧ ∀ x' y', (x', y') ≠ (x, y) → getTileAt x' y' zoneId w' = getTileAt x' y' zoneId w
     else events = [] ∧ w' = w).
Proof.
  intros Hz Hid inside. unfold setTileAt. rewrite Hz.
  assert (Hout : (x <? 0) || (y <? 0) || (z_width zone <=? x) || (z_height zone <=? y)
                 = negb inside).
  { subst inside. destruct (0 <=? x) eqn:E1, (0 <=? y) eqn:E2, (x <? z_width zone) eqn:E3,
      (y <? z_height zone) eqn:E4; cbn [andb negb];
      first [ repeat (apply orb_false_intro); lia
            | apply orb_true_iff;
              first [ right; lia
                    | left; apply orb_true_iff;
                      first [ right; lia
                            | left; apply orb_true_iff; first [right; lia | left; lia]]]]. }
  rewrite Hout. destruct inside eqn:Hin; cbn [negb]; [|done].
  split; [done|]. split; [done|].
  apply andb_prop in Hin as [Hin Hv4]. apply andb_prop in Hin as [Hin Hv3].
  apply andb_prop in Hin as [Hv1 Hv2].
  assert (Hne : String.eqb tileId "" = false) by (by apply String.eqb_neq).
  split.
  - unfold getTileAt. cbn [zones with_zones]. rewrite lookup_insert_eq.
    cbn [z_width z_height z_tiles zone_with_tiles]. rewrite Hout. cbn [negb].
    rewrite assign_lookup, assign_lookup. by rewrite Hne.
  - intros x' y' Hxy. unfold getTileAt. cbn [zones with_zones].
    rewrite lookup_insert_eq, Hz. cbn [z_width z_height z_tiles zone_with_tiles].
    destruct ((x' <? 0) || (y' <? 0) || (z_width zone <=? x') || (z_height zone <=? y'))
      eqn:Hb; [done|].
    apply orb_false_elim in Hb as [Hb Hb4]. apply orb_false_elim in Hb as [Hb Hb3].
    apply orb_false_elim in Hb as [Hb1 Hb2].
    destruct (decide (Z.to_nat y' = Z.to_nat y)) as [Ey|Ey].
    + rewrite Ey, assign_lookup.
      assert (Hx : Z.to_nat x ≠ Z.to_nat x').
      { intros Ex. apply Hxy. f_equal; lia. }
      rewrite (assign_lookup_ne _ _ _ _ _ Hx).
      destruct (z_tiles zone !! Z.to_nat y) as [row|]; cbn [default from_option id].
      * destruct (row !! Z.to_nat x'); [done|]. by case_decide.
      * rewrite lookup_nil. by case_decide.
    + rewrite assign_lookup_ne by done.
      destruct (z_tiles zone !! Z.to_nat y') as [row|]; [done|].
      case_decide; [|done]. by rewrite lookup_nil.
Qed.

(** X15. In a zone that was created without a tile matrix, under an id
    that is no member of [Object.prototype]: [setTileAt] inside the zone
    returns [true], publishes one ['grid:changed'] event for the cell,
    makes [getTileAt] give the new tile id at the cell (for a non-empty
    id) and leaves what [getTileAt] gives at every other cell unchanged;
    outside the zone it returns [false], publishes nothing and changes
    nothing. *)
Theorem setTileAt_then_getTileAt (x y : Z) (tileId : string) (zoneId : string)
  (width height : Z) (w0 : World) :
  Js.own_key zoneId → tileId ≠ "" →
  let w := createZone zoneId width height None w0 in
  let inside := (0 <=? x) && (0 <=? y) && (x <? width) && (y <? height) in
  let '(w', ok, events) := setTileAt x y tileId (Some zoneId) w in
  ok = inside
  ∧ (if inside
     then events = [mkGridChanged x y tileId (Some zoneId)]
          ∧ getTileAt x y (Some zoneId) w' = Some tileId
          ∧ ∀ x' y', (x', y') ≠ (x, y) →
              getTileAt x' y' (Some zoneId) w' = getTileAt x' y' (Some zoneId) w
     else events = [] ∧ w' = w).
Proof.
  intros _ Hid w.
  pose proof (setTileAt_effect x y tileId (Some zoneId) w _
                (proj1 (createZone_fresh zoneId width height w0)) Hid) as H.
  exact H.
Qed.

End GridQueries.

(** The coin's yard is a grid on which nothing is registered, and the
    coin's world is reached from it by one registration. *)
Lemma coin_yard_unoccupied : Reference.unoccupied Scenarios.coin_yard.
Proof.
  assert (Hcells : Game.cells Scenarios.coin_yard = ∅) by (vm_compute; reflexivity).
  assert (Hzones : map_to_list (Game.zones Scenarios.coin_yard)
                   = [("A", Game.mkZone "A" 5 5
                              (replicate 5 (replicate 5 "empty")) [])])
    by (vm_compute; reflexivity).
  split.
  - intros k. unfold Game.bucket. rewrite Hcells, lookup_empty. reflexivity.
  - intros z zone E. apply elem_of_map_to_list in E.
    pose proof (eq_rect _ (λ m, (z, zone) ∈ m) E _ Hzones) as E2. cbv beta in E2.
    apply list_elem_of_singleton in E2. injection E2 as -> ->. reflexivity.
Qed.

Lemma coin_world_reachable : Reference.reachable Scenarios.coin_yard Scenarios.coin_world.
Proof.
  apply Reference.reach_step; [apply Reference.reach_start|].
  assert (Hcells : Game.cells Scenarios.coin_yard = ∅) by (vm_compute; reflexivity).
  intros (ent & _ & Hin). unfold Game.bucket in Hin.
  rewrite Hcells, lookup_empty in Hin. exact (not_elem_of_nil _ Hin).
Qed.

Lemma findEntitiesByTag_finds_registered_witness :
  Game.heap Scenarios.coin_world !! Scenarios.coin = Some Scenarios.coin_entity
  ∧ NoDup (Game.findEntitiesByTag "interactable" (Some "A") Scenarios.coin_world).
Proof.
  assert (He : Game.heap Scenarios.coin_world !! Scenarios.coin = Some Scenarios.coin_entity)
    by (vm_compute; reflexivity).
  split; [exact He|].
  exact (proj2 (findEntitiesByTag_finds_registered Scenarios.coin_yard Scenarios.coin_world
                  Scenarios.coin Scenarios.coin_entity "interactable"
                  coin_yard_unoccupied coin_world_reachable He
                  ltac:(apply (bool_decide_unpack _); vm_compute; exact I))).
Defined.

Lemma setTileAt_then_getTileAt_witness :
  let w := Game.createZone "A" 5 5 None Reference.fresh_world in
  Js.own_key "A"
  ∧ (Game.setTileAt 1 1 "grass" (Some "A") w).1.2 = true
  ∧ Game.getTileAt 1 1 (Some "A") (Game.setTileAt 1 1 "grass" (Some "A") w).1.1
    = Some "grass".
Proof.
  intros w.
  assert (Hk : Js.own_key "A") by (apply (bool_decide_unpack _); vm_compute; exact I).
  assert (Hid : "grass" ≠ "") by discriminate.
  split; [exact Hk|].
  pose proof (setTileAt_then_getTileAt 1 1 "grass" "A" 5 5 Reference.fresh_world Hk Hid)
    as H.
  cbv zeta in H. fold w in H.
  destruct (Game.setTileAt 1 1 "grass" (Some "A") w) as [[w' ok] events].
  destruct H as [Hok [_ [Hget _]]]. cbn [fst snd]. split; [exact Hok|exact Hget].
Defined.

(* ===================================================================== *)
(** * Further properties of the entity registry *)
(* ===================================================================== *)

Section TagProperties.

Import Game Reference Scenarios.

Lemma count_occ_remove_first (tag t : string) (l : list string) :
  count_occ String.string_dec (remove_first tag l) t
  = if decide (t = tag) then pred (count_occ String.string_dec l t) else count_occ String.string_dec l t.
Proof.
  induction l as [|a l IH]; cbn [remove_first count_occ]; [by case_decide|].
  destruct (decide (a = tag)) as [->|Ha].
  - destruct (decide (t = tag)) as [->|Hne].
    + by destruct (String.string_dec tag tag).
    + destruct (String.string_dec tag t) as [E|_]; [by destruct Hne|done].
  - cbn [count_occ]. rewrite IH.
    destruct (String.string_dec a t) as [E|_]; [|done].
    rewrite decide_False by congruence. by rewrite decide_False by congruence.
Qed.

Lemma count_occ_elem_of (x : string) (l : list string) :
  x ∈ l ↔ (1 ≤ count_occ String.string_dec l x)%nat.
Proof. rewrite list_elem_of_In. apply (count_occ_In String.string_dec l x). Qed.

Lemma count_occ_not_elem_of (x : string) (l : list string) :
  x ∉ l → count_occ String.string_dec l x = 0%nat.
Proof. rewrite count_occ_elem_of. lia. Qed.

Lemma with_heap_same (w : World) : with_heap (heap w) w = w.
Proof. by destruct w. Qed.

Lemma ent_with_tags_same (ent : Entity) : ent_with_tags (e_tags ent) ent = ent.
Proof. by destruct ent. Qed.

(** X16. [addTag] on an entity leaves the tag present, and a second
    [addTag] of the same tag returns [false] and changes nothing: the tag
    occurs once if it was absent, and as often as before otherwise. *)
Theorem addTag_is_idempotent (tag : string) (e : eref) (w : World) (ent : Entity) :
  heap w !! e = Some ent →
  let w1 := (addTag tag e w).1 in
  hasTag tag e w1 = true
  ∧ addTag tag e w1 = (w1, false)
  ∧ ∃ ent1, heap w1 !! e = Some ent1
      ∧ count_occ String.string_dec (e_tags ent1) tag
        = Nat.max 1 (count_occ String.string_dec (e_tags ent) tag).
Proof.
  intros He w1. subst w1. unfold addTag, hasTag, hasTagRef. rewrite He.
  destruct (includes tag (e_tags ent)) eqn:Hin; cbn [fst].
  - rewrite He, Hin. split; [done|]. split; [done|]. exists ent. split; [done|].
    apply bool_decide_eq_true, count_occ_elem_of in Hin. lia.
  - unfold update_entity. rewrite He. cbn [heap with_heap]. rewrite lookup_insert_eq.
    cbn [e_tags ent_with_tags].
    assert (Hnow : includes tag (e_tags ent ++ [tag]) = true).
    { apply bool_decide_eq_true, elem_of_app. right. apply list_elem_of_singleton. done. }
    rewrite Hnow. split; [done|]. split; [done|]. eexists. split; [done|].
    cbn [e_tags ent_with_tags]. rewrite count_occ_app. cbn.
    apply bool_decide_eq_false, count_occ_not_elem_of in Hin.
    rewrite Hin. by destruct (String.string_dec tag tag).
Qed.

(** X17. On an entity that does not carry the tag, [addTag] followed by
    [removeTag] of the same tag succeeds and gives back the state from
    before the [addTag]. *)
Theorem addTag_then_removeTag_restores (tag : string) (e : eref) (w : World)
  (ent : Entity) :
  heap w !! e = Some ent → tag ∉ e_tags ent →
  (addTag tag e w).2 = true
  ∧ removeTag tag e (addTag tag e w).1 = (w, true).
Proof.
  intros He Hn. unfold addTag. rewrite He.
  assert (Hin : includes tag (e_tags ent) = false) by (by apply bool_decide_eq_false).
  rewrite Hin. cbn [fst snd]. split; [done|].
  unfold removeTag, update_entity. rewrite He. cbn [heap with_heap].
  rewrite lookup_insert_eq. cbn [e_tags ent_with_tags].
  assert (Hnow : includes tag (e_tags ent ++ [tag]) = true).
  { apply bool_decide_eq_true, elem_of_app. right. by apply list_elem_of_singleton. }
  rewrite Hnow. f_equal.
  rewrite remove_first_app_fresh by done.
  rewrite insert_insert_eq.
  assert (Hent : ent_with_tags (e_tags ent) (ent_with_tags (e_tags ent ++ [tag]) ent) = ent)
    by (by destruct ent).
  rewrite Hent, (insert_id _ _ _ He). exact (with_heap_same w).
Qed.

(** X18. [removeTag] succeeds exactly when the entity carries the tag,
    and then removes one occurrence of it: a tag that was listed twice is
    still carried afterwards.  The other tags are kept, and a failed
    [removeTag] changes nothing. *)
Theorem removeTag_removes_one_occurrence (tag : string) (e : eref) (w : World)
  (ent : Entity) :
  heap w !! e = Some ent →
  let '(w1, ok) := removeTag tag e w in
  ok = includes tag (e_tags ent)
  ∧ (ok = false → w1 = w)
  ∧ ∃ ent1, heap w1 !! e = Some ent1
      ∧ (∀ t, count_occ String.string_dec (e_tags ent1) t
              = if decide (t = tag) then pred (count_occ String.string_dec (e_tags ent) t)
                else count_occ String.string_dec (e_tags ent) t)
      ∧ hasTag tag e w1 = bool_decide (2 ≤ count_occ String.string_dec (e_tags ent) tag)%nat.
Proof.
  intros He. unfold removeTag. rewrite He.
  destruct (includes tag (e_tags ent)) eqn:Hin.
  - split; [done|]. split; [done|].
    unfold update_entity, hasTag, hasTagRef. rewrite He. cbn [heap with_heap].
    rewrite lookup_insert_eq. eexists. split; [done|]. cbn [e_tags ent_with_tags].
    split; [intros t; apply count_occ_remove_first|].
    unfold includes. apply bool_decide_ext.
    rewrite count_occ_elem_of, count_occ_remove_first.
    rewrite decide_True by done. lia.
  - split; [done|]. split; [done|]. exists ent. split; [done|].
    apply bool_decide_eq_false in Hin.
    pose proof (count_occ_not_elem_of _ _ Hin) as H0.
    split.
    + intros t. case_decide; [subst; by rewrite H0|done].
    + unfold hasTag, hasTagRef, includes. rewrite He, H0.
      rewrite bool_decide_eq_false_2 by done. by rewrite bool_decide_eq_false_2 by lia.
Qed.

End TagProperties.

Lemma addTag_is_idempotent_witness :
  let w1 := (Game.addTag "npc" Reference.yard_entity Reference.yard_world).1 in
  Game.heap Reference.yard_world !! Reference.yard_entity = Some Scenarios.yard_entity_object
  ∧ Game.addTag "npc" Reference.yard_entity w1 = (w1, false).
Proof.
  intros w1.
  assert (He : Game.heap Reference.yard_world !! Reference.yard_entity
               = Some Scenarios.yard_entity_object) by (vm_compute; reflexivity).
  split; [exact He|].
  exact (proj1 (proj2 (addTag_is_idempotent "npc" Reference.yard_entity Reference.yard_world
                         _ He))).
Defined.

Lemma addTag_then_removeTag_restores_witness :
  ("npc" ∉ Game.e_tags Scenarios.yard_entity_object)
  ∧ Game.removeTag "npc" Reference.yard_entity
      (Game.addTag "npc" Reference.yard_entity Reference.yard_world).1
    = (Reference.yard_world, true).
Proof.
  assert (He : Game.heap Reference.yard_world !! Reference.yard_entity
               = Some Scenarios.yard_entity_object) by (vm_compute; reflexivity).
  assert (Hn : "npc" ∉ Game.e_tags Scenarios.yard_entity_object).
  { intros Hin. exact (not_elem_of_nil _ Hin). }
  split; [exact Hn|].
  exact (proj2 (addTag_then_removeTag_restores "npc" Reference.yard_entity
                  Reference.yard_world _ He Hn)).
Defined.

Lemma removeTag_removes_one_occurrence_witness :
  (Game.heap Scenarios.coin_yard !! Scenarios.coin ≠ None)
  ∧ (Game.removeTag "interactable" Scenarios.coin Scenarios.coin_yard).2 = true.
Proof.
  assert (He : Game.heap Scenarios.coin_yard !! Scenarios.coin
               = Some (default Reference.blank_entity
                         (Game.heap Scenarios.coin_yard !! Scenarios.coin)))
    by (vm_compute; reflexivity).
  split; [rewrite He; discriminate|].
  pose proof (removeTag_removes_one_occurrence "interactable" Scenarios.coin
                Scenarios.coin_yard _ He) as H.
  destruct (Game.removeTag "interactable" Scenarios.coin Scenarios.coin_yard) as [w1 ok].
  destruct H as [Hok _]. cbn [snd]. rewrite Hok. vm_compute. reflexivity.
Defined.

Section ComponentFrames.

Import Game Reference Scenarios.

Lemma touches_only_refl (e : eref) (w : World) : touches_only e w w.
Proof. repeat split; try done. intros ent He. by exists ent. Qed.

Lemma touches_only_trans (e : eref) (w1 w2 w3 : World) :
  touches_only e w1 w2 → touches_only e w2 w3 → touches_only e w1 w3.
Proof.
  intros (Hg1 & Ho1 & Hr1 & Hf1 & He1) (Hg2 & Ho2 & Hr2 & Hf2 & He2).
  split; [congruence|]. split; [congruence|]. split; [congruence|]. split.
  - intros e' Hne. rewrite Hf2 by done. by apply Hf1.
  - intros ent He. destruct (He1 ent He) as (ent2 & He2' & Hb2 & Hp2).
    destruct (He2 ent2 He2') as (ent3 & He3 & Hb3 & Hp3).
    exists ent3. split; [done|]. split; [congruence|]. by etrans.
Qed.

Lemma update_entity_touches (e : eref) (f : Entity → Entity) (w : World) :
  (∀ ent, heap w !! e = Some ent →
          body (f ent) = body ent ∧ e_tags ent `prefix_of` e_tags (f ent)) →
  touches_only e w (update_entity e f w)
  ∧ subscriptions (update_entity e f w) = subscriptions w.
Proof.
  intros Hf. unfold update_entity. destruct (heap w !! e) as [ent|] eqn:He.
  - split; [|done]. repeat split; try done.
    + intros e' Hne. cbn. by rewrite lookup_insert_ne.
    + intros ent0 He0. cbn. rewrite lookup_insert_eq. exists (f ent).
      assert (ent0 = ent) as -> by congruence. split; [done|]. by apply Hf.
  - split; [apply touches_only_refl|done].
Qed.

Lemma addTag_touches (tag : string) (e : eref) (w : World) :
  touches_only e w (addTag tag e w).1
  ∧ subscriptions (addTag tag e w).1 = subscriptions w.
Proof.
  unfold addTag.
  destruct (heap w !! e) as [ent|] eqn:He; [|split; [apply touches_only_refl|done]].
  destruct (includes tag (e_tags ent)); [split; [apply touches_only_refl|done]|].
  apply update_entity_touches. intros ent0 He0.
  assert (ent0 = ent) as -> by congruence. split; [done|]. by apply prefix_app_r.
Qed.

Lemma addTags_touches (tags : list string) (e : eref) (w : World) :
  touches_only e w (foldl (λ acc tag, (addTag tag e acc).1) w tags)
  ∧ subscriptions (foldl (λ acc tag, (addTag tag e acc).1) w tags) = subscriptions w.
Proof.
  revert w. induction tags as [|t ts IH]; intros w; [split; [apply touches_only_refl|done]|].
  cbn [foldl]. destruct (IH (addTag t e w).1) as [IH1 IH2].
  destruct (addTag_touches t e w) as [H1 H2].
  split; [by eapply touches_only_trans|congruence].
Qed.

Lemma update_components_touches (e : eref) (f : Components → Components) (w : World) :
  touches_only e w (update_components e f w)
  ∧ subscriptions (update_components e f w) = subscriptions w.
Proof. apply update_entity_touches. intros ent _. done. Qed.

Lemma subscribe_touches (eventName : string) (e e' : eref) (w : World) :
  touches_only e w (subscribe eventName e' w).
Proof. repeat split; try done. intros ent He. by exists ent. Qed.

Lemma addComponent_touches (e : eref) (type : string) (cfg : CompConfig) (w : World) :
  touches_only e w (addComponent_run e type cfg w).1.
Proof.
  unfold addComponent_run.
  destruct (String.eqb type "tile").
  { unfold tile_init. cbn [fst].
    eapply touches_only_trans; [|apply update_components_touches].
    eapply touches_only_trans; [|apply addTags_touches].
    destruct (default true (cfg_walkable cfg));
      [apply addTag_touches|apply touches_only_refl]. }
  destruct (String.eqb type "player").
  { unfold player_init. cbn [fst]. apply (addTag_touches "player"). }
  destruct (String.eqb type "interactable"); [|apply touches_only_refl].
  unfold interactable_init. cbn [fst].
  eapply touches_only_trans; [|apply update_components_touches].
  eapply touches_only_trans; [apply (addTag_touches "interactable")|apply subscribe_touches].
Qed.

(** [addComponent] ends by the TypeError exactly for the player
    component. *)
Lemma addComponent_threw (e : eref) (type : string) (cfg : CompConfig) (w : World) :
  (addComponent_run e type cfg w).2 = InitThrew ↔ type = "player".
Proof.
  unfold addComponent_run.
  destruct (String.eqb type "tile") eqn:E1.
  { apply String.eqb_eq in E1 as ->. by destruct (tile_init e cfg w). }
  destruct (String.eqb type "player") eqn:E2.
  { by apply String.eqb_eq in E2 as ->. }
  apply String.eqb_neq in E2.
  destruct (String.eqb type "interactable"); [by destruct (interactable_init e cfg w)|done].
Qed.

Lemma addComponents_touches (e : eref) (comps : list (string * CompConfig)) (w : World) :
  touches_only e w (addComponents e comps w).1.
Proof.
  revert w. induction comps as [|c cs IH]; intros w; [apply touches_only_refl|].
  cbn [addComponents]. pose proof (addComponent_touches e c.1 c.2 w) as H.
  destruct (addComponent_run e c.1 c.2 w) as [w1 r]. cbn [fst] in H.
  destruct r; cbn [fst]; first [by eapply touches_only_trans; [exact H|apply IH] | done].
Qed.

(** The loop over the components ends by the TypeError exactly when one
    of them is a player component. *)
Lemma addComponents_completion (e : eref) (comps : list (string * CompConfig)) (w : World) :
  (addComponents e comps w).2
  = if bool_decide ("player" ∈ comps.*1) then Events.Threw "TypeError"
    else Events.Returned.
Proof.
  revert w. induction comps as [|c cs IH]; intros w; [done|].
  cbn [addComponents]. pose proof (addComponent_threw e c.1 c.2 w) as H.
  destruct (addComponent_run e c.1 c.2 w) as [w1 r]. cbn [snd] in H.
  cbn [fmap list_fmap].
  destruct (decide (c.1 = "player")) as [E|E].
  - rewrite (proj2 H E). cbn [snd]. rewrite bool_decide_eq_true_2; [done|].
    rewrite E. by left.
  - assert (Hcs : bool_decide ("player" ∈ c.1 :: cs.*1) = bool_decide ("player" ∈ cs.*1)).
    { apply bool_decide_ext. rewrite elem_of_cons. naive_solver. }
    rewrite Hcs. destruct r; cbn [snd]; try apply IH. by destruct E; apply H.
Qed.

(** What [createEntity] does, whatever the configuration. *)
Lemma createEntity_effect (type : string) (config : Config) (w : World) :
  let id := if truthy (c_id config) then default "" (c_id config)
            else "entity-" +:+ pretty (idCounter w + 1)%N in
  let entity :=
    mkEntity id type (default [] (c_tags config)) true (mkComponents None None None)
      (default (0%Q, 0%Q) (c_position config))
      (num_or (c_zIndex config) 0) (num_or (c_gridX config) 0) (num_or (c_gridY config) 0)
      (match c_layer config with
       | Some GROUND | None => ACTOR
       | Some l => l
       end)
      (if truthy (c_zoneId config) then c_zoneId config else currentZone w) in
  let c := if bool_decide ("player" ∈ (c_components config).*1)
           then Events.Threw "TypeError" else Events.Returned in
  ∃ w1 ent,
    createEntity_run type config w = (w1, nextRef w, id, c)
    ∧ heap w1 !! nextRef w = Some ent
    ∧ body ent = body entity
    ∧ e_tags entity `prefix_of` e_tags ent
    ∧ entities w1 = <[id := nextRef w]> (entities w)
    ∧ grid_state w1 = grid_state w
    ∧ published w1 = published w ++ (if bool_decide ("player" ∈ (c_components config).*1)
                                     then [] else [EvEntitySpawn (nextRef w)])
    ∧ timers w1 = timers w
    ∧ (∀ e', e' ≠ nextRef w → heap w1 !! e' = heap w !! e').
Proof.
  intros id entity c. unfold createEntity_run.
  set (gen := if truthy (c_id config) then (default "" (c_id config), w)
              else generateId "entity-" w).
  assert (Hgen : gen.1 = id ∧ grid_state gen.2 = grid_state w ∧ outbox gen.2 = outbox w
                 ∧ nextRef gen.2 = nextRef w ∧ heap gen.2 = heap w
                 ∧ entities gen.2 = entities w ∧ currentZone gen.2 = currentZone w).
  { subst gen id. by destruct (truthy (c_id config)). }
  destruct gen as [id' w0]. cbn [fst snd] in Hgen.
  destruct Hgen as (-> & Hg0 & Ho0 & Hn0 & Hh0 & He0 & Hc0).
  rewrite Hc0, Hn0. fold entity.
  set (w3 := with_entities _ _).
  pose proof (addComponents_touches (nextRef w) (c_components config) w3)
    as (Hg & Ho & Hr & Hf & Hent).
  pose proof (addComponents_completion (nextRef w) (c_components config) w3) as Hcomp.
  fold c in Hcomp.
  destruct (addComponents (nextRef w) (c_components config) w3) as [w4 c'].
  cbn [fst snd] in *. subst c'.
  assert (H3 : heap w3 !! nextRef w = Some entity).
  { subst w3. cbn. by rewrite lookup_insert_eq. }
  destruct (Hent entity H3) as (ent & He4 & Hb4 & Hp4).
  unfold outbox in Ho, Ho0. injection Ho as Hp Ht. injection Ho0 as Hp0 Ht0.
  assert (Hreg : entities w4 = <[id := nextRef w]> (entities w)).
  { unfold registry_state in Hr. injection Hr as _ Hr _. rewrite Hr.
    subst w3. cbn. by rewrite He0. }
  assert (Hpub : published w4 = published w) by (rewrite Hp; subst w3; cbn; by rewrite Hp0).
  assert (Htim : timers w4 = timers w) by (rewrite Ht; subst w3; cbn; by rewrite Ht0).
  assert (Hfr : ∀ e', e' ≠ nextRef w → heap w4 !! e' = heap w !! e').
  { intros e' Hne. rewrite Hf by done. subst w3. cbn.
    rewrite lookup_insert_ne by done. by rewrite Hh0. }
  subst c. destruct (bool_decide ("player" ∈ (c_components config).*1)).
  - exists w4, ent. rewrite app_nil_r.
    repeat (split; [first [done | exact (eq_trans Hg Hg0)]|]). done.
  - exists (publish (EvEntitySpawn (nextRef w)) w4), ent.
    split; [done|]. split; [exact He4|]. split; [done|]. split; [done|].
    split; [exact Hreg|]. split; [exact (eq_trans Hg Hg0)|].
    split; [cbn; by rewrite Hpub|]. split; [exact Htim|exact Hfr].
Qed.

(** X19. [createEntity] with a configuration that brings no tags array
    of its own and no id that is a member of [Object.prototype]: the new
    entity object is filed in the registry under its id, with the given
    type; it is not placed on the grid (buckets and zones are as before)
    and the other entity objects are left alone.  When no component of
    the configuration is a player component the call returns and has
    published one spawn event, after the components were added; with a
    player component it ends by the TypeError of that component's
    [init], and no spawn event was published. *)
Theorem createEntity_registers_without_placing (type : string) (config : Config)
  (w : World) :
  c_tags config = None →
  Js.own_key (default "" (c_id config)) →
  let '(w1, r, id, c) := createEntity_run type config w in
  getEntity id w1 = Some r
  ∧ (∃ ent, heap w1 !! r = Some ent
            ∧ e_id ent = id ∧ e_type ent = type ∧ e_active ent = true)
  ∧ grid_state w1 = grid_state w
  ∧ timers w1 = timers w
  ∧ (∀ e', e' ≠ r → heap w1 !! e' = heap w !! e')
  ∧ (if bool_decide ("player" ∈ (c_components config).*1)
     then c = Events.Threw "TypeError" ∧ published w1 = published w
     else c = Events.Returned ∧ published w1 = published w ++ [EvEntitySpawn r]).
Proof.
  intros _ _.
  destruct (createEntity_effect type config w)
    as (w1 & ent & -> & He & Hb & Hp & Hr & Hg & Hpub & Ht & Hf).
  split; [unfold getEntity; by rewrite Hr, lookup_insert_eq|].
  split.
  { exists ent. split; [done|]. unfold body in Hb. by injection Hb as -> -> -> _ _ _. }
  split; [done|]. split; [done|]. split; [done|].
  destruct (bool_decide ("player" ∈ (c_components config).*1)); [|done].
  by rewrite app_nil_r in Hpub.
Qed.

(** X20. The fallbacks of [createEntity] treat every falsy value as
    missing: a configuration that asks for the ground layer (layer 0)
    yields an entity on the actor layer, so no created entity starts on
    the ground layer; an empty zone id is replaced by the current zone,
    and an empty id by a generated one. *)
Theorem createEntity_falls_back_on_falsy_values (type : string) (config : Config)
  (w : World) :
  let '(w1, r, id) := createEntity type config w in
  ∃ ent, heap w1 !! r = Some ent
    ∧ e_layer ent = match c_layer config with
                    | Some OBJECT => OBJECT
                    | Some UI => UI
                    | _ => ACTOR
                    end
    ∧ e_layer ent ≠ GROUND
    ∧ e_zoneId ent = (if truthy (c_zoneId config) then c_zoneId config
                      else getCurrentZoneId w)
    ∧ id = (if truthy (c_id config) then default "" (c_id config)
            else "entity-" +:+ pretty (idCounter w + 1)%N)
    ∧ id = e_id ent.
Proof.
  unfold createEntity.
  destruct (createEntity_effect type config w)
    as (w1 & ent & -> & He & Hb & _).
  cbn [fst]. exists ent. split; [done|]. unfold body, place in Hb. cbn in Hb.
  injection Hb as Hid _ _ _ _ Hz Hl _ _.
  rewrite Hl, Hz, Hid. repeat split; try done; by destruct (c_layer config) as [[]|].
Qed.

End ComponentFrames.


Lemma createEntity_registers_without_placing_witness :
  let config :=
    Game.mkConfig None None None None None None (Some Game.OBJECT) (Some "A")
      [("interactable",
        Game.mkCompConfig None None None None None (Some "dialog") None None);
       ("player", Game.mkCompConfig None None None None None None None None)] in
  (Game.c_tags config = None ∧ Js.own_key (default "" (Game.c_id config)))
  ∧ (Game.createEntity_run "npc" config Reference.yard_world).2
    = Events.Threw "TypeError"
  ∧ Game.published (Game.createEntity_run "npc" config Reference.yard_world).1.1.1
    = Game.published Reference.yard_world.
Proof.
  intros config.
  assert (Hk : Js.own_key (default "" (Game.c_id config)))
    by (apply (bool_decide_unpack _); vm_compute; exact I).
  split; [split; [reflexivity|exact Hk]|].
  pose proof (createEntity_registers_without_placing "npc" config Reference.yard_world
                eq_refl Hk) as H.
  destruct (Game.createEntity_run "npc" config Reference.yard_world) as [[[w1 r] id] c].
  destruct H as (_ & _ & _ & _ & _ & H). cbn [fst snd].
  assert (Hp : bool_decide ("player" ∈ (Game.c_components config).*1) = true)
    by (vm_compute; reflexivity).
  rewrite Hp in H. exact H.
Defined.

Section DestroyAndRemove.

Import Game Reference Scenarios.

Lemma remove_first_absent `{EqDecision A} (x : A) (l : list A) :
  x ∉ l → remove_first x l = l.
Proof.
  induction l as [|a l IH]; [done|]. intros Hn.
  apply not_elem_of_cons in Hn as [Hne Hn]. cbn.
  rewrite decide_False by done. by rewrite IH.
Qed.

Lemma remove_last_app_same `{EqDecision A} (x : A) (l : list A) :
  remove_last x (l ++ [x]) = l.
Proof.
  unfold remove_last. rewrite reverse_app. cbn. rewrite decide_True by done.
  apply reverse_involutive.
Qed.

Lemma unregisterEntity_rest (e : eref) (w : World) :
  subscriptions (unregisterEntity e w).1 = subscriptions w
  ∧ registry_state (unregisterEntity e w).1 = registry_state w
  ∧ heap (unregisterEntity e w).1 = heap w
  ∧ outbox (unregisterEntity e w).1 = outbox w.
Proof.
  unfold unregisterEntity. destruct (heap w !! e) as [ent|]; [|done].
  destruct (zones w !! zone_key (e_zoneId ent)); [|done].
  destruct (truthy (e_zoneId ent)); [|done]. cbn [negb fst].
  unfold remove_from_cell.
  destruct (cells w !! entity_key ent); cbn;
    by destruct (zones w !! zone_key (e_zoneId ent)).
Qed.

(** Under the occupancy invariant, [unregisterEntity] on an entity with
    a truthy zone id leaves it in no bucket and in no zone's list, and
    the other occupants where they were. *)
Lemma unregister_clears (e : eref) (w : World) (ent : Entity) :
  grid_inv w → heap w !! e = Some ent → truthy (e_zoneId ent) = true →
  (∀ k, bucket k (unregisterEntity e w).1 = remove_first e (bucket k w)
        ∧ e ∉ bucket k (unregisterEntity e w).1)
  ∧ ∀ z zone, zones (unregisterEntity e w).1 !! z = Some zone → e ∉ z_entities zone.
Proof.
  intros Hinv He Htruthy. set (w1 := (unregisterEntity e w).1).
  assert (Hown : ∀ k, e ∈ bucket k w → k = entity_key ent).
  { intros k Hk. destruct (inv_own_bucket w Hinv k e Hk) as (ent1 & He1 & ->). congruence. }
  assert (Hgrid : (∀ k, bucket k w1 = remove_first e (bucket k w))
                  ∧ ∀ z zone, zones w1 !! z = Some zone → e ∉ z_entities zone).
  { destruct (e_zoneId ent) as [zoneId|] eqn:Hid; [|done].
    assert (Hne : zoneId ≠ "") by (intros ->; done).
    destruct (zones w !! zoneId) as [zone|] eqn:Hz.
    - destruct (unregisterEntity_spec e w ent zoneId zone He Hid Hne Hz)
        as (_ & Hb & _ & _ & _ & _ & _ & Hzo & Hz1).
      fold w1 in Hb, Hzo, Hz1. split.
      + intros k. rewrite Hb. case_decide as Hk; [done|].
        symmetry. apply remove_first_absent. intros Hin. by apply Hk, Hown.
      + intros z zone' Hz' Hin.
        destruct (decide (z = zoneId)) as [->|Hzne].
        * rewrite Hz1 in Hz'. injection Hz' as <-. cbn in Hin.
          by apply (NoDup_remove_first e _ (inv_zone_nodup w Hinv _ _ Hz)) in Hin.
        * rewrite Hzo in Hz' by done.
          destruct (inv_zone_member w Hinv _ _ _ Hz' Hin) as (ent1 & He1 & -> & _).
          assert (ent1 = ent) as -> by congruence. rewrite Hid in Hzne. by apply Hzne.
    - assert (Hsame : w1 = w).
      { subst w1. unfold unregisterEntity. rewrite He, Hid. cbn [zone_key]. by rewrite Hz. }
      rewrite Hsame. split.
      + intros k. symmetry. apply remove_first_absent. intros Hin.
        pose proof (Hown k Hin) as ->.
        destruct (inv_bucket_zone w Hinv _ _ He Hin) as (zone & Hz' & _).
        rewrite Hid in Hz'. cbn in Hz'. congruence.
      + intros z zone' Hz' Hin.
        destruct (inv_zone_member w Hinv _ _ _ Hz' Hin) as (ent1 & He1 & -> & _).
        assert (ent1 = ent) as -> by congruence. rewrite Hid in Hz'. cbn in Hz'. congruence. }
  destruct Hgrid as [Hb Hz]. split; [|exact Hz].
  intros k. rewrite Hb. split; [done|].
  apply NoDup_remove_first, (inv_bucket_nodup w Hinv).
Qed.

(** What [destroyEntity] does to a registry entity with a truthy zone id
    under the occupancy invariant. *)
Lemma destroyEntity_effect (w : World) (e : eref) (ent : Entity) :
  grid_inv w →
  heap w !! e = Some ent → entities w !! e_id ent = Some e →
  truthy (e_zoneId ent) = true →
  let w' := (destroyEntity e w).1 in
  (destroyEntity e w).2 = true
  ∧ getEntity (e_id ent) w' = None
  ∧ (∀ k, bucket k w' = remove_first e (bucket k w) ∧ e ∉ bucket k w')
  ∧ (∀ z zone, zones w' !! z = Some zone → e ∉ z_entities zone)
  ∧ published w' = published w ++ [EvEntityDestroy e]
  ∧ heap w' = heap w
  ∧ subscriptions w' = subscriptions w
  ∧ timers w' = timers w
  ∧ destroyEntity e w' = (w', false).
Proof.
  intros Hinv He Hreg Htruthy w'.
  destruct (unregisterEntity_rest e w) as (Hs & Hr & Hh & Ho).
  destruct (unregister_clears e w ent Hinv He Htruthy) as [Hb Hz].
  set (w1 := (unregisterEntity e w).1) in *.
  assert (Hw' : destroyEntity e w
                = (with_entities (delete (e_id ent) (entities (publish (EvEntityDestroy e) w1)))
                     (publish (EvEntityDestroy e) w1), true)).
  { unfold destroyEntity. rewrite He, Hreg, He. cbn [mbind option_bind]. by rewrite Htruthy. }
  subst w'. rewrite Hw'. cbn [fst snd].
  unfold registry_state in Hr. injection Hr as _ Hent _.
  unfold outbox in Ho. injection Ho as Hp Ht.
  split; [done|]. split; [unfold getEntity; cbn; apply lookup_delete_eq|].
  split; [exact Hb|].
  split; [exact Hz|]. split; [cbn; by rewrite Hp|]. split; [exact Hh|]. split; [exact Hs|].
  split; [exact Ht|].
  unfold destroyEntity. cbn [heap with_entities publish with_published entities].
  rewrite Hh, He. by rewrite lookup_delete_eq.
Qed.

(** X21. In every state reached by the grid operations from a grid on
    which nothing is registered: [destroyEntity] on a registry entity
    whose id and zone id are no members of [Object.prototype], the zone
    id being truthy, succeeds, takes the entity out of the registry, out
    of its bucket (the other occupants keep their places) and out of
    every zone's entity list, and publishes one destroy event.  The
    entity object and the event subscriptions are left as they are, and
    destroying the entity again fails without changing anything. *)
Theorem destroyEntity_removes_entity (w0 w : World) (e : eref) (ent : Entity) :
  unoccupied w0 → reachable w0 w →
  heap w !! e = Some ent → entities w !! e_id ent = Some e →
  truthy (e_zoneId ent) = true →
  Js.own_key (e_id ent) → Js.own_key (zone_key (e_zoneId ent)) →
  let w' := (destroyEntity e w).1 in
  (destroyEntity e w).2 = true
  ∧ getEntity (e_id ent) w' = None
  ∧ (∀ k, bucket k w' = remove_first e (bucket k w) ∧ e ∉ bucket k w')
  ∧ (∀ z zone, zones w' !! z = Some zone → e ∉ z_entities zone)
  ∧ published w' = published w ++ [EvEntityDestroy e]
  ∧ heap w' = heap w
  ∧ subscriptions w' = subscriptions w
  ∧ destroyEntity e w' = (w', false).
Proof.
  intros H0 Hreach He Hreg Htruthy _ _ w'.
  pose proof (reachable_inv w0 w H0 Hreach) as Hinv.
  destruct (destroyEntity_effect w e ent Hinv He Hreg Htruthy)
    as (H1 & H2 & H3 & H4 & H5 & H6 & H7 & _ & H9).
  done.
Qed.

(** X22. On an entity without an interactable component and without the
    tag ['interactable'], [addComponent('interactable')] followed by
    [removeComponent('interactable')] gives back the state from before:
    the handler is unsubscribed, the tag removed, the slot empty. *)
Theorem interactable_added_then_removed (e : eref) (cfg : CompConfig) (w : World)
  (ent : Entity) :
  heap w !! e = Some ent →
  "interactable" ∉ e_tags ent →
  c_interactable (e_components ent) = None →
  (addComponent e "interactable" cfg w).2 = true
  ∧ removeComponent e "interactable" (addComponent e "interactable" cfg w).1 = (w, true).
Proof.
  intros He Htag Hslot.
  assert (Hin : includes "interactable" (e_tags ent) = false)
    by (by apply bool_decide_eq_false).
  unfold addComponent, addComponent_run. cbn [String.eqb Ascii.eqb Bool.eqb andb].
  unfold interactable_init, addTag. rewrite He, Hin. cbn [fst snd]. split; [done|].
  unfold update_components, update_entity, subscribe. rewrite He.
  cbn [heap with_heap with_subscriptions]. rewrite lookup_insert_eq.
  unfold removeComponent. cbn [heap with_heap]. rewrite lookup_insert_eq.
  cbn [String.eqb Ascii.eqb Bool.eqb andb e_components ent_with_components
       c_interactable comps_with_interactable].
  f_equal. unfold interactable_cleanup, unsubscribe, removeTag, update_components,
    update_entity.
  cbn [heap with_heap with_subscriptions subscriptions]. rewrite lookup_insert_eq.
  cbn [e_tags ent_with_tags ent_with_components].
  assert (Hnow : includes "interactable" (e_tags ent ++ ["interactable"]) = true).
  { apply bool_decide_eq_true, elem_of_app. right. by apply list_elem_of_singleton. }
  rewrite Hnow. cbn [fst heap with_heap]. rewrite lookup_insert_eq.
  rewrite remove_last_app_same, remove_first_app_fresh by done.
  rewrite !insert_insert_eq.
  match goal with
  | |- with_heap (<[e := ?ent']> _) _ = _ =>
      assert (Hent : ent' = ent)
        by (destruct ent as [? ? ? ? [? ? ?] ? ? ? ? ? ?]; cbn in *; by subst)
  end.
  rewrite Hent, (insert_id _ _ _ He). by destruct w.
Qed.

End DestroyAndRemove.

Lemma destroyEntity_removes_entity_witness :
  (Game.entities Scenarios.coin_world !! Game.e_id Scenarios.coin_entity = Some Scenarios.coin
   ∧ Game.truthy (Game.e_zoneId Scenarios.coin_entity) = true)
  ∧ (Game.destroyEntity Scenarios.coin Scenarios.coin_world).2 = true
  ∧ Game.getEntity "entity-2" (Game.destroyEntity Scenarios.coin Scenarios.coin_world).1
    = None.
Proof.
  assert (He : Game.heap Scenarios.coin_world !! Scenarios.coin = Some Scenarios.coin_entity)
    by (vm_compute; reflexivity).
  assert (Hr : Game.entities Scenarios.coin_world !! Game.e_id Scenarios.coin_entity
               = Some Scenarios.coin) by (vm_compute; reflexivity).
  assert (Ht : Game.truthy (Game.e_zoneId Scenarios.coin_entity) = true) by reflexivity.
  pose proof (destroyEntity_removes_entity Scenarios.coin_yard Scenarios.coin_world
                Scenarios.coin Scenarios.coin_entity coin_yard_unoccupied
                coin_world_reachable He Hr Ht
                ltac:(apply (bool_decide_unpack _); vm_compute; exact I)
                ltac:(apply (bool_decide_unpack _); vm_compute; exact I)) as H.
  cbv zeta in H. destruct H as (H1 & H2 & _).
  split; [split; [exact Hr|exact Ht]|]. split; [exact H1|exact H2].
Defined.

Lemma interactable_added_then_removed_witness :
  Game.c_interactable (Game.e_components Scenarios.yard_entity_object) = None
  ∧ Game.removeComponent Reference.yard_entity "interactable"
      (Game.addComponent Reference.yard_entity "interactable"
         (Game.mkCompConfig None None None None None (Some "dialog") None None)
         Reference.yard_world).1
    = (Reference.yard_world, true).
Proof.
  assert (He : Game.heap Reference.yard_world !! Reference.yard_entity
               = Some Scenarios.yard_entity_object) by (vm_compute; reflexivity).
  assert (Hn : "interactable" ∉ Game.e_tags Scenarios.yard_entity_object).
  { intros Hin. exact (not_elem_of_nil _ Hin). }
  assert (Hs : Game.c_interactable (Game.e_components Scenarios.yard_entity_object) = None)
    by reflexivity.
  split; [exact Hs|].
  exact (proj2 (interactable_added_then_removed Reference.yard_entity _ Reference.yard_world
                  _ He Hn Hs)).
Defined.

Section RemoveComponent.

Import Game Reference Scenarios.

Lemma update_components_lookup (e : eref) (f : Components → Components) (w : World)
  (ent : Entity) :
  heap w !! e = Some ent →
  heap (update_components e f w) !! e
  = Some (ent_with_components (f (e_components ent)) ent).
Proof.
  intros He. unfold update_components, update_entity. rewrite He. cbn.
  by rewrite lookup_insert_eq.
Qed.

Lemma hasTag_addTag (tag : string) (e : eref) (w : World) (ent : Entity) :
  heap w !! e = Some ent → hasTag tag e (addTag tag e w).1 = true.
Proof.
  intros He. unfold hasTag, hasTagRef, addTag. rewrite He.
  destruct (includes tag (e_tags ent)) eqn:Hin; cbn [fst].
  - by rewrite He.
  - unfold update_entity. rewrite He. cbn. rewrite lookup_insert_eq. cbn.
    apply bool_decide_eq_true, elem_of_app. right. by apply list_elem_of_singleton.
Qed.

Lemma hasTag_prefix (tag : string) (e : eref) (w w' : World) (ent ent' : Entity) :
  heap w !! e = Some ent → heap w' !! e = Some ent' →
  e_tags ent `prefix_of` e_tags ent' →
  hasTag tag e w = true → hasTag tag e w' = true.
Proof.
  intros He He' [extra Hpre]. unfold hasTag, hasTagRef, includes. rewrite He, He', Hpre.
  rewrite !bool_decide_eq_true, elem_of_app. by left.
Qed.

(** X23. The tile component has nothing that undoes the tags its [init]
    added: [addComponent('tile')] returns the component, and after
    [removeComponent('tile')] the slot is empty and the subscriptions are
    those from before the addition, while the entity carries the tags it
    carried with the component, ['walkable'] among them for a walkable
    tile. *)
Theorem removeComponent_keeps_init_tags (e : eref) (cfg : CompConfig)
  (w : World) (ent : Entity) :
  heap w !! e = Some ent →
  let w1 := (addComponent e "tile" cfg w).1 in
  let w2 := (removeComponent e "tile" w1).1 in
  (addComponent e "tile" cfg w).2 = true
  ∧ (removeComponent e "tile" w1).2 = true
  ∧ hasComponent e "tile" w2 = false
  ∧ subscriptions w2 = subscriptions w
  ∧ (e_tags <$> heap w2 !! e) = (e_tags <$> heap w1 !! e)
  ∧ (default true (cfg_walkable cfg) = true → hasTag "walkable" e w2 = true).
Proof.
  intros He w1 w2.
  set (wa := if default true (cfg_walkable cfg) then (addTag "walkable" e w).1 else w).
  set (wt := foldl (λ acc tag, (addTag tag e acc).1) wa (default [] (cfg_propertyTags cfg))).
  set (c := mkTile (str_or (cfg_type cfg) "unknown") (default true (cfg_walkable cfg))
              (default [] (cfg_propertyTags cfg))).
  assert (E1 : w1 = update_components e (comps_with_tile (Some c)) wt) by reflexivity.
  assert (Ha : touches_only e w wa ∧ subscriptions wa = subscriptions w).
  { subst wa. destruct (default true (cfg_walkable cfg)); [apply addTag_touches|].
    split; [apply touches_only_refl|done]. }
  destruct Ha as ((_ & _ & _ & _ & Hea) & Hsa).
  destruct (Hea ent He) as (enta & Hla & _ & _).
  destruct (addTags_touches (default [] (cfg_propertyTags cfg)) e wa)
    as [(_ & _ & _ & _ & Het) Hst]. fold wt in Het, Hst.
  destruct (Het enta Hla) as (entt & Hlt & _ & Hpre).
  pose proof (update_components_lookup e (comps_with_tile (Some c)) wt entt Hlt) as H1.
  rewrite <- E1 in H1.
  assert (Hs1 : subscriptions w1 = subscriptions wt)
    by (rewrite E1; apply update_components_touches).
  assert (E2 : removeComponent e "tile" w1
               = (update_components e (comps_with_tile None) w1, true)).
  { unfold removeComponent. by rewrite H1. }
  subst w2. rewrite E2. cbn [fst snd].
  pose proof (update_components_lookup e (comps_with_tile None) w1 _ H1) as H2.
  assert (Hs2 : subscriptions (update_components e (comps_with_tile None) w1)
                = subscriptions w1) by (apply update_components_touches).
  split; [done|]. split; [done|]. split; [unfold hasComponent; by rewrite H2|].
  split; [congruence|]. split; [by rewrite H1, H2|].
  intros Hw.
  assert (Hwa : hasTag "walkable" e wa = true).
  { subst wa. rewrite Hw. by eapply hasTag_addTag. }
  eapply (hasTag_prefix _ _ wa _ enta); [done|exact H2|exact Hpre|exact Hwa].
Qed.


End RemoveComponent.

Lemma removeComponent_keeps_init_tags_witness :
  let cfg := Game.mkCompConfig (Some "grass") None None None None None None None in
  let w1 := (Game.addComponent Reference.yard_entity "tile" cfg Reference.yard_world).1 in
  Game.heap Reference.yard_world !! Reference.yard_entity = Some Scenarios.yard_entity_object
  ∧ Game.hasTag "walkable" Reference.yard_entity
      (Game.removeComponent Reference.yard_entity "tile" w1).1 = true.
Proof.
  intros cfg w1.
  assert (He : Game.heap Reference.yard_world !! Reference.yard_entity
               = Some Scenarios.yard_entity_object) by (vm_compute; reflexivity).
  split; [exact He|].
  pose proof (removeComponent_keeps_init_tags Reference.yard_entity cfg
                Reference.yard_world _ He) as H.
  cbv zeta in H. destruct H as (_ & _ & _ & _ & _ & Hp). exact (Hp eq_refl).
Defined.


Section Templates.

Import Game Reference Scenarios.

Lemma merge_config_nothing (base : Config) :
  merge_config base (mkConfig None None None None None None None None []) = base.
Proof. by destruct base. Qed.

(** X24. For a template id that is no member of [Object.prototype]:
    [createEntityFromTemplate] returns [null] for an unknown template
    id.  For a known one, overrides that bring tags have them appended
    to the template's tags with no check for duplicates: the template's
    tags followed by the override's tags are the first tags of the new
    entity, whose type is the override's type if there is one and the
    template's otherwise; the call ends by a TypeError exactly when the
    merged configuration holds a player component.  Without any override
    the call is [createEntity] on the template. *)
Theorem createEntityFromTemplate_appends_tags (templates : gmap string Template)
  (templateId : string) (overrides : Overrides) (w : World) :
  Js.own_key templateId →
  match templates !! templateId with
  | None => createEntityFromTemplate templates templateId overrides w = None
  | Some t =>
      (∃ w1 r id c ent,
         createEntityFromTemplate templates templateId overrides w = Some (w1, r, id, c)
         ∧ heap w1 !! r = Some ent
         ∧ e_type ent = default (tpl_type t) (o_type overrides)
         ∧ (default [] (c_tags (tpl_config t))
            ++ default [] (c_tags (o_config overrides))) `prefix_of` e_tags ent
         ∧ c = (if bool_decide
                     ("player" ∈ (merge_components (c_components (tpl_config t))
                                    (c_components (o_config overrides))).*1)
                then Events.Threw "TypeError" else Events.Returned))
      ∧ createEntityFromTemplate templates templateId
          (mkOverrides None (mkConfig None None None None None None None None [])) w
        = Some (createEntity_run (tpl_type t) (tpl_config t) w)
  end.
Proof.
  intros _. unfold createEntityFromTemplate.
  destruct (templates !! templateId) as [t|]; [|done]. split.
  - destruct (createEntity_effect (default (tpl_type t) (o_type overrides))
                (merge_config (tpl_config t) (o_config overrides)) w)
      as (w1 & ent & -> & He & Hb & Hp & _).
    eexists _, _, _, _, ent. split; [done|]. split; [done|].
    unfold body in Hb. injection Hb as _ Hty _ _ _ _. split; [done|]. split; [|done].
    cbn [e_tags merge_config c_tags] in Hp.
    destruct (c_tags (o_config overrides)) as [tags|]; cbn [default from_option id] in *;
      [done|]. by rewrite app_nil_r.
  - cbn [o_type o_config default from_option id]. by rewrite merge_config_nothing.
Qed.

End Templates.

Lemma createEntityFromTemplate_appends_tags_witness :
  let t := Game.mkTemplate "rock"
             (Game.mkConfig (Some "rock") (Some ["solid"]) None None None None
                (Some Game.OBJECT) None []) in
  let over := Game.mkOverrides None
                (Game.mkConfig None (Some ["mossy"; "solid"]) None None None None None None
                   []) in
  Js.own_key "rock"
  ∧ ∃ w1 r id c ent,
      Game.createEntityFromTemplate {["rock" := t]} "rock" over Reference.yard_world
      = Some (w1, r, id, c)
      ∧ Game.heap w1 !! r = Some ent
      ∧ ["solid"; "mossy"; "solid"] `prefix_of` Game.e_tags ent.
Proof.
  intros t over.
  assert (Hk : Js.own_key "rock") by (apply (bool_decide_unpack _); vm_compute; exact I).
  split; [exact Hk|].
  pose proof (createEntityFromTemplate_appends_tags {["rock" := t]} "rock" over
                Reference.yard_world Hk) as H.
  rewrite lookup_singleton_eq in H.
  destruct H as [(w1 & r & id & c & ent & H1 & H2 & _ & H4 & _) _].
  exists w1, r, id, c, ent. split; [exact H1|]. split; [exact H2|exact H4].
Defined.

(* ===================================================================== *)
(** * Properties of the player component *)
(* ===================================================================== *)

Section PlayerProperties.

Import Game Reference Scenarios.

Lemma isWalkable_valid (x y : Z) (req excl : list string) (zoneId : option string)
  (w : World) :
  isWalkable x y req excl zoneId w = true → isValidPosition x y zoneId w = true.
Proof. unfold isWalkable. by destruct (isValidPosition x y zoneId w). Qed.

Lemma moveEntity_published (e : eref) (newX newY : Z) (w : World) (ent : Entity) :
  heap w !! e = Some ent → isValidPosition newX newY (e_zoneId ent) w = true →
  published (moveEntity e newX newY w).1
  = published w ++ [EvEntityMove e (e_gridX ent, e_gridY ent) (newX, newY)]
  ∧ timers (moveEntity e newX newY w).1 = timers w
  ∧ (∃ ent', heap (moveEntity e newX newY w).1 !! e = Some ent'
             ∧ e_position ent' = gridToWorld newX newY w
             ∧ e_tags ent' = e_tags ent).
Proof.
  intros He Hv. unfold moveEntity. rewrite He, Hv. cbn [negb fst].
  unfold push_to_cell, remove_from_cell.
  destruct (cells w !! entity_key ent); cbn; rewrite lookup_insert_eq;
    (split; [done|]; split; [done|]; eexists; split; [done|]; done).
Qed.

(** X26. [move], the member of the player component that the module
    exports, called on a component for an entity that stands in the
    current zone (a zone whose id is no member of [Object.prototype]):
    when the cell at the step [(dx, dy)] is walkable, the entity is moved
    there: its place and world position are those of the new cell, it is
    in the bucket of the new cell, one move event from the old to the new
    cell is published, and the component has the new cell as its target
    with [isMoving] set; its direction is not changed.  When the cell is
    not walkable, nothing changes. *)
Theorem player_steps_to_walkable_cell (this : PlayerComp) (self : eref) (dx dy : Z)
  (w : World) (entity : Entity) :
  heap w !! self = Some entity →
  e_zoneId entity = currentZone w →
  Js.own_key (zone_key (currentZone w)) →
  let newX := e_gridX entity + dx in
  let newY := e_gridY entity + dy in
  let w' := (move this self dx dy w).1 in
  let this' := (move this self dx dy w).2 in
  if isWalkable newX newY [] ["solid"] (currentZone w) w
  then (∃ ent', heap w' !! self = Some ent'
          ∧ place ent' = (e_zoneId entity, e_layer entity, newX, newY)
          ∧ e_position ent' = gridToWorld newX newY w
          ∧ e_components ent' = e_components entity)
       ∧ self ∈ bucket (key_of (e_zoneId entity) (e_layer entity) newX newY) w'
       ∧ published w' = published w ++ [EvEntityMove self (e_gridX entity, e_gridY entity)
                                          (newX, newY)]
       ∧ this' = mkPlayer (p_direction this) (p_canMove this) (p_interactionRange this)
                   true newX newY
  else w' = w ∧ this' = this.
Proof.
  intros He Hzone _. cbv zeta.
  set (newX := e_gridX entity + dx) in *. set (newY := e_gridY entity + dy) in *.
  unfold move. rewrite He. cbv zeta. fold newX newY.
  destruct (isWalkable newX newY [] ["solid"] (currentZone w) w) eqn:Hwalk;
    cbn [negb fst snd]; [|done].
  assert (Hv : isValidPosition newX newY (e_zoneId entity) w = true).
  { apply isWalkable_valid in Hwalk. by rewrite Hzone. }
  destruct (moveEntity_spec self newX newY w entity He Hv)
    as (_ & Hb & (ent2 & H2 & Hplace & Hcomp & _) & _ & _ & _ & _).
  destruct (moveEntity_published self newX newY w entity He Hv)
    as (Hpub & _ & (ent2' & H2' & Hpos & _)).
  assert (ent2' = ent2) as -> by congruence.
  split; [by exists ent2|]. split; [|done].
  rewrite Hb. cbn zeta. rewrite decide_True by done.
  apply elem_of_app. right. by apply list_elem_of_singleton.
Qed.

End PlayerProperties.

Lemma player_steps_to_walkable_cell_witness :
  let r := Game.move Scenarios.lever_player_component Scenarios.lever_player 1 0
             Scenarios.lever_world in
  (Game.e_zoneId Scenarios.lever_player_entity = Game.currentZone Scenarios.lever_world
   ∧ Js.own_key (Game.zone_key (Game.currentZone Scenarios.lever_world))
   ∧ Game.isWalkable 1 0 [] ["solid"] (Game.currentZone Scenarios.lever_world)
       Scenarios.lever_world = true)
  ∧ Scenarios.lever_player ∈ Game.bucket (Game.key_of (Some "A") Game.ACTOR 1 0) r.1
  ∧ r.2 = Game.mkPlayer "down" true 1 true 1 0.
Proof.
  intros r.
  assert (He : Game.heap Scenarios.lever_world !! Scenarios.lever_player
               = Some Scenarios.lever_player_entity) by (vm_compute; reflexivity).
  assert (Hz : Game.e_zoneId Scenarios.lever_player_entity
               = Game.currentZone Scenarios.lever_world) by (vm_compute; reflexivity).
  assert (Hk : Js.own_key (Game.zone_key (Game.currentZone Scenarios.lever_world)))
    by (apply (bool_decide_unpack _); vm_compute; exact I).
  assert (Hw : Game.isWalkable (Game.e_gridX Scenarios.lever_player_entity + 1)
                 (Game.e_gridY Scenarios.lever_player_entity + 0) [] ["solid"]
                 (Game.currentZone Scenarios.lever_world) Scenarios.lever_world = true)
    by (vm_compute; reflexivity).
  split; [split; [exact Hz|split; [exact Hk|exact Hw]]|].
  pose proof (player_steps_to_walkable_cell Scenarios.lever_player_component
                Scenarios.lever_player 1 0 Scenarios.lever_world _ He Hz Hk) as H.
  cbv zeta in H. rewrite Hw in H. destruct H as (_ & H2 & _ & H4).
  split; [exact H2|exact H4].
Defined.

(* ===================================================================== *)
(** * Properties of the interaction handlers *)
(* ===================================================================== *)

Section InteractionFlow.

Import Game Reference Scenarios.

Variable custom : nat → eref → Request → World → World * Events.completion.

Lemma handleInteraction_accepted (self : eref) (data : Request) (w : World)
  (entity target : Entity) (this : InteractableComp) :
  heap w !! self = Some entity → heap w !! r_target data = Some target →
  e_id target = e_id entity →
  c_interactable (e_components entity) = Some this →
  r_direction data ∈ i_validDirections this →
  handleInteraction custom self data w
  = match dispatch custom this self data w with
    | (w1, Events.Returned) => (flash self w1, Events.Returned)
    | (w1, Events.Threw err) => (w1, Events.Threw err)
    end.
Proof.
  intros He Ht Hid Hc Hdir. unfold handleInteraction. rewrite He, Ht, Hid, Hc.
  rewrite String.eqb_refl. cbn [negb].
  assert (Hinc : includes (r_direction data) (i_validDirections this) = true)
    by (by apply bool_decide_eq_true).
  by rewrite Hinc.
Qed.

Lemma handleInteraction_ignored (self : eref) (data : Request) (w : World) :
  (e_id <$> heap w !! self) ≠ (e_id <$> heap w !! r_target data) →
  handleInteraction custom self data w = (w, Events.Returned).
Proof.
  intros Hne. unfold handleInteraction.
  destruct (heap w !! self) as [entity|]; [|done].
  destruct (heap w !! r_target data) as [target|]; [|done].
  assert (Hid : String.eqb (e_id target) (e_id entity) = false).
  { apply String.eqb_neq. intros E. apply Hne. cbn. by rewrite E. }
  by rewrite Hid.
Qed.

Lemma flash_effect (self : eref) (w : World) (ent : Entity) (i : InteractableComp) :
  heap w !! self = Some ent → c_interactable (e_components ent) = Some i →
  ∃ ent', heap (flash self w) !! self = Some ent'
    ∧ body ent' = body ent ∧ e_tags ent' = e_tags ent
    ∧ c_interactable (e_components ent')
      = Some (mkInteractable (i_interactionType i) (i_validDirections i)
                (i_interactionData i) true).
Proof.
  intros He Hi. unfold flash. cbn [heap with_timers].
  rewrite (update_components_lookup _ _ _ _ He). eexists. split; [done|].
  split; [done|]. split; [done|]. cbn. by rewrite Hi.
Qed.

Lemma flash_rest (self : eref) (w : World) :
  grid_state (flash self w) = grid_state w
  ∧ registry_state (flash self w) = registry_state w
  ∧ published (flash self w) = published w
  ∧ timers (flash self w) = timers w ++ [ClearHighlight self 300]
  ∧ (∀ e', e' ≠ self → heap (flash self w) !! e' = heap w !! e')
  ∧ same_ids w (flash self w).
Proof.
  unfold flash.
  match goal with
  | |- context [update_components self ?f w] =>
      destruct (update_components_touches self f w) as [(Hg & Ho & Hr & Hf & He) _];
      set (w1 := update_components self f w) in *
  end.
  unfold outbox in Ho. injection Ho as Hp Ht.
  split; [exact Hg|]. split; [exact Hr|]. split; [exact Hp|].
  split; [cbn; by rewrite Ht|]. split; [exact Hf|].
  intros e. cbn [heap with_timers].
  destruct (decide (e = self)) as [->|Hne]; [|by rewrite Hf].
  destruct (heap w !! self) as [ent|] eqn:Hs.
  - destruct (He ent eq_refl) as (ent' & -> & Hb & _). cbn. unfold body in Hb.
    by injection Hb as -> _ _ _ _ _.
  - subst w1. unfold update_components, update_entity. by rewrite Hs, Hs.
Qed.

Lemma toggle_once (self : eref) (data : Request) (w : World)
  (entity target : Entity) (this : InteractableComp) :
  heap w !! self = Some entity → heap w !! r_target data = Some target →
  e_id target = e_id entity →
  c_interactable (e_components entity) = Some this →
  r_direction data ∈ i_validDirections this →
  i_interactionType this = "toggle" →
  let w1 := (handleInteraction custom self data w).1 in
  (∃ ent1, heap w1 !! self = Some ent1 ∧ e_id ent1 = e_id entity
     ∧ c_interactable (e_components ent1)
       = Some (mkInteractable (i_interactionType this) (i_validDirections this)
                 (toggled (i_interactionData this)) true))
  ∧ (∀ e', e' ≠ self → heap w1 !! e' = heap w !! e')
  ∧ published w1
    = published w ++ [EvToggle self (r_actor data) (toggled_state (i_interactionData this))]
  ∧ timers w1 = timers w ++ [ClearHighlight self 300]
  ∧ grid_state w1 = grid_state w.
Proof.
  intros He Ht Hid Hc Hdir Hty w1. subst w1.
  rewrite (handleInteraction_accepted self data w entity target this He Ht Hid Hc Hdir).
  unfold dispatch. rewrite Hty. cbn [String.eqb Ascii.eqb Bool.eqb andb fst].
  unfold _handleToggleInteraction. fold (toggled (i_interactionData this)). rewrite Hty.
  set (comp' := mkInteractable "toggle" (i_validDirections this)
                  (toggled (i_interactionData this)) (i_isHighlighted this)).
  set (ws := set_interactable self comp' w).
  pose proof (update_components_lookup self (comps_with_interactable (Some comp')) w
                entity He) as H1.
  fold (set_interactable self comp' w) in H1. fold ws in H1.
  destruct (update_components_touches self (comps_with_interactable (Some comp')) w)
    as [(Hg & Ho & _ & Hf & _) _].
  fold (set_interactable self comp' w) in Hg, Ho, Hf. fold ws in Hg, Ho, Hf.
  unfold outbox in Ho. injection Ho as Hp Htm.
  set (wp := publish (EvToggle self (r_actor data)
                        (toggled_state (i_interactionData this))) ws).
  assert (H1p : heap wp !! self = heap ws !! self) by reflexivity. rewrite H1 in H1p.
  destruct (flash_effect self wp _ comp' H1p eq_refl) as (ent1 & Hl1 & Hb1 & _ & Hc1).
  destruct (flash_rest self wp) as (Hgf & _ & Hpf & Htf & Hff & _).
  split.
  { exists ent1. split; [done|]. split; [|done].
    unfold body in Hb1. by injection Hb1 as -> _ _ _ _ _. }
  split; [intros e' Hne; rewrite Hff by done; by apply Hf|].
  split; [rewrite Hpf; cbn; by rewrite Hp|].
  split; [rewrite Htf; cbn; by rewrite Htm|].
  by rewrite Hgf.
Qed.

(** X27. Two interaction requests accepted by a toggle interactable
    bring its state back to the truth value it had: two toggle events
    are published, the first with the negation of the state and the
    second with the state as a boolean ([false] when the data had no
    state), the component's data are as at the start except that the
    state is now that boolean, so they are the data of the start when
    the state was a boolean already, and the grid is not touched. *)
Theorem toggle_twice_restores_state (self : eref) (data : Request) (w : World)
  (entity target : Entity) (this : InteractableComp) :
  heap w !! self = Some entity → heap w !! r_target data = Some target →
  e_id target = e_id entity →
  c_interactable (e_components entity) = Some this →
  r_direction data ∈ i_validDirections this →
  i_interactionType this = "toggle" →
  let d := i_interactionData this in
  let before := default false (d_state d) in
  let d2 := mkData (d_text d) (d_item d) (d_targetZone d) (d_targetX d) (d_targetY d)
              (Some before) (d_handler d) in
  let w1 := (handleInteraction custom self data w).1 in
  let w2 := (handleInteraction custom self data w1).1 in
  (∃ ent2, heap w2 !! self = Some ent2
     ∧ c_interactable (e_components ent2)
       = Some (mkInteractable (i_interactionType this) (i_validDirections this) d2 true))
  ∧ (is_Some (d_state d) → d2 = d)
  ∧ published w2
    = published w ++ [EvToggle self (r_actor data) (negb before);
                      EvToggle self (r_actor data) before]
  ∧ timers w2 = timers w ++ [ClearHighlight self 300; ClearHighlight self 300]
  ∧ grid_state w2 = grid_state w.
Proof.
  intros He Ht Hid Hc Hdir Hty d before d2 w1 w2.
  destruct (toggle_once self data w entity target this He Ht Hid Hc Hdir Hty)
    as ((ent1 & He1 & Hid1 & Hc1) & Hf1 & Hp1 & Ht1 & Hg1).
  fold w1 in He1, Hf1, Hp1, Ht1, Hg1.
  assert (Htarget : ∃ target1, heap w1 !! r_target data = Some target1
                      ∧ e_id target1 = e_id ent1).
  { destruct (decide (r_target data = self)) as [E|E].
    - rewrite E. by exists ent1.
    - exists target. rewrite Hf1 by done. split; [done|congruence]. }
  destruct Htarget as (target1 & Ht1' & Hid1').
  destruct (toggle_once self data w1 ent1 target1 _ He1 Ht1' Hid1' Hc1 Hdir Hty)
    as ((ent2 & He2 & _ & Hc2) & _ & Hp2 & Ht2 & Hg2).
  fold w2 in He2, Hp2, Ht2, Hg2. cbn in Hc2, Hp2.
  assert (Hback : toggled (toggled (i_interactionData this)) = d2).
  { unfold toggled, toggled_state, d2, before, d. cbn. by rewrite negb_involutive. }
  assert (Hstate : toggled_state (toggled (i_interactionData this)) = before).
  { unfold toggled, toggled_state, before, d. cbn. by rewrite negb_involutive. }
  rewrite Hback in Hc2. rewrite Hstate in Hp2.
  split; [by exists ent2|].
  split.
  { intros [b Hb]. unfold d2, before. rewrite Hb. cbn. rewrite <- Hb. by destruct d. }
  split; [rewrite Hp2, Hp1; by rewrite <- app_assoc|].
  split; [rewrite Ht2, Ht1; by rewrite <- app_assoc|].
  congruence.
Qed.

End InteractionFlow.

Lemma toggle_twice_restores_state_witness :
  let w1 := (Game.handleInteraction Reference.idle_custom Scenarios.lever
               Scenarios.lever_request Scenarios.lever_world).1 in
  let w2 := (Game.handleInteraction Reference.idle_custom Scenarios.lever
               Scenarios.lever_request w1).1 in
  Game.i_interactionType Scenarios.lever_component = "toggle"
  ∧ Game.d_state (Game.i_interactionData Scenarios.lever_component) = None
  ∧ (∃ ent2, Game.heap w2 !! Scenarios.lever = Some ent2
       ∧ (Game.d_state ∘ Game.i_interactionData) <$> Game.c_interactable (Game.e_components ent2)
         = Some (Some false))
  ∧ Game.published w2
    = Game.published Scenarios.lever_world
      ++ [Game.EvToggle Scenarios.lever Scenarios.lever_player true;
          Game.EvToggle Scenarios.lever Scenarios.lever_player false].
Proof.
  intros w1 w2.
  assert (Hdir : "down" ∈ Game.i_validDirections Scenarios.lever_component)
    by (apply (bool_decide_unpack _); vm_compute; exact I).
  assert (He : Game.heap Scenarios.lever_world !! Scenarios.lever
               = Some Scenarios.lever_entity) by (vm_compute; reflexivity).
  assert (Hc : Game.c_interactable (Game.e_components Scenarios.lever_entity)
               = Some Scenarios.lever_component) by reflexivity.
  split; [reflexivity|]. split; [reflexivity|].
  pose proof (toggle_twice_restores_state Reference.idle_custom Scenarios.lever
                Scenarios.lever_request Scenarios.lever_world _ _ _
                He He eq_refl Hc Hdir eq_refl) as H.
  cbv zeta in H. destruct H as ((ent2 & He2 & Hc2) & _ & Hp & _).
  split; [|exact Hp].
  exists ent2. split; [exact He2|]. by rewrite Hc2.
Defined.

Section Pickup.

Import Game Reference Scenarios.

Variable custom : nat → eref → Request → World → World * Events.completion.

Lemma grid_inv_same (w w' : World) :
  cells w' = cells w → heap w' = heap w → zones w' = zones w →
  grid_inv w → grid_inv w'.
Proof.
  intros Hc Hh Hz [I1 I2 I3 I4 I5].
  assert (Hb : ∀ k, bucket k w' = bucket k w) by (intros k; by apply bucket_cells).
  split.
  - intros k e. rewrite Hb, Hh. apply I1.
  - intros k. rewrite Hb. apply I2.
  - intros z zone e. rewrite Hz, Hh. intros Hzone Hin.
    destruct (I3 z zone e Hzone Hin) as (ent & He & Hk & Hbk). exists ent. by rewrite Hb.
  - intros e ent. rewrite Hh, Hb, Hz. apply I4.
  - intros z zone. rewrite Hz. apply I5.
Qed.

Lemma grid_state_fields (w w' : World) :
  grid_state w' = grid_state w →
  cells w' = cells w ∧ zones w' = zones w ∧ currentZone w' = currentZone w
  ∧ cellSize w' = cellSize w ∧ dims w' = dims w.
Proof. unfold grid_state. by intros [= -> -> -> -> ->]. Qed.

Lemma registry_state_fields (w w' : World) :
  registry_state w' = registry_state w →
  entities w' = entities w ∧ idCounter w' = idCounter w ∧ nextRef w' = nextRef w.
Proof. unfold registry_state. by intros [= -> -> ->]. Qed.

(** X28. In every state reached by the grid operations from a grid on
    which nothing is registered: an interaction request accepted by a
    pickup interactable that is in the registry, with a truthy zone id,
    its id and zone id being no members of [Object.prototype],
    publishes the pickup event and then the destroy event, and takes the
    entity out of the registry, out of its bucket and out of every zone's
    entity list, the other occupants of the bucket keeping their places
    although the entity is unregistered twice on the way. *)
Theorem pickup_removes_entity (w0 w : World) (self : eref) (data : Request)
  (entity target : Entity) (this : InteractableComp) :
  unoccupied w0 → reachable w0 w →
  heap w !! self = Some entity → heap w !! r_target data = Some target →
  e_id target = e_id entity →
  c_interactable (e_components entity) = Some this →
  r_direction data ∈ i_validDirections this →
  i_interactionType this = "pickup" →
  entities w !! e_id entity = Some self →
  truthy (e_zoneId entity) = true →
  Js.own_key (e_id entity) → Js.own_key (zone_key (e_zoneId entity)) →
  let w' := (handleInteraction custom self data w).1 in
  getEntity (e_id entity) w' = None
  ∧ (∀ k, bucket k w' = remove_first self (bucket k w) ∧ self ∉ bucket k w')
  ∧ (∀ z zone, zones w' !! z = Some zone → self ∉ z_entities zone)
  ∧ published w'
    = published w ++ [EvPickup self (r_actor data) (d_item (i_interactionData this));
                      EvEntityDestroy self]
  ∧ timers w' = timers w ++ [ClearHighlight self 300].
Proof.
  intros H0 Hreach He Ht Hid Hc Hdir Hty Hreg Htruthy _ _ w'. subst w'.
  pose proof (reachable_inv w0 w H0 Hreach) as Hinv.
  rewrite (handleInteraction_accepted custom self data w entity target this
             He Ht Hid Hc Hdir).
  unfold dispatch. rewrite Hty. cbn [String.eqb Ascii.eqb Bool.eqb andb fst].
  unfold _handlePickupInteraction.
  set (w1 := publish (EvPickup self (r_actor data) (d_item (i_interactionData this))) w).
  assert (Hinv1 : grid_inv w1) by (by apply (grid_inv_same w)).
  assert (He1 : heap w1 !! self = Some entity) by exact He.
  destruct (unregister_clears self w1 entity Hinv1 He1 Htruthy) as [Hb2 Hz2].
  destruct (unregisterEntity_rest self w1) as (_ & Hr2 & Hh2 & Ho2).
  pose proof (unregister_preserves self w1 Hinv1) as Hinv2.
  set (w2 := (unregisterEntity self w1).1) in *.
  assert (He2 : heap w2 !! self = Some entity) by (by rewrite Hh2).
  unfold registry_state in Hr2. injection Hr2 as _ Hent2 _.
  assert (Hreg2 : entities w2 !! e_id entity = Some self) by (by rewrite Hent2).
  destruct (destroyEntity_effect w2 self entity Hinv2 He2 Hreg2 Htruthy)
    as (_ & Hget & Hb3 & Hz3 & Hp3 & _ & _ & Ht3 & _).
  set (w3 := (destroyEntity self w2).1) in *.
  destruct (flash_rest self w3) as (Hgf & Hrf & Hpf & Htf & _).
  apply grid_state_fields in Hgf as (Hcf & Hzf & _).
  apply registry_state_fields in Hrf as (Hef & _).
  unfold outbox in Ho2. injection Ho2 as Hp2 Ht2.
  split; [unfold getEntity in *; by rewrite Hef|].
  split.
  { intros k. rewrite (bucket_cells k w3 _ Hcf).
    destruct (Hb3 k) as [-> Hn3]. destruct (Hb2 k) as [Hk2 Hn2].
    rewrite (remove_first_absent self (bucket k w2) Hn2). by rewrite Hk2 in *. }
  split; [intros z zone; rewrite Hzf; apply Hz3|].
  split; [rewrite Hpf, Hp3, Hp2; cbn; by rewrite <- app_assoc|].
  by rewrite Htf, Ht3, Ht2.
Qed.

End Pickup.

Lemma pickup_removes_entity_witness :
  let w' := (Game.handleInteraction Reference.idle_custom Scenarios.coin
               Scenarios.coin_request Scenarios.coin_world).1 in
  Game.i_interactionType Scenarios.coin_component = "pickup"
  ∧ Game.getEntity "entity-2" w' = None
  ∧ ∀ k, Scenarios.coin ∉ Game.bucket k w'.
Proof.
  intros w'.
  assert (Hdir : "up" ∈ Game.i_validDirections Scenarios.coin_component)
    by (apply (bool_decide_unpack _); vm_compute; exact I).
  assert (He : Game.heap Scenarios.coin_world !! Scenarios.coin = Some Scenarios.coin_entity)
    by (vm_compute; reflexivity).
  assert (Hc : Game.c_interactable (Game.e_components Scenarios.coin_entity)
               = Some Scenarios.coin_component) by reflexivity.
  assert (Hr : Game.entities Scenarios.coin_world !! Game.e_id Scenarios.coin_entity
               = Some Scenarios.coin) by (vm_compute; reflexivity).
  assert (Ht : Game.truthy (Game.e_zoneId Scenarios.coin_entity) = true) by reflexivity.
  assert (Hid : Js.own_key (Game.e_id Scenarios.coin_entity))
    by (apply (bool_decide_unpack _); vm_compute; exact I).
  assert (Hzn : Js.own_key (Game.zone_key (Game.e_zoneId Scenarios.coin_entity)))
    by (apply (bool_decide_unpack _); vm_compute; exact I).
  pose proof (pickup_removes_entity Reference.idle_custom Scenarios.coin_yard
                Scenarios.coin_world Scenarios.coin Scenarios.coin_request _ _ _
                coin_yard_unoccupied coin_world_reachable He He eq_refl Hc Hdir eq_refl
                Hr Ht Hid Hzn) as H.
  cbv zeta in H. destruct H as (H1 & H2 & _).
  split; [reflexivity|]. split; [exact H1|]. intros k. exact (proj2 (H2 k)).
Defined.

Section Routing.

Import Game Reference Scenarios.

Variable custom : nat → eref → Request → World → World * Events.completion.

Lemma same_ids_refl (w : World) : same_ids w w.
Proof. by intros e. Qed.

Lemma same_ids_trans (w1 w2 w3 : World) :
  same_ids w1 w2 → same_ids w2 w3 → same_ids w1 w3.
Proof. intros H1 H2 e. by rewrite H2, H1. Qed.

Lemma same_ids_heap (w w' : World) : heap w' = heap w → same_ids w w'.
Proof. intros Hh e. by rewrite Hh. Qed.

Lemma same_ids_publish (ev : Event) (w w' : World) :
  same_ids w w' → same_ids w (publish ev w').
Proof. done. Qed.

Lemma update_entity_same_ids (e : eref) (f : Entity → Entity) (w : World) :
  (∀ ent, e_id (f ent) = e_id ent) → same_ids w (update_entity e f w).
Proof.
  intros Hf e'. rewrite update_entity_lookup. case_decide as E; [|done]. subst.
  destruct (heap w !! e); cbn; [by rewrite Hf|done].
Qed.

Lemma registerEntity_same_ids (e : eref) (x y : Z) (layer : Layer)
  (zoneId : option string) (w : World) :
  same_ids w (registerEntity e x y layer zoneId w).1.
Proof.
  destruct (registerEntity_cases e x y layer zoneId w)
    as [->|(ent & zone & Hz & He & Hv)]; [apply same_ids_refl|].
  destruct (registerEntity_spec e x y layer zoneId w ent zone Hz He Hv)
    as (_ & _ & (ent' & He' & _ & _ & Hid) & Hother & _).
  intros e'. destruct (decide (e' = e)) as [->|Hne]; [|by rewrite Hother].
  rewrite He', He. cbn. by rewrite Hid.
Qed.

Lemma moveEntity_same_ids (e : eref) (newX newY : Z) (w : World) :
  same_ids w (moveEntity e newX newY w).1.
Proof.
  destruct (moveEntity_cases e newX newY w) as [->|(ent & He & Hv)];
    [apply same_ids_refl|].
  destruct (moveEntity_spec e newX newY w ent He Hv)
    as (_ & _ & (ent' & He' & _ & _ & Hid) & Hother & _).
  intros e'. destruct (decide (e' = e)) as [->|Hne]; [|by rewrite Hother].
  rewrite He', He. cbn. by rewrite Hid.
Qed.

Lemma unregisterEntity_heap (e : eref) (w : World) :
  heap (unregisterEntity e w).1 = heap w.
Proof. apply unregisterEntity_rest. Qed.

Lemma destroyEntity_heap (e : eref) (w : World) : heap (destroyEntity e w).1 = heap w.
Proof.
  unfold destroyEntity. destruct (heap w !! e) as [given|]; [|done].
  destruct (entities w !! e_id given) as [r|]; [|done]. cbn.
  destruct (truthy (heap w !! r ≫= e_zoneId)); [|done].
  apply unregisterEntity_heap.
Qed.

Lemma teleport_same_ids (comp : InteractableComp) (self : eref) (data : Request)
  (w : World) :
  same_ids w (_handleTeleportInteraction comp self data w).
Proof.
  unfold _handleTeleportInteraction.
  destruct (d_targetZone (i_interactionData comp)) as [targetZone|];
    [|apply same_ids_refl].
  destruct (d_targetX (i_interactionData comp)) as [targetX|]; [|apply same_ids_refl].
  destruct (d_targetY (i_interactionData comp)) as [targetY|]; [|apply same_ids_refl].
  destruct (negb (truthy (Some targetZone))); [apply same_ids_refl|].
  eapply same_ids_trans; [|by apply update_entity_same_ids].
  eapply same_ids_trans; [|by apply update_entity_same_ids].
  case_decide.
  - eapply same_ids_trans; [|apply registerEntity_same_ids].
    eapply same_ids_trans; [|by apply update_entity_same_ids].
    eapply same_ids_trans; [apply same_ids_heap, unregisterEntity_heap|].
    apply same_ids_heap. unfold setCurrentZone.
    by destruct (zones _ !! targetZone).
  - apply moveEntity_same_ids.
Qed.

Hypothesis custom_same_ids : ∀ h self data w, same_ids w (custom h self data w).1.

Lemma handleInteraction_same_ids (self : eref) (data : Request) (w : World) :
  same_ids w (handleInteraction custom self data w).1.
Proof.
  unfold handleInteraction.
  destruct (heap w !! self) as [entity|]; [|apply same_ids_refl].
  destruct (heap w !! r_target data) as [target|]; [|apply same_ids_refl].
  destruct (negb (String.eqb (e_id target) (e_id entity))); [apply same_ids_refl|].
  destruct (c_interactable (e_components entity)) as [this|]; [|apply same_ids_refl].
  destruct (negb (includes (r_direction data) (i_validDirections this)));
    [apply same_ids_refl|].
  assert (Hd : same_ids w (dispatch custom this self data w).1).
  { unfold dispatch.
    destruct (String.eqb (i_interactionType this) "dialog"); [by apply same_ids_heap|].
    destruct (String.eqb (i_interactionType this) "pickup").
    { cbn [fst]. unfold _handlePickupInteraction. apply same_ids_heap.
      by rewrite destroyEntity_heap, unregisterEntity_heap. }
    destruct (String.eqb (i_interactionType this) "teleport");
      [apply teleport_same_ids|].
    destruct (String.eqb (i_interactionType this) "toggle").
    { cbn [fst]. unfold _handleToggleInteraction, set_interactable, update_components.
      apply same_ids_publish. by apply update_entity_same_ids. }
    destruct (String.eqb (i_interactionType this) "custom"); [|by apply same_ids_heap].
    destruct (d_handler (i_interactionData this)); [apply custom_same_ids|].
    apply same_ids_refl. }
  destruct (dispatch custom this self data w) as [w1 [|err]]; [|exact Hd].
  cbn [fst] in *. eapply same_ids_trans; [exact Hd|apply flash_rest].
Qed.

Lemma handlers_ignore (data : Request) (hs : list eref) (w : World) :
  (∀ h, h ∈ hs → (e_id <$> heap w !! h) ≠ (e_id <$> heap w !! r_target data)) →
  foldl (λ acc h, (handleInteraction custom h data acc).1) w hs = w.
Proof.
  induction hs as [|h hs IH]; [done|]. intros Hall. cbn [foldl].
  rewrite (handleInteraction_ignored custom h data w) by (apply Hall; by left).
  apply IH. intros h' Hin. apply Hall. by right.
Qed.

(** X29. An interaction request published by [interact], called on
    a player component, is processed by the handler of its target and by
    no other: when the custom handlers leave the ids of the entity
    objects alone and the other subscribed interactables have ids
    different from the target's, the state after [interact] is the state
    after the target's handler alone has run on the request, whatever
    that handler did. *)
Theorem interaction_reaches_only_its_target (this : PlayerComp) (self : eref)
  (data : Request) (w : World) (before after : list eref) :
  interaction_request this self w = Some data →
  interact_handlers w = before ++ r_target data :: after →
  (∀ h, h ∈ before ++ after →
        (e_id <$> heap w !! h) ≠ (e_id <$> heap w !! r_target data)) →
  r_actor data = self
  ∧ r_direction data = p_direction this
  ∧ interact custom this self w = (handleInteraction custom (r_target data) data w).1.
Proof.
  intros Hreq Hsubs Hothers.
  assert (Hdata : r_actor data = self ∧ r_direction data = p_direction this).
  { unfold interaction_request in Hreq.
    destruct (heap w !! self) as [entity|]; [|done].
    cbv zeta in Hreq.
    match type of Hreq with
    | match ?l with _ => _ end = _ => destruct l; [done|by injection Hreq as <-]
    end. }
  destruct Hdata as [Hactor Hdirection]. split; [exact Hactor|]. split; [exact Hdirection|].
  unfold interact. rewrite Hreq. unfold publishInteract.
  fold (interact_handlers w). rewrite Hsubs, foldl_app. cbn [foldl].
  rewrite (handlers_ignore data before w)
    by (intros h Hin; apply Hothers, elem_of_app; by left).
  apply handlers_ignore. intros h Hin.
  rewrite !(handleInteraction_same_ids (r_target data) data w).
  apply Hothers, elem_of_app. by right.
Qed.

End Routing.

Lemma interaction_reaches_only_its_target_witness :
  Game.interaction_request Scenarios.lever_player_component Scenarios.belfry_player
    Scenarios.belfry_world
  = Some (Game.mkRequest Scenarios.belfry_player Scenarios.belfry_lever "down")
  ∧ Scenarios.interact_handlers Scenarios.belfry_world
    = [Scenarios.belfry_sign; Scenarios.belfry_lever; Scenarios.belfry_bell]
  ∧ Game.interact Reference.idle_custom Scenarios.lever_player_component
      Scenarios.belfry_player Scenarios.belfry_world
    = (Game.handleInteraction Reference.idle_custom Scenarios.belfry_lever
         (Game.mkRequest Scenarios.belfry_player Scenarios.belfry_lever "down")
         Scenarios.belfry_world).1
  ∧ Game.published
      (Game.interact Reference.idle_custom Scenarios.lever_player_component
         Scenarios.belfry_player Scenarios.belfry_world)
    = Game.published Scenarios.belfry_world
      ++ [Game.EvToggle Scenarios.belfry_lever Scenarios.belfry_player true].
Proof.
  assert (Hc : ∀ (h : nat) (self : Game.eref) (data : Game.Request) (w : Game.World),
             Scenarios.same_ids w (Reference.idle_custom h self data w).1).
  { intros h self data w e. reflexivity. }
  assert (Hreq : Game.interaction_request Scenarios.lever_player_component
                   Scenarios.belfry_player Scenarios.belfry_world
                 = Some (Game.mkRequest Scenarios.belfry_player Scenarios.belfry_lever
                           "down")) by (vm_compute; reflexivity).
  assert (Hsubs : Scenarios.interact_handlers Scenarios.belfry_world
                  = [Scenarios.belfry_sign] ++ Scenarios.belfry_lever
                    :: [Scenarios.belfry_bell]) by (vm_compute; reflexivity).
  assert (Hothers : ∀ h, h ∈ [Scenarios.belfry_sign] ++ [Scenarios.belfry_bell] →
            (Game.e_id <$> Game.heap Scenarios.belfry_world !! h)
            ≠ (Game.e_id <$> Game.heap Scenarios.belfry_world !! Scenarios.belfry_lever)).
  { intros h Hin. cbn [app] in Hin.
    apply elem_of_cons in Hin as [->|Hin]; [by vm_compute|].
    apply elem_of_cons in Hin as [->|Hin]; [by vm_compute|].
    exact (False_ind _ (not_elem_of_nil _ Hin)). }
  pose proof (interaction_reaches_only_its_target Reference.idle_custom Hc
                Scenarios.lever_player_component Scenarios.belfry_player _
                Scenarios.belfry_world [Scenarios.belfry_sign] [Scenarios.belfry_bell]
                Hreq Hsubs Hothers) as (_ & _ & H).
  split; [exact Hreq|]. split; [exact Hsubs|]. split; [exact H|].
  rewrite H. vm_compute. reflexivity.
Defined.

(* ===================================================================== *)
(** * The teleport, from the dispatch of the request *)
(* ===================================================================== *)

Section TeleportDispatch.

Import Game Reference Scenarios.

Variable custom : nat → eref → Request → World → World * Events.completion.

Lemma teleport_accepted (self : eref) (data : Request) (w : World)
  (entity target : Entity) (this : InteractableComp) :
  heap w !! self = Some entity → heap w !! r_target data = Some target →
  e_id target = e_id entity →
  c_interactable (e_components entity) = Some this →
  r_direction data ∈ i_validDirections this →
  i_interactionType this = "teleport" →
  (handleInteraction custom self data w).1
  = flash self (_handleTeleportInteraction this self data w).
Proof.
  intros He Ht Hid Hc Hdir Hty.
  rewrite (handleInteraction_accepted custom self data w entity target this
             He Ht Hid Hc Hdir).
  unfold dispatch. by rewrite Hty.
Qed.

(** C1 (as amended). An actor standing in an existing zone [A] sends a
    request from a valid direction to an interactable whose type is
    teleport and whose data name an existing zone [Z] other than [A] and
    a cell [(x, y)] inside it.  When the ids of [A] and [Z] are not the
    empty string, the actor occupies its own bucket only, and at most
    once, and no other subscribed interactable carries the id of the
    request's target, then after the request is dispatched to the
    subscribed handlers: the actor's zone is [Z] and its cell [(x, y)],
    no bucket of zone [A] holds the actor, the bucket of [Z] at [(x, y)]
    on the actor's layer holds it, and the current zone is [Z]; the
    state is the one the handler of the teleport interactable leaves. *)
Theorem teleport_relocates_actor (w : World) (self : eref) (data : Request)
  (entity target actorEnt : Entity) (this : InteractableComp)
  (src dst : string) (zoneSrc zoneDst : Zone) (x y : Z) (before after : list eref) :
  heap w !! self = Some entity →
  c_interactable (e_components entity) = Some this →
  i_interactionType this = "teleport" →
  d_targetZone (i_interactionData this) = Some dst →
  d_targetX (i_interactionData this) = Some x →
  d_targetY (i_interactionData this) = Some y →
  dst ≠ "" →
  zones w !! dst = Some zoneDst →
  0 ≤ x < z_width zoneDst → 0 ≤ y < z_height zoneDst →
  heap w !! r_target data = Some target →
  e_id target = e_id entity →
  r_direction data ∈ i_validDirections this →
  heap w !! r_actor data = Some actorEnt →
  e_zoneId actorEnt = Some src → src ≠ "" → src ≠ dst →
  zones w !! src = Some zoneSrc →
  (∀ k, r_actor data ∈ bucket k w → k = entity_key actorEnt) →
  (count_occ Nat.eq_dec (bucket (entity_key actorEnt) w) (r_actor data) ≤ 1)%nat →
  interact_handlers w = before ++ self :: after →
  (∀ h, h ∈ before ++ after →
        (e_id <$> heap w !! h) ≠ (e_id <$> heap w !! r_target data)) →
  let w' := publishInteract custom data w in
  (∃ actor', heap w' !! r_actor data = Some actor'
             ∧ e_zoneId actor' = Some dst
             ∧ e_gridX actor' = x ∧ e_gridY actor' = y
             ∧ e_layer actor' = e_layer actorEnt)
  ∧ (∀ k : cell_key, k.1.1.1 = src → r_actor data ∉ bucket k w')
  ∧ r_actor data ∈ bucket (key_of (Some dst) (e_layer actorEnt) x y) w'
  ∧ currentZone w' = Some dst
  ∧ w' = (handleInteraction custom self data w).1.
Proof.
  intros Hself Hcomp Htype HdZ Hdx Hdy HZne HzZ Hx Hy Htarget Hid Hdir Hactor HA HAne HAZ HzA
    Honly Honce Hsubs Hothers w'.
  assert (Hrun : w' = (handleInteraction custom self data w).1).
  { subst w'. unfold publishInteract. fold (interact_handlers w).
    rewrite Hsubs, foldl_app. cbn [foldl].
    rewrite (handlers_ignore custom data before w)
      by (intros h Hin; apply Hothers, elem_of_app; by left).
    apply handlers_ignore. intros h Hin.
    assert (Hsame : same_ids w (handleInteraction custom self data w).1).
    { rewrite (teleport_accepted self data w entity target this
                 Hself Htarget Hid Hcomp Hdir Htype).
      eapply same_ids_trans; [apply teleport_same_ids|apply flash_rest]. }
    rewrite !Hsame. apply Hothers, elem_of_app. by right. }
  destruct (teleport_handler_relocates custom w self data entity target actorEnt this
              src dst zoneSrc zoneDst x y Hself Hcomp Htype HdZ Hdx Hdy HZne HzZ Hx Hy
              Htarget Hid Hdir Hactor HA HAne HAZ HzA Honly Honce)
    as (H1 & H2 & H3 & H4).
  rewrite Hrun. done.
Qed.

End TeleportDispatch.

Lemma teleport_relocates_actor_witness :
  let data := Game.mkRequest Scenarios.station_actor Scenarios.station_portal "up" in
  let w' := Game.publishInteract Reference.idle_custom data Scenarios.station_world in
  (Game.zones Scenarios.station_world !! "B" = Some Scenarios.station_zone_B
   ∧ Game.heap Scenarios.station_world !! Scenarios.station_actor
     = Some Scenarios.station_actor_entity
   ∧ Game.e_zoneId Scenarios.station_actor_entity = Some "A"
   ∧ Scenarios.interact_handlers Scenarios.station_world
     = [Scenarios.station_sign; Scenarios.station_portal; Scenarios.station_bell]
   ∧ Game.interaction_request (Game.mkPlayer "up" true 1 false 0 0)
       Scenarios.station_actor Scenarios.station_world = Some data)
  ∧ (∃ actor', Game.heap w' !! Scenarios.station_actor = Some actor'
               ∧ Game.e_zoneId actor' = Some "B"
               ∧ Game.e_gridX actor' = 5 ∧ Game.e_gridY actor' = 5
               ∧ Game.e_layer actor' = Game.e_layer Scenarios.station_actor_entity)
  ∧ (∀ k : Game.cell_key, k.1.1.1 = "A" → Scenarios.station_actor ∉ Game.bucket k w')
  ∧ Scenarios.station_actor
    ∈ Game.bucket (Game.key_of (Some "B") (Game.e_layer Scenarios.station_actor_entity) 5 5)
        w'
  ∧ Game.currentZone w' = Some "B".
Proof.
  intros data w'.
  assert (H1 : Game.heap Scenarios.station_world !! Scenarios.station_portal
               = Some Scenarios.station_portal_entity) by (vm_compute; reflexivity).
  assert (H2 : Game.c_interactable (Game.e_components Scenarios.station_portal_entity)
               = Some Scenarios.station_portal_component) by reflexivity.
  assert (H3 : Game.zones Scenarios.station_world !! "B" = Some Scenarios.station_zone_B)
    by (vm_compute; reflexivity).
  assert (H4 : Game.heap Scenarios.station_world !! Game.r_target data
               = Some Scenarios.station_portal_entity) by (vm_compute; reflexivity).
  assert (H5 : Game.r_direction data
               ∈ Game.i_validDirections Scenarios.station_portal_component).
  { apply (bool_decide_unpack _). vm_compute. exact I. }
  assert (H6 : Game.heap Scenarios.station_world !! Game.r_actor data
               = Some Scenarios.station_actor_entity) by (vm_compute; reflexivity).
  assert (H7 : Game.zones Scenarios.station_world !! "A" = Some Scenarios.station_zone_A)
    by (vm_compute; reflexivity).
  assert (Hcells : map_to_list (Game.cells Scenarios.station_world)
                   = [(("A", 1, 2, 1), [2%nat]); (("A", 1, 3, 2), [3%nat]);
                      (("A", 1, 1, 2), [1%nat]); (("A", 2, 2, 2), [0%nat])])
    by (vm_compute; reflexivity).
  assert (H8 : ∀ k, Game.r_actor data ∈ Game.bucket k Scenarios.station_world
                    → k = Game.entity_key Scenarios.station_actor_entity).
  { intros k. unfold Game.bucket.
    destruct (Game.cells Scenarios.station_world !! k) as [l|] eqn:E; cbn.
    - apply elem_of_map_to_list in E.
      pose proof (eq_rect _ (λ m, (k, l) ∈ m) E _ Hcells) as E2. cbv beta in E2. clear E.
      repeat (apply elem_of_cons in E2 as [E|E2];
              [injection E as -> ->; intros Hin; apply list_elem_of_singleton in Hin;
               discriminate Hin|]).
      apply list_elem_of_singleton in E2. injection E2 as -> ->. intros _. reflexivity.
    - intros Hin. exact (False_ind _ (not_elem_of_nil _ Hin)). }
  assert (H9 : (count_occ Nat.eq_dec
                  (Game.bucket (Game.entity_key Scenarios.station_actor_entity)
                     Scenarios.station_world) (Game.r_actor data) ≤ 1)%nat).
  { vm_compute. apply le_n. }
  assert (H10 : Scenarios.interact_handlers Scenarios.station_world
                = [Scenarios.station_sign] ++ Scenarios.station_portal
                  :: [Scenarios.station_bell]) by (vm_compute; reflexivity).
  assert (H11 : ∀ h, h ∈ [Scenarios.station_sign] ++ [Scenarios.station_bell] →
            (Game.e_id <$> Game.heap Scenarios.station_world !! h)
            ≠ (Game.e_id <$> Game.heap Scenarios.station_world !! Game.r_target data)).
  { intros h Hin. cbn [app] in Hin.
    apply elem_of_cons in Hin as [->|Hin]; [by vm_compute|].
    apply elem_of_cons in Hin as [->|Hin]; [by vm_compute|].
    exact (False_ind _ (not_elem_of_nil _ Hin)). }
  assert (H12 : Game.interaction_request (Game.mkPlayer "up" true 1 false 0 0)
                  Scenarios.station_actor Scenarios.station_world = Some data)
    by (vm_compute; reflexivity).
  pose proof (teleport_relocates_actor Reference.idle_custom Scenarios.station_world
           Scenarios.station_portal data Scenarios.station_portal_entity
           Scenarios.station_portal_entity Scenarios.station_actor_entity
           Scenarios.station_portal_component "A" "B" Scenarios.station_zone_A
           Scenarios.station_zone_B 5 5 [Scenarios.station_sign] [Scenarios.station_bell]
           H1 H2 eq_refl eq_refl eq_refl eq_refl ltac:(discriminate) H3
           ltac:(vm_compute; split; [discriminate | reflexivity])
           ltac:(vm_compute; split; [discriminate | reflexivity])
           H4 eq_refl H5 H6 eq_refl ltac:(discriminate) ltac:(discriminate) H7 H8 H9
           H10 H11) as H.
  cbv zeta in H. destruct H as (Ha & Hb & Hc & Hd & _).
  split; [auto 6|]. split; [exact Ha|]. split; [exact Hb|]. split; [exact Hc|exact Hd].
Defined.

(** C1, the claim as written, fails.  A zone whose id is the empty string
    exists and the target cell is inside it, yet the teleport returns at
    its missing-data guard: the actor stays in zone A at (2,2) and the
    current zone is not switched.  An actor whose own zone has the empty
    id is not unregistered, and an actor that was registered a second
    time on another cell is removed from the later cell only: in both
    cases a bucket of the old zone still holds the actor after the
    request was dispatched.  And where a second subscribed interactable
    carries the id of the request's target, its handler accepts the
    request as well: the actor, sent to (5,5) by the portal it faces, is
    moved on by the second portal and ends at (1,1), the bucket at (5,5)
    being empty. *)
Lemma teleport_relocates_actor_counterexample :
  let data := Game.mkRequest Reference.arena_actor Reference.arena_portal "up" in
  let run := λ w, Game.publishInteract Reference.idle_custom data w in
  (Game.isValidPosition 5 5 (Some "") Reference.void_world = true
   ∧ (Game.heap Reference.void_world !! Reference.arena_actor ≫= Game.e_zoneId) = Some "A"
   ∧ (Game.heap Reference.void_world !! Reference.arena_portal
        ≫= λ e, Game.i_validDirections <$> Game.c_interactable (Game.e_components e))
     = Some ["up"]
   ∧ (Game.heap (run Reference.void_world) !! Reference.arena_actor ≫= Game.e_zoneId)
     = Some "A"
   ∧ (Game.heap (run Reference.void_world) !! Reference.arena_actor ≫= Game.e_zoneId)
     ≠ Some ""
   ∧ Game.bucket ("A", 2, 2, 2) (run Reference.void_world) = [Reference.arena_actor]
   ∧ Game.bucket ("", 2, 5, 5) (run Reference.void_world) = []
   ∧ Game.currentZone (run Reference.void_world) = Some "A")
  ∧ ((Game.heap Reference.nameless_world !! Reference.arena_actor ≫= Game.e_zoneId)
     = Some ""
     ∧ (Game.heap (run Reference.nameless_world) !! Reference.arena_actor ≫= Game.e_zoneId)
       = Some "B"
     ∧ Game.bucket ("", 2, 2, 2) (run Reference.nameless_world) = [Reference.arena_actor])
  ∧ ((Game.heap Reference.stale_world !! Reference.arena_actor ≫= Game.e_zoneId)
     = Some "A"
     ∧ (Game.heap (run Reference.stale_world) !! Reference.arena_actor ≫= Game.e_zoneId)
       = Some "B"
     ∧ Game.bucket ("A", 2, 2, 2) (run Reference.stale_world) = [Reference.arena_actor])
  ∧ (Game.interaction_request (Game.mkPlayer "up" true 1 false 0 0) Reference.arena_actor
       Scenarios.twin_world = Some data
     ∧ Game.isValidPosition 5 5 (Some "B") Scenarios.twin_world = true
     ∧ (Game.heap Scenarios.twin_world !! Reference.arena_actor ≫= Game.e_zoneId) = Some "A"
     ∧ (Game.heap Scenarios.twin_world !! Reference.arena_portal
          ≫= λ e, Game.i_interactionData <$> Game.c_interactable (Game.e_components e))
       = Some Reference.portal_data
     ∧ (Game.heap Scenarios.twin_world !! Reference.arena_portal
          ≫= λ e, Game.i_validDirections <$> Game.c_interactable (Game.e_components e))
       = Some ["up"]
     ∧ ((λ e, (Game.e_zoneId e, Game.e_gridX e, Game.e_gridY e))
          <$> Game.heap (run Scenarios.twin_world) !! Reference.arena_actor)
       = Some (Some "B", 1, 1)
     ∧ Game.bucket ("B", 2, 5, 5) (run Scenarios.twin_world) = []
     ∧ Game.bucket ("B", 2, 1, 1) (run Scenarios.twin_world) = [Reference.arena_actor]).
Proof.
  cbv zeta beta. repeat split; try (vm_compute; reflexivity). vm_compute. discriminate.
Qed.

(* ===================================================================== *)
(** * Properties of the utilities *)
(* ===================================================================== *)

Section UtilityProperties.

Import MathUtils.

(** X30. [clamp] never returns less than [min]; when [min <= max] the
    result lies between the two, a value that already lies between them is
    returned unchanged, and clamping a clamped value changes nothing.
    (When [min > max] the result is [min].) *)
Theorem clamp_stays_within_bounds (value lo hi : Q) :
  (lo <= clamp value lo hi)%Q
  ∧ ((lo <= hi)%Q →
     (clamp value lo hi <= hi)%Q
     ∧ ((lo <= value)%Q → (value <= hi)%Q → (clamp value lo hi == value)%Q)
     ∧ (clamp (clamp value lo hi) lo hi == clamp value lo hi)%Q)
  ∧ ((hi < lo)%Q → (clamp value lo hi == lo)%Q).
Proof.
  unfold clamp. split; [apply Q.le_max_l|]. split.
  - intros Hle.
    assert (Hup : (Qmax lo (Qmin hi value) <= hi)%Q).
    { apply Q.max_lub; [done|apply Q.le_min_l]. }
    split; [exact Hup|]. split.
    + intros H1 H2. rewrite (Q.min_r hi value H2). by apply Q.max_r.
    + rewrite (Q.min_r hi _ Hup). apply Q.max_r, Q.le_max_l.
  - intros Hlt. apply Q.max_l.
    eapply Qle_trans; [apply Q.le_min_l|by apply Qlt_le_weak].
Qed.

End UtilityProperties.

Lemma clamp_stays_within_bounds_witness :
  (0 <= 1)%Q ∧ (MathUtils.clamp 5 0 1 <= 1)%Q.
Proof.
  assert (H : (0 <= 1)%Q) by (vm_compute; discriminate).
  split; [exact H|].
  exact (proj1 (proj1 (proj2 (clamp_stays_within_bounds 5 0 1)) H)).
Defined.
